(** * The Minio REST client of pkg/minio/client.go, embedded in Rocq

    The Go client is a thin layer over [http.RoundTripper]: every operation
    builds a request with [newReq], hands it to the transport and maps the
    status code of the answer to a Go result pair.  The embedding keeps that
    shape:

    - Go [int], [int64] and status codes are [Z]; the only arithmetic that can
      leave the [int64] range ([offset+length-1] in [GetPartial]) is wrapped
      explicitly with [wrap64];
    - [http.Header] is a [gmap string (list string)];
    - the transport is an interface (type class [RoundTripper]) over an
      explicit transport state, and every operation returns the new transport
      state together with the list of effects it performed, in order;
    - a Go result pair [(v, err)] is a pair whose second component is an
      [option error]; a [panic] of [newReq] is the [Panicked] outcome;
    - the outer loop of [GetBucket] has no bound in the source (a server may
      answer truncated pages without items for ever), so it takes fuel and
      answers [None] when the fuel is used up.

    Logging ([log.Printf]) is left out.  So is [res.Body.Close()]: a response
    is taken to carry a body, as the transports of [net/http] guarantee; a
    [RoundTripper] that answers without an error and with a [nil] body is
    outside the model. *)

From Stdlib Require Import ZArith Lia List String Ascii Bool OrderedTypeEx.
From stdpp Require Import base option list sorting gmap strings pretty.

#[local] Open Scope Z_scope.

(** ** Data model *)

(** [type Item struct] *)
Record Item := mkItem {
  Key : string;
  LastModified : string;
  Size : Z
}.

(** [type listBucketResults struct] *)
Record listBucketResults := mkListBucketResults {
  Contents : list Item;
  IsTruncated : bool;
  MaxKeys : Z;
  Name : string;
  Marker : string
}.

(** The zero value [listBucketResults{}]. *)
Definition zeroListBucketResults : listBucketResults :=
  mkListBucketResults [] false 0 "" "".

(** [type Error struct] *)
Record Error := mkError {
  Op : string;
  Code : Z;
  ErrBody : string;
  ErrHeader : gmap string (list string);
  UseEndpoint : string;
  MinioCode : string
}.

(** [type xmlError struct], without the [XMLName] tag. *)
Record xmlError := mkXmlError {
  xCode : string;
  xMessage : string;
  xRequestId : string;
  xBucket : string;
  xEndpoint : string;
  xStringToSignBytes : string
}.

(** The two sentinel errors of [strconv]. *)
Inductive numErr := ErrSyntax | ErrRange.

(** Go [error] values the client can hand back.  [errorString] stands for
    [errors.New] and for [fmt.Errorf] with verbs that are rendered here
    ([%d], [%v] of a string); the two [fmt.Errorf] calls of [GetBucket] that
    use [%#v] and [%q] keep their arguments instead of a rendered text. *)
Inductive error :=
| errorString (msg : string)
| ErrNotExist                                   (* os.ErrNotExist *)
| NumError (Func Num : string) (Err : numErr)   (* *strconv.NumError *)
| MinioError (e : Error)                        (* *Error *)
| UnexpectedParse (bres : listBucketResults)    (* "Unexpected parse from server: %#v from: %s" *)
| UnexpectedKey (key startAt : string).         (* "Unexpected response from Minio: item key %q but wanted greater than %q" *)

(** [*http.Request], as far as the client fills it in.  [URL] is the string
    the client hands to [http.NewRequest]; what [net/http] makes of it when
    it writes the request is not the client's. *)
Record Request := mkRequest {
  Method : string;
  URL : string;
  ReqHeader : gmap string (list string)
}.

(** [*http.Response]; the body type is left open, see [Platform]. *)
Record Response (Body : Type) := mkResponse {
  StatusCode : Z;
  Header : gmap string (list string);
  RespBody : Body;
  ContentLength : Z
}.
Arguments mkResponse {Body} _ _ _ _.
Arguments StatusCode {Body} _.
Arguments Header {Body} _.
Arguments RespBody {Body} _.
Arguments ContentLength {Body} _.

(** The pair [(res, err)] of [RoundTrip]: a response or an error. *)
Inductive RTResult (Body : Type) :=
| RTOk (res : Response Body)
| RTErr (err : error).
Arguments RTOk {Body} _.
Arguments RTErr {Body} _.

(** A call either returns its Go results or panics (only [newReq] does). *)
Inductive outcome (A : Type) :=
| Returned (a : A)
| Panicked (e : error).
Arguments Returned {A} _.
Arguments Panicked {A} _.

(** Effects of a call, in program order.  [EvWalk] is not an effect of the
    source: it records the loop state ([items], [marker]) and the page with
    which [GetBucket] enters its [range bres.Contents] loop, so that
    statements can speak about the pages a listing consumed. *)
Inductive event :=
| EvSleep (ms : Z)                     (* time.Sleep(ms * time.Millisecond) *)
| EvRequest (req : Request)            (* c.transport().RoundTrip(req) *)
| EvWalk (items : list Item) (marker : string) (bres : listBucketResults).

(** ** The parts of the Go standard library the client calls *)

(** [fmt.Sprintf("%d", n)] *)
Definition itoa (n : Z) : string := pretty n.

(** Two's-complement wrap-around of [int64] arithmetic. *)
Definition wrap64 (z : Z) : Z := (z + 2 ^ 63) mod 2 ^ 64 - 2 ^ 63.

Definition in_int64 (z : Z) : Prop := - 2 ^ 63 <= z < 2 ^ 63.

Module strconv.

Definition maxUint64 : Z := 2 ^ 64 - 1.

(** [cutoff] of [ParseUint] for base 10: the least [n] with [n*10] out of
    range. *)
Definition cutoff : Z := maxUint64 / 10 + 1.

Definition digit (c : ascii) : option Z :=
  let n := Z.of_N (N_of_ascii c) in
  if (48 <=? n) && (n <=? 57) then Some (n - 48) else None.

(** The [for _, c := range []byte(s)] loop of [ParseUint(s, 10, 64)]. *)
Fixpoint parseUintLoop (s : string) (n : Z) : Z * option numErr :=
  match s with
  | EmptyString => (n, None)
  | String c rest =>
      match digit c with
      | None => (0, Some ErrSyntax)
      | Some d =>
          if cutoff <=? n then (maxUint64, Some ErrRange)
          else
            let n1 := n * 10 + d in
            if maxUint64 <? n1 then (maxUint64, Some ErrRange)
            else parseUintLoop rest n1
      end
  end.

Definition ParseUint (s : string) : Z * option numErr :=
  match s with
  | EmptyString => (0, Some ErrSyntax)
  | _ => parseUintLoop s 0
  end.

(** [strconv.ParseInt(s, 10, 64)] *)
Definition ParseInt (s0 : string) : Z * option error :=
  match s0 with
  | EmptyString => (0, Some (NumError "ParseInt" s0 ErrSyntax))
  | String c rest =>
      let '(neg, s) :=
        if Ascii.eqb c "+" then (false, rest)
        else if Ascii.eqb c "-" then (true, rest)
        else (false, s0) in
      match ParseUint s with
      | (_, Some ErrSyntax) => (0, Some (NumError "ParseInt" s0 ErrSyntax))
      | (un, _) =>
          let cutoff := 2 ^ 63 in
          if negb neg && (cutoff <=? un) then
            (cutoff - 1, Some (NumError "ParseInt" s0 ErrRange))
          else if neg && (cutoff <? un) then
            (- cutoff, Some (NumError "ParseInt" s0 ErrRange))
          else (if neg then - un else un, None)
      end
  end.

End strconv.

Module url.

(** [shouldEscape(c, encodeQueryComponent)]: only the unreserved characters
    of RFC 3986 are kept. *)
Definition shouldEscape (c : ascii) : bool :=
  let n := N_of_ascii c in
  if ((97 <=? n) && (n <=? 122) || (65 <=? n) && (n <=? 90)
      || (48 <=? n) && (n <=? 57))%N
  then false
  else if Ascii.eqb c "-" || Ascii.eqb c "_" || Ascii.eqb c "." || Ascii.eqb c "~"
  then false
  else true.

Definition upperhex (n : N) : ascii :=
  match String.get (N.to_nat n) "0123456789ABCDEF" with
  | Some c => c
  | None => "0"%char
  end.

(** [url.QueryEscape] *)
Fixpoint QueryEscape (s : string) : string :=
  match s with
  | EmptyString => EmptyString
  | String c rest =>
      if shouldEscape c then
        if Ascii.eqb c " " then String "+" (QueryEscape rest)
        else
          let n := N_of_ascii c in
          String "%" (String (upperhex (n / 16)) (String (upperhex (n mod 16))
            (QueryEscape rest)))
      else String c (QueryEscape rest)
  end.

End url.

(** Every character satisfies [p]. *)
Fixpoint allChars (p : ascii -> bool) (s : string) : bool :=
  match s with
  | EmptyString => true
  | String c rest => p c && allChars p rest
  end.

(** The characters [url.QueryEscape] lets through or produces. *)
Definition querySafe (c : ascii) : bool :=
  negb (url.shouldEscape c) || Ascii.eqb c "+" || Ascii.eqb c "%".

(** [http.Header.Get] for a key in canonical form. *)
Definition Header_Get (h : gmap string (list string)) (key : string) : string :=
  match h !! key with
  | Some (v :: _) => v
  | _ => ""
  end.

Module textproto.

(** [validHeaderFieldByte]: the [tchar] of RFC 7230. *)
Definition validHeaderFieldByte (c : ascii) : bool :=
  let n := N_of_ascii c in
  ((97 <=? n) && (n <=? 122) || (65 <=? n) && (n <=? 90) || (48 <=? n) && (n <=? 57))%N
  || existsb (Ascii.eqb c)
       ["!"; "#"; "$"; "%"; "&"; "'"; "*"; "+"; "-"; "."; "^"; "_"; "`"; "|"; "~"]%char.

(** The second loop of [canonicalMIMEHeaderKey]: upper case for the first
    letter and for a letter after a dash, lower case for the others. *)
Fixpoint canonicalLoop (upper : bool) (a : string) : string :=
  match a with
  | EmptyString => EmptyString
  | String c rest =>
      let n := N_of_ascii c in
      let c' :=
        if (upper && (97 <=? n) && (n <=? 122))%N then ascii_of_N (n - 32)
        else if (negb upper && (65 <=? n) && (n <=? 90))%N then ascii_of_N (n + 32)
        else c in
      String c' (canonicalLoop (Ascii.eqb c' "-") rest)
  end.

(** [textproto.CanonicalMIMEHeaderKey]: a key with a byte that is no [tchar]
    is returned as it is. *)
Definition CanonicalMIMEHeaderKey (s : string) : string :=
  if allChars validHeaderFieldByte s then canonicalLoop true s else s.

End textproto.

(** [req.Header.Set]: the value goes under the canonical form of the key. *)
Definition Header_Set (req : Request) (key value : string) : Request :=
  mkRequest (Method req) (URL req)
    (<[textproto.CanonicalMIMEHeaderKey key := [value]]> (ReqHeader req)).

Definition set_Method (req : Request) (m : string) : Request :=
  mkRequest m (URL req) (ReqHeader req).

(** The first [n] bytes of a byte string: [io.LimitReader]. *)
Fixpoint take_bytes (n : Z) (s : string) : string :=
  match s with
  | EmptyString => EmptyString
  | String c rest => if n <=? 0 then EmptyString else String c (take_bytes (n - 1) rest)
  end.

(** Library code that is too large to embed is an interface.  [Body] is
    whatever a response body is; the client only reads it through these
    functions. *)
Class Platform (Body : Type) := {
  (* the error of http.NewRequest("GET", url, nil), if any *)
  NewRequestErr : string -> option error;
  (* the bytes ioutil.ReadAll gets out of a body *)
  readAll : Body -> string;
  (* xml.NewDecoder(body).Decode(&bres) on a zero bres: the struct as the
     decoder leaves it, and the decoder's error *)
  decodeListBucket : Body -> listBucketResults * option error;
  (* xml.NewDecoder(bytes).Decode(&xe) on a zero xmlError; the client drops
     the decoder's error *)
  decodeXmlError : string -> xmlError
}.

(** [http.RoundTripper], over an explicit transport state. *)
Class RoundTripper (Body T : Type) :=
  RoundTrip : T -> Request -> T * RTResult Body.

(** ** The client *)

(** [type Client struct]; the [Transport] field is the [RoundTripper]
    instance and the transport state the operations thread through. *)
Record Client := mkClient { Hostname : string }.

Definition hostname (c : Client) : string :=
  if negb (String.eqb (Hostname c) "") then Hostname c else "localhost".

(** [fmt.Sprintf("http://%s/%s/", c.hostname(), bucket)] *)
Definition bucketURL (c : Client) (bucket : string) : string :=
  "http://" +:+ hostname c +:+ "/" +:+ bucket +:+ "/".

Definition keyURL (c : Client) (bucket key : string) : string :=
  bucketURL c bucket +:+ key.

(** The URL [BucketLocation] requests:
    [fmt.Sprintf("http://%s/%s/?location", hostname, url.QueryEscape(bucket))]
    with the [hostname] argument, not [c.hostname()]. *)
Definition bucketLocationURL (bucket hostname : string) : string :=
  "http://" +:+ hostname +:+ "/" +:+ url.QueryEscape bucket +:+ "/?location".

(** The URL of one page of [GetBucket]:
    [fmt.Sprintf("%s?marker=%s&max-keys=%d", c.bucketURL(bucket),
    url.QueryEscape(marker), fetchN)] *)
Definition listURL (c : Client) (bucket marker : string) (fetchN : Z) : string :=
  bucketURL c bucket +:+ "?marker=" +:+ url.QueryEscape marker
    +:+ "&max-keys=" +:+ itoa fetchN.

(** [(e *Error) parseXML()] *)
Definition parseXML `{Platform Body} (e : Error) : Error :=
  let xe := decodeXmlError (ErrBody e) in
  mkError (Op e) (Code e) (ErrBody e) (ErrHeader e)
    (if String.eqb (xCode xe) "TemporaryRedirect" then xEndpoint xe else UseEndpoint e)
    (xCode xe).

Section Operations.

Context {Body T : Type} {P : Platform Body} {RT : RoundTripper Body T}.

(** [newReq]: the request, or the error it panics with. *)
Definition newReq (url_ : string) : Request + error :=
  match NewRequestErr url_ with
  | Some err => inr err
  | None => inl (mkRequest "GET" url_ {["User-Agent" := ["minio"]]})
  end.

(** [Stat(key, bucket string) (size int64, reterr error)] *)
Definition Stat (c : Client) (t : T) (key bucket : string)
  : T * list event * outcome (Z * option error) :=
  match newReq (keyURL c bucket key) with
  | inr e => (t, [], Panicked e)
  | inl req =>
      let req := set_Method req "HEAD" in
      let '(t', r) := RoundTrip t req in
      match r with
      | RTErr err => (t', [EvRequest req], Returned (0, Some err))
      | RTOk res =>
          (t', [EvRequest req], Returned (
            if StatusCode res =? 404 then (0, Some ErrNotExist)
            else if StatusCode res =? 200 then
              strconv.ParseInt (Header_Get (Header res) "Content-Length")
            else
              (0, Some (errorString ("minio: Unexpected status code "
                 +:+ itoa (StatusCode res) +:+ " statting object " +:+ key)))))
      end
  end.

(** [GetPartial(bucket, key string, offset, length int64)
    (rc io.ReadCloser, err error)] *)
Definition GetPartial (c : Client) (t : T) (bucket key : string) (offset length : Z)
  : T * list event * outcome (option Body * option error) :=
  if offset <? 0 then
    (t, [], Returned (None, Some (errorString "invalid negative length")))
  else
    match newReq (keyURL c bucket key) with
    | inr e => (t, [], Panicked e)
    | inl req =>
        let req :=
          if 0 <=? length then
            Header_Set req "Range"
              ("bytes=" +:+ itoa offset +:+ "-" +:+ itoa (wrap64 (offset + length - 1)))
          else
            Header_Set req "Range" ("bytes=" +:+ itoa offset +:+ "-") in
        let '(t', r) := RoundTrip t req in
        match r with
        | RTErr err => (t', [EvRequest req], Returned (None, Some err))
        | RTOk res =>
            (t', [EvRequest req], Returned (
              if (StatusCode res =? 200) || (StatusCode res =? 206) then
                (Some (RespBody res), None)
              else if StatusCode res =? 404 then (None, Some ErrNotExist)
              else
                (None, Some (errorString ("Minio HTTP error on GET: "
                   +:+ itoa (StatusCode res))))))
        end
    end.

Definition maxTries : Z := 5.

Definition MAX_OBJECT_LIST : Z := 1000.

(** How one pass through the body of the retry loop ends. *)
Inductive attemptResult :=
| TryContinue (bres : listBucketResults)   (* continue *)
| TryBreak (bres : listBucketResults)      (* break *)
| TryReturn (err : error)                  (* return nil, err *)
| TryPanic (e : error).                    (* newReq panicked *)

(** The echo check of [GetBucket]:
    [bres.MaxKeys != fetchN || bres.Name != bucket || bres.Marker != marker] *)
Definition echoMismatch (bres : listBucketResults) (fetchN : Z) (bucket marker : string)
  : bool :=
  negb (MaxKeys bres =? fetchN) || negb (String.eqb (Name bres) bucket)
  || negb (String.eqb (Marker bres) marker).

(** The value of [err] after a page with status 200 was decoded: the decoder's
    error, or else the error of the echo check. *)
Definition pageError (bres : listBucketResults) (derr : option error) (fetchN : Z)
  (bucket marker : string) : option error :=
  match derr with
  | Some e => Some e
  | None =>
      if echoMismatch bres fetchN bucket marker then Some (UnexpectedParse bres) else None
  end.

(** The body of [for try := 1; try <= maxTries; try++].  [bres] is the
    variable declared before the loop; the inner [res, err := ...] declares
    a fresh [err] in every pass. *)
Definition attempt (url_ bucket marker : string) (fetchN try : Z) (t : T)
  (bres : listBucketResults) : T * list event * attemptResult :=
  let sleep := EvSleep ((try - 1) * 100) in
  match newReq url_ with
  | inr e => (t, [sleep], TryPanic e)
  | inl req =>
      let '(t', r) := RoundTrip t req in
      let evs := [sleep; EvRequest req] in
      match r with
      | RTErr err =>
          (t', evs, if try <? maxTries then TryContinue bres else TryReturn err)
      | RTOk res =>
          if negb (StatusCode res =? 200) then
            if StatusCode res <? 500 then
              let body := take_bytes (2 ^ 20) (readAll (RespBody res)) in
              let aerr := mkError "ListBucket" (StatusCode res) body (Header res) "" "" in
              (t', evs, TryReturn (MinioError (parseXML aerr)))
            else
              (* err == nil here: falls through to the break *)
              (t', evs, TryBreak bres)
          else
            let '(bres', derr) := decodeListBucket (RespBody res) in
            match pageError bres' derr fetchN bucket marker with
            | Some e =>
                (t', evs, if try <? maxTries - 1 then TryContinue bres' else TryReturn e)
            | None => (t', evs, TryBreak bres')
            end
      end
  end.

(** How the retry loop as a whole ends. *)
Inductive fetchResult :=
| FetchBreak (bres : listBucketResults)
| FetchReturn (err : error)
| FetchPanic (e : error).

(** The retry loop, started at [try] with [n] passes left, that is
    [n = maxTries + 1 - try]; with no pass left the loop condition fails and
    control reaches the code after the loop as it does after a [break]. *)
Fixpoint tryLoop (n : nat) (url_ bucket marker : string) (fetchN try : Z) (t : T)
  (bres : listBucketResults) : T * list event * fetchResult :=
  match n with
  | O => (t, [], FetchBreak bres)
  | S n' =>
      let '(t1, ev1, r) := attempt url_ bucket marker fetchN try t bres in
      match r with
      | TryContinue bres1 =>
          let '(t2, ev2, r2) := tryLoop n' url_ bucket marker fetchN (try + 1) t1 bres1 in
          (t2, ev1 ++ ev2, r2)
      | TryBreak bres1 => (t1, ev1, FetchBreak bres1)
      | TryReturn err => (t1, ev1, FetchReturn err)
      | TryPanic e => (t1, ev1, FetchPanic e)
      end
  end.

(** What the body of [for _, it := range bres.Contents] does with one item. *)
Inductive itemStep :=
| Skip                 (* continue: first dup on pages 2 and higher *)
| Fail (e : error)     (* return nil, fmt.Errorf(...) *)
| Append.              (* items = append(items, it); marker = it.Key *)

Definition walkItem (startAt marker : string) (it : Item) : itemStep :=
  if String.eqb (Key it) marker && negb (String.eqb (Key it) startAt) then Skip
  else if String.ltb (Key it) startAt then Fail (UnexpectedKey (Key it) startAt)
  else Append.

Inductive walkResult :=
| WalkDone (items : list Item) (marker : string)
| WalkFail (e : error).

(** [for _, it := range bres.Contents { ... }] *)
Fixpoint walk (startAt : string) (contents items : list Item) (marker : string)
  : walkResult :=
  match contents with
  | [] => WalkDone items marker
  | it :: rest =>
      match walkItem startAt marker it with
      | Skip => walk startAt rest items marker
      | Fail e => WalkFail e
      | Append => walk startAt rest (items ++ [it]) (Key it)
      end
  end.

(** [fetchN := maxKeys - len(items)], capped at [MAX_OBJECT_LIST]. *)
Definition fetchCount (maxKeys : Z) (items : list Item) : Z :=
  let fetchN := maxKeys - Z.of_nat (length items) in
  if MAX_OBJECT_LIST <? fetchN then MAX_OBJECT_LIST else fetchN.

(** [for len(items) < maxKeys { ... }] and the [return items, nil] after it.
    [None] means that [fuel] pages were not enough to leave the loop. *)
Fixpoint listLoop (fuel : nat) (c : Client) (bucket startAt : string) (maxKeys : Z)
  (t : T) (items : list Item) (marker : string)
  : option (T * list event * outcome (list Item * option error)) :=
  if Z.of_nat (length items) <? maxKeys then
    match fuel with
    | O => None
    | S fuel' =>
        let fetchN := fetchCount maxKeys items in
        let url_ := listURL c bucket marker fetchN in
        let '(t1, ev, r) :=
          tryLoop (Z.to_nat maxTries) url_ bucket marker fetchN 1 t zeroListBucketResults in
        match r with
        | FetchReturn err => Some (t1, ev, Returned ([], Some err))
        | FetchPanic e => Some (t1, ev, Panicked e)
        | FetchBreak bres =>
            let ev1 := ev ++ [EvWalk items marker bres] in
            match walk startAt (Contents bres) items marker with
            | WalkFail e => Some (t1, ev1, Returned ([], Some e))
            | WalkDone items1 marker1 =>
                if negb (IsTruncated bres) then Some (t1, ev1, Returned (items1, None))
                else
                  match listLoop fuel' c bucket startAt maxKeys t1 items1 marker1 with
                  | Some (t2, ev2, out) => Some (t2, ev1 ++ ev2, out)
                  | None => None
                  end
            end
        end
    end
  else Some (t, [], Returned (items, None)).

(** [GetBucket(bucket string, startAt string, maxKeys int)
    (items []*Item, err error)] *)
Definition GetBucket (fuel : nat) (c : Client) (t : T) (bucket startAt : string)
  (maxKeys : Z) : option (T * list event * outcome (list Item * option error)) :=
  if maxKeys <? 0 then
    Some (t, [], Returned ([], Some (errorString "invalid negative maxKeys")))
  else listLoop fuel c bucket startAt maxKeys t [] startAt.

End Operations.

(** ** Order of keys *)

(** Go compares strings byte by byte, as [String.compare] does. *)
Definition keyLt (x y : Item) : Prop := String.ltb (Key x) (Key y) = true.

Definition strictlyIncreasing (items : list Item) : Prop := StronglySorted keyLt items.

(** Two neighbours of the sequence share a key only if it is [startAt]. *)
Definition repeatsOnlyStart (startAt : string) (items : list Item) : Prop :=
  forall l1 x y l2, items = l1 ++ x :: y :: l2 -> Key x = Key y -> Key y = startAt.

(** A page as a listing service with an inclusive marker would answer it:
    keys in strictly increasing order, none below the marker, and the start
    key not handed out a second time. *)
Definition orderlyPage (startAt : string) (items : list Item) (marker : string)
  (bres : listBucketResults) : Prop :=
  strictlyIncreasing (Contents bres)
  /\ Forall (fun it => String.ltb (Key it) marker = false) (Contents bres)
  /\ (items <> [] -> Forall (fun it => Key it <> startAt) (Contents bres)).

Definition requestsOf (tr : list event) : list Request :=
  omap (fun e => match e with EvRequest req => Some req | _ => None end) tr.

(** What holds of [items] and [marker] whenever the listing loop is at the
    head of an iteration, whatever the pages were. *)
Definition listInv (startAt : string) (items : list Item) (marker : string) : Prop :=
  Forall (fun x => String.ltb (Key x) startAt = false) items
  /\ repeatsOnlyStart startAt items
  /\ (forall x, last items = Some x -> Key x = marker)
  /\ String.ltb marker startAt = false.

(** What the walk over orderly pages keeps: the items in strictly increasing
    order and none above the marker. *)
Definition sortedInv (startAt : string) (items : list Item) (marker : string) : Prop :=
  strictlyIncreasing items
  /\ Forall (fun x => String.ltb marker (Key x) = false) items
  /\ String.ltb marker startAt = false.

(** The effects of fetching one page: sleeps and [GET] requests for the
    page's URL, with the one header [newReq] sets. *)
Definition fetchEvent (url_ : string) (e : event) : Prop :=
  match e with
  | EvSleep _ => True
  | EvRequest req => req = mkRequest "GET" url_ {["User-Agent" := ["minio"]]}
  | EvWalk _ _ _ => False
  end.

(** What the claims call a page that fails to decode or to echo the request:
    [e] is the decoder's error, or the decoder was content and one of the
    three echoed fields differs. *)
Definition badPage (page : listBucketResults) (derr : option error) (fetchN : Z)
  (bucket marker : string) (e : error) : Prop :=
  derr = Some e
  \/ (derr = None /\ e = UnexpectedParse page
      /\ (MaxKeys page <> fetchN \/ Name page <> bucket \/ Marker page <> marker)).

Definition goodPage (page : listBucketResults) (derr : option error) (fetchN : Z)
  (bucket marker : string) : Prop :=
  derr = None /\ MaxKeys page = fetchN /\ Name page = bucket /\ Marker page = marker.

(** The transport answers [req] in state [t] with status 200 and a body that
    decodes to [page]: a bad page with error [e], or a page that passes. *)
Definition answersBadPage {Body T : Type} {P : Platform Body} {RT : RoundTripper Body T}
  (t : T) (req : Request) (fetchN : Z) (bucket marker : string) (t' : T)
  (page : listBucketResults) (e : error) : Prop :=
  exists res derr,
    RoundTrip t req = (t', RTOk res) /\ StatusCode res = 200
    /\ decodeListBucket (RespBody res) = (page, derr)
    /\ badPage page derr fetchN bucket marker e.

Definition answersPage {Body T : Type} {P : Platform Body} {RT : RoundTripper Body T}
  (t : T) (req : Request) (t' : T) (page : listBucketResults) : Prop :=
  exists res,
    RoundTrip t req = (t', RTOk res) /\ StatusCode res = 200
    /\ decodeListBucket (RespBody res) = (page, None).

(** The request [newReq] builds for a URL it accepts. *)
Definition getRequest (url_ : string) : Request :=
  mkRequest "GET" url_ {["User-Agent" := ["minio"]]}.

(** Every request of a listing is a [GET] for a page of the bucket, with a
    marker and between 1 and [MAX_OBJECT_LIST] keys asked for. *)
Definition pageRequest (c : Client) (bucket : string) (req : Request) : Prop :=
  exists marker fetchN,
    req = getRequest (listURL c bucket marker fetchN)
    /\ 1 <= fetchN <= MAX_OBJECT_LIST.

(** ** A transport that plays back a script *)

Module Scripted.

(** A body together with what [encoding/xml] makes of it. *)
Record body := mkBody {
  bytes : string;
  listing : listBucketResults;
  listingErr : option error
}.

(** Every URL used below is well formed, so [http.NewRequest] accepts it. *)
#[global] Instance platform : Platform body := {|
  NewRequestErr := fun _ => None;
  readAll := bytes;
  decodeListBucket := fun b => (listing b, listingErr b);
  decodeXmlError := fun _ => mkXmlError "" "" "" "" "" ""
|}.

(** The transport answers with the head of the script, whatever the request;
    a finished script is a connection that fails. *)
#[global] Instance transport : RoundTripper body (list (RTResult body)) :=
  fun t _ =>
    match t with
    | [] => ([], RTErr (errorString "EOF"))
    | r :: rest => (rest, r)
    end.

Definition item (k : string) : Item := mkItem k "2015-01-01T00:00:00.000Z" 1.

(** A well-formed listing page with status 200. *)
Definition page (keys : list string) (truncated : bool) (maxKeys : Z)
  (name marker : string) : RTResult body :=
  RTOk (mkResponse 200 ∅
          (mkBody "" (mkListBucketResults (map item keys) truncated maxKeys name marker) None) 0).

(** An answer with an empty body and the given status and headers. *)
Definition status (code : Z) (h : gmap string (list string)) : RTResult body :=
  RTOk (mkResponse code h (mkBody "" zeroListBucketResults None) 0).

Definition client : Client := mkClient "".

End Scripted.

Module Endless.

(** A service that answers every request with the same empty page and claims
    that more is to come. *)
#[global] Instance emptyPages : RoundTripper Scripted.body unit :=
  fun _ _ =>
    (tt, RTOk (mkResponse 200 ∅
                 (Scripted.mkBody "" (mkListBucketResults [] true 1 "bk" "") None) 0)).

End Endless.


(** ** The other operations of the client *)

(** [type Bucket struct]; its field [Name] is [BucketName] here, since
    [listBucketResults] has a field of that name. *)
Record Bucket := mkBucket {
  BucketName : string;
  CreationDate : string
}.

(** The two other documents the client decodes with [encoding/xml]. *)
Class Documents (Body : Type) := {
  (* xml.NewDecoder(r).Decode(&res) on a zero allMyBuckets: res.Buckets.Bucket
     as the decoder leaves it, and the decoder's error *)
  decodeAllMyBuckets : Body -> list Bucket * option error;
  (* xml.NewDecoder(res.Body).Decode(&xres) on a zero xmlLocationConstraint:
     xres.Location as the decoder leaves it, and the decoder's error *)
  decodeLocationConstraint : Body -> string * option error
}.

(** A request that carries a body: [req.ContentLength] and [req.Body] beside
    what [Request] holds. *)
Record Upload (R : Type) := mkUpload {
  upRequest : Request;
  upContentLength : Z;
  upBody : R
}.
Arguments mkUpload {R} _ _ _.
Arguments upRequest {R} _.
Arguments upContentLength {R} _.
Arguments upBody {R} _.

(** [RoundTrip] on a request with a body. *)
Class Uploader (Body R T : Type) :=
  RoundTripUpload : T -> Upload R -> T * RTResult Body.

Module base64.

(** [encodeStd] *)
Definition encodeStd : string :=
  "ABCDEFGHIJKLMNOPQRSTUVWXYZabcdefghijklmnopqrstuvwxyz0123456789+/".

Definition encodeChar (n : N) : ascii :=
  match String.get (N.to_nat n) encodeStd with
  | Some c => c
  | None => "A"%char
  end.

(** [StdEncoding.EncodeToString]: three bytes give four characters; a rest
    of one or two bytes is padded with [=]. *)
Fixpoint EncodeToString (src : string) : string :=
  match src with
  | EmptyString => EmptyString
  | String a EmptyString =>
      let val := (N_of_ascii a * 65536)%N in
      String (encodeChar (val / 262144 mod 64))
        (String (encodeChar (val / 4096 mod 64)) "==")
  | String a (String b EmptyString) =>
      let val := (N_of_ascii a * 65536 + N_of_ascii b * 256)%N in
      String (encodeChar (val / 262144 mod 64))
        (String (encodeChar (val / 4096 mod 64))
           (String (encodeChar (val / 64 mod 64)) "="))
  | String a (String b (String c rest)) =>
      let val := (N_of_ascii a * 65536 + N_of_ascii b * 256 + N_of_ascii c)%N in
      String (encodeChar (val / 262144 mod 64))
        (String (encodeChar (val / 4096 mod 64))
           (String (encodeChar (val / 64 mod 64))
              (String (encodeChar (val mod 64)) (EncodeToString rest))))
  end.

End base64.

(** [bytes.Contains(b, subslice)] *)
Fixpoint bytesContains (b subslice : string) : bool :=
  String.prefix subslice b
  || match b with
     | EmptyString => false
     | String _ rest => bytesContains rest subslice
     end.

(** [(e *Error) Error()] *)
Definition Error_Error (e : Error) : string :=
  if bytesContains (ErrBody e) "<Error>" then
    "minio." +:+ Op e +:+ ": status " +:+ itoa (Code e) +:+ ": " +:+ ErrBody e
  else "minio." +:+ Op e +:+ ": status " +:+ itoa (Code e).

(** [NewMinioClient]; the default transport it stores is the [RoundTripper]
    instance. *)
Definition NewMinioClient (hostname : string) : Client := mkClient hostname.

Section MoreOperations.

Context {Body T : Type} {P : Platform Body} {RT : RoundTripper Body T}
  {D : Documents Body}.

(** [parseListAllMyBuckets] *)
Definition parseListAllMyBuckets (r : Body) : list Bucket * option error :=
  let '(buckets, derr) := decodeAllMyBuckets r in
  match derr with
  | Some err => ([], Some err)
  | None => (buckets, None)
  end.

(** [Buckets() ([]*Bucket, error)] *)
Definition Buckets (c : Client) (t : T)
  : T * list event * outcome (list Bucket * option error) :=
  match newReq ("http://" +:+ hostname c +:+ "/") with
  | inr e => (t, [], Panicked e)
  | inl req =>
      let '(t', r) := RoundTrip t req in
      match r with
      | RTErr err => (t', [EvRequest req], Returned ([], Some err))
      | RTOk res =>
          (t', [EvRequest req], Returned (
            if negb (StatusCode res =? 200) then
              ([], Some (errorString ("minio: Unexpected status code "
                 +:+ itoa (StatusCode res) +:+ " fetching bucket list")))
            else parseListAllMyBuckets (RespBody res)))
      end
  end.

(** [PutBucket(bucket string) error] *)
Definition PutBucket (c : Client) (t : T) (bucket : string)
  : T * list event * outcome (option error) :=
  match newReq (bucketURL c bucket) with
  | inr e => (t, [], Panicked e)
  | inl req =>
      let req := set_Method req "PUT" in
      let '(t', r) := RoundTrip t req in
      match r with
      | RTErr err => (t', [EvRequest req], Returned (Some err))
      | RTOk res =>
          (t', [EvRequest req], Returned (
            if negb (StatusCode res =? 200) then
              Some (errorString ("Got response code " +:+ itoa (StatusCode res)
                                 +:+ " from minio"))
            else None))
      end
  end.

(** [Put(bucket, key string, md5 hash.Hash, size int64, body io.Reader) error];
    the hash is given by the bytes its [Sum(nil)] returns, [None] is the
    [nil] hash. *)
Definition Put {R : Type} {U : Uploader Body R T} (c : Client) (t : T)
  (bucket key : string) (md5 : option string) (size : Z) (body : R)
  : T * list event * outcome (option error) :=
  match newReq (keyURL c bucket key) with
  | inr e => (t, [], Panicked e)
  | inl req =>
      let req := set_Method req "PUT" in
      let req :=
        match md5 with
        | Some sum => Header_Set req "Content-MD5" (base64.EncodeToString sum)
        | None => req
        end in
      let '(t', r) := RoundTripUpload t (mkUpload req size body) in
      match r with
      | RTErr err => (t', [EvRequest req], Returned (Some err))
      | RTOk res =>
          (t', [EvRequest req], Returned (
            if negb (StatusCode res =? 200) then
              Some (errorString ("Got response code " +:+ itoa (StatusCode res)
                                 +:+ " from minio"))
            else None))
      end
  end.

(** [BucketLocation(bucket string, hostname string) (location string, err error)];
    the status of the answer is not looked at. *)
Definition BucketLocation (c : Client) (t : T) (bucket hostname : string)
  : T * list event * outcome (string * option error) :=
  match newReq (bucketLocationURL bucket hostname) with
  | inr e => (t, [], Panicked e)
  | inl req =>
      let '(t', r) := RoundTrip t req in
      match r with
      | RTErr err => (t', [EvRequest req], Returned ("", Some err))
      | RTOk res =>
          let '(location, derr) := decodeLocationConstraint (RespBody res) in
          (t', [EvRequest req], Returned (
            match derr with
            | Some err => ("", Some err)
            | None =>
                if String.eqb location "" then ("localhost", None)
                else ("minio-" +:+ location +:+ "." +:+ hostname, None)
            end))
      end
  end.

(** [Get(bucket, key string) (body io.ReadCloser, size int64, err error)] *)
Definition Get (c : Client) (t : T) (bucket key : string)
  : T * list event * outcome (option Body * Z * option error) :=
  match newReq (keyURL c bucket key) with
  | inr e => (t, [], Panicked e)
  | inl req =>
      let '(t', r) := RoundTrip t req in
      match r with
      | RTErr err => (t', [EvRequest req], Returned (None, 0, Some err))
      | RTOk res =>
          (t', [EvRequest req], Returned (
            if StatusCode res =? 200 then (Some (RespBody res), ContentLength res, None)
            else if StatusCode res =? 404 then (None, 0, Some ErrNotExist)
            else
              (None, 0, Some (errorString ("Minio HTTP error on GET: "
                 +:+ itoa (StatusCode res))))))
      end
  end.

End MoreOperations.

(** ** The target path of the put command (cmd) *)

Module cmd.

(** [type AuthData struct] *)
Record AuthData := mkAuthData {
  Endpoint : string;
  BasePath : string;
  Bucket : string;
  AccessKey : string;
  SecretKey : string;
  SessionToken : string;
  ExpireAt : string
}.

Definition AuthAlias : string := "gpumall".

(** [getPrefix]; [auth] is what [getAuth()] returned. *)
Definition getPrefix (auth : AuthData) : string :=
  AuthAlias +:+ "/" +:+ Bucket auth +:+ BasePath auth.

(** [getUrlWithSeparator] *)
Definition getUrlWithSeparator (v : string) : string :=
  if negb (String.prefix "/" v) then "/" +:+ v else v.

(** [getFullPath] *)
Definition getFullPath (auth : AuthData) (path : string) : string :=
  let path := if String.eqb path "." then "/" else path in
  getPrefix auth +:+ getUrlWithSeparator path.

End cmd.

(** ** Words for the statements about listings *)

(** [n] failures of the transport in a row on [req], leading from state [t]
    to state [t']. *)
Inductive transportFails {Body T : Type} {RT : RoundTripper Body T} (req : Request)
  : nat -> T -> T -> Prop :=
| fails_none (t : T) : transportFails req 0 t t
| fails_again (n : nat) (t t1 t' : T) (err : error) :
    RoundTrip t req = (t1, RTErr err) ->
    transportFails req n t1 t' ->
    transportFails req (S n) t t'.

(** The sleeps of a trace, in milliseconds. *)
Definition sleepsOf (tr : list event) : list Z :=
  omap (fun e => match e with EvSleep ms => Some ms | _ => None end) tr.

(** The items of the pages a trace walks, page after page. *)
Definition walkedContents (tr : list event) : list Item :=
  mjoin (omap (fun e => match e with EvWalk _ _ bres => Some (Contents bres) | _ => None end) tr).

(** The number of pages a trace walks. *)
Definition pagesWalked (tr : list event) : nat :=
  length (omap (fun e => match e with EvWalk _ _ _ => Some tt | _ => None end) tr).

(** The marker a page is asked with once [items] are collected: the key of
    the last of them, the start key before the first. *)
Definition resumeMarker (startAt : string) (items : list Item) : string :=
  match last items with
  | Some it => Key it
  | None => startAt
  end.

(** A page the transport serves: some request, in some state, is answered
    with status 200 and a body that decodes to the page without an error. *)
Definition servedPage {Body T : Type} {P : Platform Body} {RT : RoundTripper Body T}
  (page : listBucketResults) : Prop :=
  exists (t0 : T) req t1 res,
    RoundTrip t0 req = (t1, RTOk res) /\ StatusCode res = 200
    /\ decodeListBucket (RespBody res) = (page, None).

(** The value of a hexadecimal digit of [url.upperhex]. *)
Definition hexValue (c : ascii) : N :=
  let n := N_of_ascii c in
  if (n <? 58)%N then (n - 48)%N else (n - 55)%N.

(** The state of the listing loop after the pages a trace walks, from the
    state [items], [marker]: what the walks over these pages, one after
    the other, make of it.  (A page whose walk fails ends the call and is
    the last event of its trace.) *)
Fixpoint collected (startAt : string) (tr : list event) (items : list Item)
  (marker : string) : list Item * string :=
  match tr with
  | [] => (items, marker)
  | EvWalk _ _ bres :: rest =>
      match walk startAt (Contents bres) items marker with
      | WalkDone items1 marker1 => collected startAt rest items1 marker1
      | WalkFail _ => collected startAt rest items marker
      end
  | _ :: rest => collected startAt rest items marker
  end.

(** What an event of a listing has to do with the state collected before
    it: a request asks for the page after that state, a walk starts from
    it. *)
Definition eventFits (c : Client) (bucket startAt : string) (maxKeys : Z)
  (e : event) (its : list Item) (mk : string) : Prop :=
  match e with
  | EvSleep _ => True
  | EvRequest req =>
      Z.of_nat (length its) < maxKeys
      /\ req = getRequest (listURL c bucket mk (fetchCount maxKeys its))
  | EvWalk its' mk' _ => its' = its /\ mk' = mk
  end.

(** ** Transports for the other operations *)

Module Staged.

(** A body together with what [encoding/xml] makes of it, whichever document
    is asked for. *)
Record body := mkBody {
  listing : Scripted.body;
  buckets : list Bucket * option error;
  location : string * option error
}.

#[global] Instance stagedPlatform : Platform body | 100 := {|
  NewRequestErr := fun _ => None;
  readAll := fun b => Scripted.bytes (listing b);
  decodeListBucket := fun b => decodeListBucket (listing b);
  decodeXmlError := fun _ => mkXmlError "" "" "" "" "" ""
|}.

#[global] Instance stagedDocuments : Documents body | 100 := {|
  decodeAllMyBuckets := buckets;
  decodeLocationConstraint := location
|}.

#[global] Instance stagedTransport : RoundTripper body (list (RTResult body)) | 100 :=
  fun t _ =>
    match t with
    | [] => ([], RTErr (errorString "EOF"))
    | r :: rest => (rest, r)
    end.

#[global] Instance stagedUploader : Uploader body string (list (RTResult body)) | 100 :=
  fun t _ =>
    match t with
    | [] => ([], RTErr (errorString "EOF"))
    | r :: rest => (rest, r)
    end.

(** An answer with the given status whose body decodes to the given bucket
    list and location. *)
Definition answer (code length : Z) (bs : list Bucket) (loc : string) : RTResult body :=
  RTOk (mkResponse code ∅
          (mkBody (Scripted.mkBody "" zeroListBucketResults None) (bs, None) (loc, None))
          length).

End Staged.

Module Strict.





End Strict.

Module Paged.

(** A bucket [bk] with the keys [a] and [b], served one key a page to a
    listing that asks for two keys from the start. *)
Inductive stage := First | Second.

#[global] Instance twoPages : RoundTripper Scripted.body stage | 100 :=
  fun s _ =>
    match s with
    | First => (Second, Scripted.page ["a"] true 2 "bk" "")
    | Second => (Second, Scripted.page ["b"] false 1 "bk" "a")
    end.

End Paged.
(** ** Facts about the order of strings *)

Lemma ltb_lt (a b : string) : String.ltb a b = true <-> String_as_OT.lt a b.
Proof.
  unfold String.ltb. rewrite <- String_as_OT.cmp_lt. unfold String_as_OT.cmp.
  destruct (String.compare a b); split; congruence.
Qed.

Lemma ltb_irrefl (a : string) : String.ltb a a = false.
Proof.
  unfold String.ltb.
  pose proof (proj2 (String_as_OT.cmp_eq a a) eq_refl) as E.
  unfold String_as_OT.cmp in E. now rewrite E.
Qed.

Lemma ltb_trans (a b c : string) :
  String.ltb a b = true -> String.ltb b c = true -> String.ltb a c = true.
Proof. rewrite !ltb_lt. apply String_as_OT.lt_trans. Qed.

Lemma ltb_asym (a b : string) : String.ltb a b = true -> String.ltb b a = false.
Proof.
  intros Hab. destruct (String.ltb b a) eqn:Hba; [|reflexivity].
  pose proof (ltb_trans _ _ _ Hab Hba) as Haa. rewrite ltb_irrefl in Haa. discriminate.
Qed.

Lemma ltb_total (a b : string) :
  String.ltb a b = false -> String.ltb b a = false -> a = b.
Proof.
  unfold String.ltb. rewrite (String.compare_antisym b a).
  destruct (String.compare a b) eqn:E; simpl; try discriminate.
  intros _ _. now apply String.compare_eq_iff.
Qed.

Lemma ltb_le_lt (a b c : string) :
  String.ltb b a = false -> String.ltb b c = true -> String.ltb a c = true.
Proof.
  intros Hab Hbc. destruct (String.ltb a b) eqn:E.
  - eapply ltb_trans; eauto.
  - rewrite (ltb_total _ _ E Hab). exact Hbc.
Qed.

Lemma ltb_lt_le (a b c : string) :
  String.ltb a b = true -> String.ltb c b = false -> String.ltb a c = true.
Proof.
  intros Hab Hbc. destruct (String.ltb b c) eqn:E.
  - eapply ltb_trans; eauto.
  - rewrite <- (ltb_total _ _ E Hbc). exact Hab.
Qed.

Lemma ltb_le_trans (a b c : string) :
  String.ltb b a = false -> String.ltb c b = false -> String.ltb c a = false.
Proof.
  intros Hab Hbc. destruct (String.ltb c a) eqn:E; [|reflexivity].
  pose proof (ltb_lt_le _ _ _ E Hab) as H. congruence.
Qed.

Lemma ltb_neq (a b : string) : String.ltb a b = true -> a <> b.
Proof. intros H ->. rewrite ltb_irrefl in H. discriminate. Qed.

(** ** Concatenation of strings *)

Lemma append_assoc (a b d : string) : (a +:+ b) +:+ d = a +:+ b +:+ d.
Proof.
  induction a as [|x a IH]; [reflexivity|].
  change (String x ((a +:+ b) +:+ d) = String x (a +:+ b +:+ d)). now rewrite IH.
Qed.

Lemma append_nil_r (a : string) : a +:+ "" = a.
Proof.
  induction a as [|x a IH]; [reflexivity|].
  change (String x (a +:+ "") = String x a). now rewrite IH.
Qed.

(** ** The escape of the marker *)

Lemma upperhex_safe (n : N) : (n < 16)%N -> querySafe (url.upperhex n) = true.
Proof.
  intros Hn. destruct n as [|p]; [reflexivity|].
  do 4 (try (destruct p as [p|p|]; try reflexivity)); lia.
Qed.

(** What [url.QueryEscape] returns holds only unreserved characters, [+]
    and [%]. *)
Lemma QueryEscape_safe (s : string) : allChars querySafe (url.QueryEscape s) = true.
Proof.
  induction s as [|c s IH]; [reflexivity|]. cbn [url.QueryEscape].
  destruct (url.shouldEscape c) eqn:Hc.
  - destruct (Ascii.eqb c " ").
    + cbn [allChars]. now rewrite IH.
    + pose proof (N_ascii_bounded c) as Hb. cbn [allChars].
      rewrite !upperhex_safe, IH; [reflexivity| |].
      * apply N.mod_lt. lia.
      * apply N.Div0.div_lt_upper_bound. exact Hb.
  - cbn [allChars]. unfold querySafe at 1. now rewrite Hc, IH.
Qed.

(** A string of unreserved characters is its own escape. *)
Lemma QueryEscape_unreserved (s : string) :
  allChars (fun c => negb (url.shouldEscape c)) s = true -> url.QueryEscape s = s.
Proof.
  induction s as [|c s IH]; [reflexivity|]. cbn [allChars url.QueryEscape].
  intros [Hc Hs]%andb_prop. apply negb_true_iff in Hc. rewrite Hc.
  now rewrite (IH Hs).
Qed.

(** ** Parsing what [%d] prints *)

Lemma digit_pretty_N_char (d : N) :
  (d < 10)%N -> strconv.digit (pretty_N_char d) = Some (Z.of_N d).
Proof.
  intros Hd. destruct d as [|p]; [reflexivity|].
  do 4 (try (destruct p as [p|p|]; try reflexivity)); lia.
Qed.

Lemma parseUintLoop_pretty_N_go (x : N) :
  forall s, Z.of_N x <= strconv.maxUint64 ->
    strconv.parseUintLoop (pretty_N_go x s) 0 = strconv.parseUintLoop s (Z.of_N x).
Proof.
  induction (N.lt_wf_0 x) as [x _ IH]. intros s Hx.
  destruct (N.eq_dec x 0%N) as [->|Hpos]; [now rewrite pretty_N_go_0|].
  rewrite pretty_N_go_step by lia.
  pose proof (N.div_mod x 10%N ltac:(lia)) as Hdm.
  pose proof (N.mod_lt x 10%N ltac:(lia)) as Hmod.
  assert (Hdiv : (x `div` 10 < x)%N) by (apply N.div_lt; lia).
  unfold strconv.maxUint64 in *.
  rewrite IH by (unfold strconv.maxUint64; lia).
  cbn [strconv.parseUintLoop]. rewrite digit_pretty_N_char by exact Hmod.
  unfold strconv.cutoff, strconv.maxUint64.
  destruct (Z.leb_spec ((2 ^ 64 - 1) `div` 10 + 1) (Z.of_N (x `div` 10)%N)) as [Hc|Hc].
  { exfalso. change ((2 ^ 64 - 1) `div` 10 + 1) with 1844674407370955162 in Hc.
    change (2 ^ 64 - 1) with 18446744073709551615 in Hx.
    clear IH Hdiv. generalize dependent (x `div` 10)%N.
    generalize dependent (x `mod` 10)%N. intros; lia. }
  assert (Heq : Z.of_N (x `div` 10)%N * 10 + Z.of_N (x `mod` 10)%N = Z.of_N x).
  { clear IH Hdiv Hc. generalize dependent (x `div` 10)%N.
    generalize dependent (x `mod` 10)%N. intros; lia. }
  rewrite Heq. destruct (Z.ltb_spec (2 ^ 64 - 1) (Z.of_N x)); [lia|reflexivity].
Qed.

(** [ParseInt] reads back what [%d] prints for a size. *)
Lemma ParseInt_itoa (n : Z) :
  0 <= n < 2 ^ 63 -> strconv.ParseInt (itoa n) = (n, None).
Proof.
  intros Hn. destruct (Z.eq_dec n 0) as [->|Hne]; [reflexivity|].
  assert (Hitoa : itoa n = pretty_N_go (Z.to_N n) "").
  { unfold itoa, pretty, pretty_Z. destruct n as [|p|p]; try lia.
    unfold pretty, pretty_N. now destruct (decide (N.pos p = 0%N)). }
  pose proof (parseUintLoop_pretty_N_go (Z.to_N n) ""
                ltac:(unfold strconv.maxUint64; lia)) as Hparse.
  rewrite <- Hitoa, Z2N.id in Hparse by lia. cbn [strconv.parseUintLoop] in Hparse.
  unfold strconv.ParseInt. destruct (itoa n) as [|ch rest] eqn:Hs.
  { cbn in Hparse. injection Hparse as Hz. lia. }
  assert (Hd : exists d, strconv.digit ch = Some d).
  { cbn [strconv.parseUintLoop] in Hparse.
    destruct (strconv.digit ch) as [d|]; [eauto|]. injection Hparse as Hz. lia. }
  destruct Hd as (d & Hd).
  assert (Hplus : Ascii.eqb ch "+" = false).
  { destruct (Ascii.eqb_spec ch "+") as [->|]; [discriminate Hd|reflexivity]. }
  assert (Hminus : Ascii.eqb ch "-" = false).
  { destruct (Ascii.eqb_spec ch "-") as [->|]; [discriminate Hd|reflexivity]. }
  rewrite Hplus, Hminus. unfold strconv.ParseUint. rewrite Hparse.
  cbn [negb andb]. destruct (Z.leb_spec (2 ^ 63) n); [lia|reflexivity].
Qed.

(** ** The walk over the items of a page *)

Lemma walkItem_Skip (startAt marker : string) (it : Item) :
  walkItem startAt marker it = Skip <-> (Key it = marker /\ Key it <> startAt).
Proof.
  unfold walkItem.
  destruct (String.eqb_spec (Key it) marker) as [Em|Em];
    destruct (String.eqb_spec (Key it) startAt) as [Es|Es]; simpl;
    destruct (String.ltb (Key it) startAt); split;
    first [ discriminate | tauto | intros [? ?]; congruence | reflexivity ].
Qed.

Lemma walkItem_Fail (startAt marker : string) (it : Item) (e : error) :
  walkItem startAt marker it = Fail e ->
  e = UnexpectedKey (Key it) startAt /\ String.ltb (Key it) startAt = true.
Proof.
  unfold walkItem.
  destruct (String.eqb (Key it) marker && negb (String.eqb (Key it) startAt));
    [discriminate|].
  destruct (String.ltb (Key it) startAt); [|discriminate].
  intros [= <-]. split; reflexivity.
Qed.

Lemma walkItem_Append (startAt marker : string) (it : Item) :
  walkItem startAt marker it = Append ->
  String.ltb (Key it) startAt = false /\ (Key it = marker -> Key it = startAt).
Proof.
  unfold walkItem.
  destruct (String.eqb_spec (Key it) marker) as [Em|Em];
    destruct (String.eqb_spec (Key it) startAt) as [Es|Es]; simpl;
    destruct (String.ltb (Key it) startAt); try discriminate; intros _; tauto.
Qed.

(** An item below the start key is never dropped as a duplicate once the
    marker is not below the start key. *)
Lemma walkItem_below (startAt marker : string) (it : Item) :
  String.ltb marker startAt = false ->
  String.ltb (Key it) startAt = true ->
  walkItem startAt marker it = Fail (UnexpectedKey (Key it) startAt).
Proof.
  intros Hm Hk. unfold walkItem.
  destruct (String.eqb_spec (Key it) marker) as [Em|Em]; simpl.
  - rewrite Em in Hk. congruence.
  - now rewrite Hk.
Qed.

Lemma repeatsOnlyStart_snoc (startAt : string) (items : list Item) (it : Item) :
  repeatsOnlyStart startAt items ->
  (forall x, last items = Some x -> Key x = Key it -> Key it = startAt) ->
  repeatsOnlyStart startAt (items ++ [it]).
Proof.
  intros Hrep Hlast l1 x y l2 Heq Hk.
  destruct l2 as [|z l2 _] using rev_ind.
  - change (l1 ++ [x; y]) with (l1 ++ [x] ++ [y]) in Heq.
    rewrite app_assoc in Heq. apply app_inj_tail in Heq as [-> ->].
    apply (Hlast x); [apply last_snoc|exact Hk].
  - change (l1 ++ x :: y :: l2 ++ [z]) with (l1 ++ (x :: y :: l2) ++ [z]) in Heq.
    rewrite app_assoc in Heq. apply app_inj_tail in Heq as [-> _].
    eapply Hrep; eauto.
Qed.

Lemma listInv_init (startAt : string) : listInv startAt [] startAt.
Proof.
  repeat split.
  - constructor.
  - intros l1 x y l2 Heq. destruct l1; discriminate.
  - intros x; discriminate.
  - apply ltb_irrefl.
Qed.

Lemma walk_listInv (startAt : string) (contents : list Item) :
  forall items marker items' marker',
    listInv startAt items marker ->
    walk startAt contents items marker = WalkDone items' marker' ->
    listInv startAt items' marker'.
Proof.
  induction contents as [|it rest IH]; intros items marker items' marker' Inv Hw.
  - simpl in Hw. now inversion Hw; subst.
  - simpl in Hw. destruct (walkItem startAt marker it) eqn:Hit.
    + eapply IH; eauto.
    + discriminate.
    + apply walkItem_Append in Hit as [Hge Hdup].
      destruct Inv as (Hall & Hrep & Hlast & Hm).
      eapply IH; [|exact Hw]. repeat split.
      * apply Forall_app; split; [exact Hall|]. constructor; [exact Hge|constructor].
      * apply repeatsOnlyStart_snoc; [exact Hrep|].
        intros x Hx Hk. apply Hdup. rewrite <- Hk. now apply Hlast.
      * intros x. rewrite last_snoc. now intros [= ->].
      * exact Hge.
Qed.

(** A walk that goes through met no key below the start key. *)
Lemma walk_done_no_key_below (startAt : string) (contents : list Item) :
  forall items marker items' marker',
    String.ltb marker startAt = false ->
    walk startAt contents items marker = WalkDone items' marker' ->
    Forall (fun it => String.ltb (Key it) startAt = false) contents.
Proof.
  induction contents as [|it rest IH]; intros items marker items' marker' Hm Hw.
  - constructor.
  - simpl in Hw. destruct (String.ltb (Key it) startAt) eqn:Hk.
    + rewrite (walkItem_below _ _ _ Hm Hk) in Hw. discriminate.
    + constructor; [exact Hk|].
      destruct (walkItem startAt marker it) eqn:Hit; try discriminate.
      * exact (IH items marker items' marker' Hm Hw).
      * exact (IH (items ++ [it]) (Key it) items' marker' Hk Hw).
Qed.

(** A walk that fails does so on a key below the start key. *)
Lemma walk_fail (startAt : string) (contents : list Item) :
  forall items marker e,
    walk startAt contents items marker = WalkFail e ->
    exists k, e = UnexpectedKey k startAt /\ String.ltb k startAt = true.
Proof.
  induction contents as [|it rest IH]; intros items marker e Hw; simpl in Hw.
  - discriminate.
  - destruct (walkItem startAt marker it) eqn:Hit.
    + eapply IH; eauto.
    + inversion Hw; subst. apply walkItem_Fail in Hit as [-> Hk]. eauto.
    + eapply IH; eauto.
Qed.

(** A walk that meets a key below the start key fails on such a key. *)
Lemma walk_key_below (startAt : string) (contents items : list Item) (marker : string) :
  String.ltb marker startAt = false ->
  Exists (fun it => String.ltb (Key it) startAt = true) contents ->
  exists k,
    walk startAt contents items marker = WalkFail (UnexpectedKey k startAt)
    /\ String.ltb k startAt = true.
Proof.
  intros Hm Hbad.
  destruct (walk startAt contents items marker) as [items1 marker1|e] eqn:Hw.
  - apply walk_done_no_key_below in Hw; [|exact Hm].
    apply Exists_exists in Hbad as (x & Hx & Hlt).
    rewrite Forall_forall in Hw. specialize (Hw x Hx). simpl in Hw. congruence.
  - apply walk_fail in Hw as (k & -> & Hk). eauto.
Qed.

(** On an orderly page the walk goes through and keeps [sortedInv]. *)
Lemma walk_sortedInv (startAt : string) (contents : list Item) :
  forall items marker items' marker',
    sortedInv startAt items marker ->
    strictlyIncreasing contents ->
    Forall (fun it => String.ltb (Key it) marker = false) contents ->
    (items <> [] -> Forall (fun it => Key it <> startAt) contents) ->
    walk startAt contents items marker = WalkDone items' marker' ->
    sortedInv startAt items' marker'.
Proof.
  induction contents as [|it rest IH];
    intros items marker items' marker' Inv Hsort Hge Hstart Hw.
  - simpl in Hw. now inversion Hw; subst.
  - simpl in Hw.
    apply StronglySorted_cons in Hsort as [Hhd Hsort].
    apply Forall_cons in Hge as [Hge1 Hge].
    assert (Hrest_gt : Forall (fun x => String.ltb (Key it) (Key x) = true) rest)
      by exact Hhd.
    assert (Hrest_ge : Forall (fun x => String.ltb (Key x) (Key it) = false) rest).
    { eapply Forall_impl; [exact Hrest_gt|]. intros x Hx. now apply ltb_asym. }
    destruct Inv as (Hinc & Hle & Hm).
    destruct (walkItem startAt marker it) eqn:Hit.
    + apply walkItem_Skip in Hit as [Em Es].
      eapply IH; [| exact Hsort | | | exact Hw].
      * repeat split; assumption.
      * rewrite <- Em. exact Hrest_ge.
      * intros Hne. specialize (Hstart Hne). now apply Forall_cons in Hstart as [_ ?].
    + discriminate.
    + apply walkItem_Append in Hit as [Hks Hdup].
      eapply IH; [| exact Hsort | exact Hrest_ge | | exact Hw].
      * repeat split.
        -- apply StronglySorted_app_2; [| exact Hinc | repeat constructor].
           intros x1 x2 Hx1 Hx2. apply list_elem_of_singleton in Hx2 as ->.
           unfold keyLt.
           assert (Hne : items <> []) by (intros ->; inversion Hx1).
           specialize (Hstart Hne). apply Forall_cons in Hstart as [Hns _].
           rewrite Forall_forall in Hle. specialize (Hle _ Hx1).
           assert (Hlt : String.ltb marker (Key it) = true).
           { destruct (String.ltb marker (Key it)) eqn:E; [reflexivity|].
             exfalso. apply Hns, Hdup. now apply ltb_total. }
           eapply ltb_le_lt; eauto.
        -- apply Forall_app; split.
           ++ eapply Forall_impl; [exact Hle|]. intros x Hx. simpl in Hx.
              eapply ltb_le_trans; eauto.
           ++ constructor; [apply ltb_irrefl|constructor].
        -- exact Hks.
      * intros _. eapply Forall_impl; [exact Hrest_gt|]. intros x Hx Heq. simpl in Hx.
        rewrite Heq in Hx. congruence.
Qed.

(** ** The retry loop *)

Section RetryLoop.

Context {Body T : Type} {P : Platform Body} {RT : RoundTripper Body T}.

(** [newReq] either panics or builds [getRequest]. *)
Lemma newReq_inl (url_ : string) (req : Request) :
  newReq url_ = inl req -> req = getRequest url_.
Proof. unfold newReq. destruct (NewRequestErr url_); [discriminate|]. now intros [= <-]. Qed.

Lemma newReq_ok (url_ : string) :
  NewRequestErr url_ = None -> newReq url_ = inl (getRequest url_).
Proof. unfold newReq. now intros ->. Qed.

Lemma pageError_bad (page : listBucketResults) (derr : option error) (fetchN : Z)
  (bucket marker : string) (e : error) :
  badPage page derr fetchN bucket marker e ->
  pageError page derr fetchN bucket marker = Some e.
Proof.
  unfold pageError, echoMismatch. intros [->|(-> & -> & Hne)]; [reflexivity|].
  destruct (Z.eqb_spec (MaxKeys page) fetchN);
    destruct (String.eqb_spec (Name page) bucket);
    destruct (String.eqb_spec (Marker page) marker); simpl; try reflexivity.
  tauto.
Qed.

Lemma pageError_good (page : listBucketResults) (derr : option error) (fetchN : Z)
  (bucket marker : string) :
  goodPage page derr fetchN bucket marker ->
  pageError page derr fetchN bucket marker = None.
Proof.
  unfold pageError, echoMismatch. intros (-> & <- & <- & <-).
  now rewrite Z.eqb_refl, !String.eqb_refl.
Qed.

(** A page that passes the checks leaves the retry loop with a [break]. *)
Lemma attempt_good (url_ bucket marker : string) (fetchN try : Z) (t t' : T)
  (bres page : listBucketResults) :
  NewRequestErr url_ = None ->
  answersPage t (getRequest url_) t' page ->
  goodPage page None fetchN bucket marker ->
  attempt url_ bucket marker fetchN try t bres
  = (t', [EvSleep ((try - 1) * 100); EvRequest (getRequest url_)], TryBreak page).
Proof.
  intros Hreq (res & Hrt & Hst & Hdec) Hgood. unfold attempt.
  rewrite (newReq_ok _ Hreq), Hrt, Hst, Hdec.
  change (negb (200 =? 200)) with false. cbv beta iota zeta.
  now rewrite (pageError_good _ _ _ _ _ Hgood).
Qed.

(** A bad page: [continue] before the last but one pass, [return] from then
    on. *)
Lemma attempt_bad (url_ bucket marker : string) (fetchN try : Z) (t t' : T)
  (bres page : listBucketResults) (e : error) :
  NewRequestErr url_ = None ->
  answersBadPage t (getRequest url_) fetchN bucket marker t' page e ->
  attempt url_ bucket marker fetchN try t bres
  = (t', [EvSleep ((try - 1) * 100); EvRequest (getRequest url_)],
     if try <? maxTries - 1 then TryContinue page else TryReturn e).
Proof.
  intros Hreq (res & derr & Hrt & Hst & Hdec & Hbad). unfold attempt.
  rewrite (newReq_ok _ Hreq), Hrt, Hst, Hdec.
  change (negb (200 =? 200)) with false. cbv beta iota zeta.
  now rewrite (pageError_bad _ _ _ _ _ _ Hbad).
Qed.

(** A status of 500 or more: the inner [err] is [nil], so the pass ends in
    the [break] and [bres] is what the passes before left in it. *)
Lemma attempt_server_error (url_ bucket marker : string) (fetchN try : Z) (t t' : T)
  (bres : listBucketResults) (res : Response Body) :
  NewRequestErr url_ = None ->
  RoundTrip t (getRequest url_) = (t', RTOk res) ->
  500 <= StatusCode res ->
  attempt url_ bucket marker fetchN try t bres
  = (t', [EvSleep ((try - 1) * 100); EvRequest (getRequest url_)], TryBreak bres).
Proof.
  intros Hreq Hrt Hst. unfold attempt. rewrite (newReq_ok _ Hreq), Hrt.
  destruct (Z.eqb_spec (StatusCode res) 200); [lia|]. simpl.
  destruct (Z.ltb_spec (StatusCode res) 500); [lia|]. reflexivity.
Qed.

(** A failure of the transport: [continue] before the last pass. *)
Lemma attempt_transport_error (url_ bucket marker : string) (fetchN try : Z) (t t' : T)
  (bres : listBucketResults) (err : error) :
  NewRequestErr url_ = None ->
  RoundTrip t (getRequest url_) = (t', RTErr err) ->
  attempt url_ bucket marker fetchN try t bres
  = (t', [EvSleep ((try - 1) * 100); EvRequest (getRequest url_)],
     if try <? maxTries then TryContinue bres else TryReturn err).
Proof.
  intros Hreq Hrt. unfold attempt. now rewrite (newReq_ok _ Hreq), Hrt.
Qed.

(** The last pass never ends in [continue]. *)
Lemma attempt_last_pass (url_ bucket marker : string) (fetchN try : Z) (t t' : T)
  (bres bres' : listBucketResults) (ev : list event) :
  maxTries <= try ->
  attempt url_ bucket marker fetchN try t bres <> (t', ev, TryContinue bres').
Proof.
  intros Htry. unfold attempt.
  destruct (newReq url_) as [req|e]; [|discriminate].
  destruct (RoundTrip t req) as [t1 [res|err]].
  - destruct (negb (StatusCode res =? 200)).
    + destruct (StatusCode res <? 500); discriminate.
    + destruct (decodeListBucket (RespBody res)) as [page derr].
      destruct (pageError page derr fetchN bucket marker); [|discriminate].
      destruct (Z.ltb_spec try (maxTries - 1)); [lia|discriminate].
  - destruct (Z.ltb_spec try maxTries); [lia|discriminate].
Qed.

(** Without an answer of status 500 or more, a pass ends in [break] only
    with a page that passed the echo check. *)
Lemma attempt_break_checked (url_ bucket marker : string) (fetchN try : Z) (t t' : T)
  (bres bres' : listBucketResults) (ev : list event) :
  (forall t0 req t1 res, RoundTrip t0 req = (t1, RTOk res) -> StatusCode res < 500) ->
  attempt url_ bucket marker fetchN try t bres = (t', ev, TryBreak bres') ->
  echoMismatch bres' fetchN bucket marker = false.
Proof.
  intros Hno. unfold attempt.
  destruct (newReq url_) as [req|e]; [|discriminate].
  destruct (RoundTrip t req) as [t1 [res|err]] eqn:Hrt.
  - apply Hno in Hrt.
    destruct (negb (StatusCode res =? 200)).
    + destruct (Z.ltb_spec (StatusCode res) 500); [discriminate|lia].
    + destruct (decodeListBucket (RespBody res)) as [page derr].
      unfold pageError. destruct derr as [e|].
      * destruct (try <? maxTries - 1); discriminate.
      * destruct (echoMismatch page fetchN bucket marker) eqn:Hm.
        -- destruct (try <? maxTries - 1); discriminate.
        -- now intros [= _ _ <-].
  - destruct (try <? maxTries); discriminate.
Qed.

(** Hence the retry loop, run from its first pass, does the same. *)
Lemma tryLoop_break_checked (n : nat) (url_ bucket marker : string) (fetchN : Z) :
  (forall t0 req t1 res, RoundTrip t0 req = (t1, RTOk res) -> StatusCode res < 500) ->
  forall try t bres t' ev bres',
    Z.of_nat n = maxTries - try ->
    tryLoop (S n) url_ bucket marker fetchN try t bres = (t', ev, FetchBreak bres') ->
    echoMismatch bres' fetchN bucket marker = false.
Proof.
  intros Hno. induction n as [|n IH]; intros try t bres t' ev bres' Hn.
  - cbn [tryLoop].
    destruct (attempt url_ bucket marker fetchN try t bres) as [[t1 ev1] r1] eqn:Ha.
    destruct r1 as [bres1|bres1|err|e]; try discriminate.
    + exfalso. eapply attempt_last_pass; [|exact Ha]. lia.
    + intros [= _ _ <-]. eapply attempt_break_checked; eauto.
  - remember (S n) as m eqn:Hm. cbn [tryLoop].
    destruct (attempt url_ bucket marker fetchN try t bres) as [[t1 ev1] r1] eqn:Ha.
    destruct r1 as [bres1|bres1|err|e]; try discriminate.
    + destruct (tryLoop m url_ bucket marker fetchN (try + 1) t1 bres1)
        as [[t2 ev2] r2] eqn:Hl.
      intros [= _ _ ->]. subst m. eapply IH; [|exact Hl]. lia.
    + intros [= _ _ <-]. eapply attempt_break_checked; eauto.
Qed.

Lemma attempt_fetchEvents (url_ bucket marker : string) (fetchN try : Z) (t t' : T)
  (bres : listBucketResults) (ev : list event) (r : attemptResult) :
  attempt url_ bucket marker fetchN try t bres = (t', ev, r) ->
  Forall (fetchEvent url_) ev.
Proof.
  unfold attempt. destruct (newReq url_) as [req|e] eqn:Hreq.
  - apply newReq_inl in Hreq.
    assert (Hev : Forall (fetchEvent url_) [EvSleep ((try - 1) * 100); EvRequest req])
      by (repeat constructor; exact Hreq).
    destruct (RoundTrip t req) as [t1 [res|err]].
    + destruct (negb (StatusCode res =? 200)).
      * destruct (StatusCode res <? 500); intros [= <- <- <-]; exact Hev.
      * destruct (decodeListBucket (RespBody res)) as [bres' derr].
        destruct (pageError bres' derr fetchN bucket marker);
          intros [= <- <- <-]; exact Hev.
    + intros [= <- <- <-]; exact Hev.
  - intros [= <- <- <-]. repeat constructor.
Qed.

Lemma tryLoop_fetchEvents (n : nat) (url_ bucket marker : string) (fetchN : Z) :
  forall try t bres t' ev r,
    tryLoop n url_ bucket marker fetchN try t bres = (t', ev, r) ->
    Forall (fetchEvent url_) ev.
Proof.
  induction n as [|n IH]; intros try t bres t' ev r; simpl.
  - intros [= <- <- <-]. constructor.
  - destruct (attempt url_ bucket marker fetchN try t bres) as [[t1 ev1] r1] eqn:Ha.
    apply attempt_fetchEvents in Ha.
    destruct r1 as [bres1|bres1|err|e]; try (intros [= <- <- <-]; exact Ha).
    destruct (tryLoop n url_ bucket marker fetchN (try + 1) t1 bres1)
      as [[t2 ev2] r2] eqn:Hl.
    apply IH in Hl. intros [= <- <- <-]. apply Forall_app; split; assumption.
Qed.

Lemma fetchEvents_no_walk (url_ : string) (ev : list event) (items : list Item)
  (marker : string) (bres : listBucketResults) :
  Forall (fetchEvent url_) ev -> ~ In (EvWalk items marker bres) ev.
Proof.
  intros Hev Hin. rewrite Forall_forall in Hev.
  exact (Hev _ (proj2 (list_elem_of_In _ _) Hin)).
Qed.

Lemma requestsOf_app (tr1 tr2 : list event) :
  requestsOf (tr1 ++ tr2) = requestsOf tr1 ++ requestsOf tr2.
Proof. apply omap_app. Qed.

Lemma requestsOf_fetch (url_ : string) (ev : list event) :
  Forall (fetchEvent url_) ev -> Forall (fun req => req = getRequest url_) (requestsOf ev).
Proof.
  induction 1 as [|e ev He _ IH]; [constructor|].
  destruct e as [ms|req|its mk bres]; cbn; try exact IH.
  constructor; [exact He|exact IH].
Qed.

(** Inside the loop the number of keys asked for is between 1 and the page
    limit. *)
Lemma fetchCount_range (maxKeys : Z) (items : list Item) :
  Z.of_nat (length items) < maxKeys ->
  1 <= fetchCount maxKeys items <= MAX_OBJECT_LIST.
Proof.
  unfold fetchCount, MAX_OBJECT_LIST. intros Hlt.
  destruct (Z.ltb_spec 1000 (maxKeys - Z.of_nat (length items))); lia.
Qed.

End RetryLoop.

(** ** The listing loop *)

Section ListingLoop.

Context {Body T : Type} {P : Platform Body} {RT : RoundTripper Body T}.

(** The ways in which the listing loop, entered with [items] and [marker],
    comes to its result. *)
Lemma listLoop_cases (fuel : nat) (c : Client) (bucket startAt : string) (maxKeys : Z)
  (t t' : T) (items : list Item) (marker : string) (tr : list event)
  (out : outcome (list Item * option error)) :
  listLoop fuel c bucket startAt maxKeys t items marker = Some (t', tr, out) ->
  (maxKeys <= Z.of_nat (length items)
   /\ t' = t /\ tr = [] /\ out = Returned (items, None))
  \/ (Z.of_nat (length items) < maxKeys
      /\ exists fuel' t1 ev r,
        fuel = S fuel'
        /\ tryLoop (Z.to_nat maxTries)
             (listURL c bucket marker (fetchCount maxKeys items)) bucket marker
             (fetchCount maxKeys items) 1 t zeroListBucketResults = (t1, ev, r)
        /\ match r with
           | FetchReturn err => t' = t1 /\ tr = ev /\ out = Returned ([], Some err)
           | FetchPanic e => t' = t1 /\ tr = ev /\ out = Panicked e
           | FetchBreak bres =>
               match walk startAt (Contents bres) items marker with
               | WalkFail e =>
                   t' = t1 /\ tr = ev ++ [EvWalk items marker bres]
                   /\ out = Returned ([], Some e)
               | WalkDone items1 marker1 =>
                   if IsTruncated bres then
                     exists ev2,
                       listLoop fuel' c bucket startAt maxKeys t1 items1 marker1
                       = Some (t', ev2, out)
                       /\ tr = (ev ++ [EvWalk items marker bres]) ++ ev2
                   else
                     t' = t1 /\ tr = ev ++ [EvWalk items marker bres]
                     /\ out = Returned (items1, None)
               end
           end).
Proof.
  destruct fuel as [|fuel]; cbn [listLoop];
    destruct (Z.ltb_spec (Z.of_nat (length items)) maxKeys) as [Hlt|Hge].
  - discriminate.
  - intros [= <- <- <-]. left. auto.
  - intros Hrun. right. split; [exact Hlt|].
    destruct (tryLoop (Z.to_nat maxTries)
                (listURL c bucket marker (fetchCount maxKeys items)) bucket marker
                (fetchCount maxKeys items) 1 t zeroListBucketResults)
      as [[t1 ev] r] eqn:Htry.
    exists fuel, t1, ev, r. split; [reflexivity|]. split; [reflexivity|].
    destruct r as [bres|err|e].
    + destruct (walk startAt (Contents bres) items marker) as [items1 marker1|e].
      * destruct (IsTruncated bres); simpl in Hrun.
        -- destruct (listLoop fuel c bucket startAt maxKeys t1 items1 marker1)
             as [[[t2 ev2] out2]|]; [|discriminate].
           injection Hrun as <- <- <-. exists ev2. split; reflexivity.
        -- injection Hrun as <- <- <-. auto.
      * injection Hrun as <- <- <-. auto.
    + injection Hrun as <- <- <-. auto.
    + injection Hrun as <- <- <-. auto.
  - intros [= <- <- <-]. left. auto.
Qed.

(** More fuel does not change the result of a listing that has one. *)
Lemma listLoop_fuel_mono (fuel : nat) (c : Client) (bucket startAt : string)
  (maxKeys : Z) :
  forall t items marker r,
    listLoop fuel c bucket startAt maxKeys t items marker = Some r ->
    listLoop (S fuel) c bucket startAt maxKeys t items marker = Some r.
Proof.
  induction fuel as [|fuel IH]; intros t items marker r.
  - cbn [listLoop]. destruct (Z.of_nat (length items) <? maxKeys); [discriminate|].
    intros H; exact H.
  - intros Hrun. cbn [listLoop] in Hrun.
    remember (S fuel) as n eqn:Hn. cbn [listLoop].
    destruct (Z.of_nat (length items) <? maxKeys); [|exact Hrun].
    destruct (tryLoop (Z.to_nat maxTries)
                (listURL c bucket marker (fetchCount maxKeys items)) bucket marker
                (fetchCount maxKeys items) 1 t zeroListBucketResults)
      as [[t1 ev] r1].
    destruct r1 as [bres|err|e]; try exact Hrun.
    destruct (walk startAt (Contents bres) items marker) as [items1 marker1|e];
      [|exact Hrun].
    destruct (negb (IsTruncated bres)); [exact Hrun|].
    destruct (listLoop fuel c bucket startAt maxKeys t1 items1 marker1)
      as [r2|] eqn:Hrec; [|discriminate].
    rewrite (IH _ _ _ _ Hrec). exact Hrun.
Qed.

(** So a result, once there, stays for every larger amount of fuel. *)
Lemma GetBucket_fuel_mono (fuel fuel' : nat) (c : Client) (t : T)
  (bucket startAt : string) (maxKeys : Z)
  (r : T * list event * outcome (list Item * option error)) :
  (fuel <= fuel')%nat ->
  GetBucket fuel c t bucket startAt maxKeys = Some r ->
  GetBucket fuel' c t bucket startAt maxKeys = Some r.
Proof.
  intros Hle Hrun. induction Hle as [|fuel' _ IH]; [exact Hrun|].
  unfold GetBucket in *. destruct (maxKeys <? 0); [exact IH|].
  now apply listLoop_fuel_mono.
Qed.

(** A listing that ends with an error hands back no items. *)
Lemma listLoop_error_no_items (fuel : nat) (c : Client) (bucket startAt : string)
  (maxKeys : Z) :
  forall t items marker t' tr items' e,
    listLoop fuel c bucket startAt maxKeys t items marker
    = Some (t', tr, Returned (items', Some e)) ->
    items' = [].
Proof.
  induction fuel as [|fuel IH]; intros t items marker t' tr items' e Hrun;
    apply listLoop_cases in Hrun
      as [(_ & _ & _ & [=])|(_ & fuel' & t1 & ev & r & Hf & _ & Hr)];
    [discriminate|].
  injection Hf as <-. destruct r as [bres|err|e0].
  - destruct (walk startAt (Contents bres) items marker) as [items1 marker1|e1].
    + destruct (IsTruncated bres).
      * destruct Hr as (ev2 & Hrec & _). eapply IH; eauto.
      * destruct Hr as (_ & _ & [=]).
    + destruct Hr as (_ & _ & [= <- _]). reflexivity.
  - destruct Hr as (_ & _ & [= <- _]). reflexivity.
  - destruct Hr as (_ & _ & [=]).
Qed.

(** A call that reports an error hands back no items. *)
Lemma GetBucket_error_no_items (fuel : nat) (c : Client) (t t' : T)
  (bucket startAt : string) (maxKeys : Z) (tr : list event) (items : list Item)
  (e : error) :
  GetBucket fuel c t bucket startAt maxKeys = Some (t', tr, Returned (items, Some e)) ->
  items = [].
Proof.
  unfold GetBucket. destruct (maxKeys <? 0).
  - now intros [= _ _ <- _].
  - apply listLoop_error_no_items.
Qed.

(** Whatever the pages were, the items of a listing that succeeds satisfy
    [listInv] for some marker. *)
Lemma listLoop_listInv (fuel : nat) (c : Client) (bucket startAt : string)
  (maxKeys : Z) :
  forall t items marker t' tr items',
    listInv startAt items marker ->
    listLoop fuel c bucket startAt maxKeys t items marker
    = Some (t', tr, Returned (items', None)) ->
    exists marker', listInv startAt items' marker'.
Proof.
  induction fuel as [|fuel IH]; intros t items marker t' tr items' Inv Hrun;
    apply listLoop_cases in Hrun
      as [(_ & _ & _ & Hout)|(_ & fuel' & t1 & ev & r & Hf & _ & Hr)];
    try (injection Hout as <-; eauto); try discriminate.
  injection Hf as <-. destruct r as [bres|err|e0].
  - destruct (walk startAt (Contents bres) items marker) as [items1 marker1|e1] eqn:Hw.
    + pose proof (walk_listInv _ _ _ _ _ _ Inv Hw) as Inv1.
      destruct (IsTruncated bres).
      * destruct Hr as (ev2 & Hrec & _). eapply IH; eauto.
      * destruct Hr as (_ & _ & [= <-]). eauto.
    + destruct Hr as (_ & _ & [=]).
  - destruct Hr as (_ & _ & [=]).
  - destruct Hr as (_ & _ & [=]).
Qed.

(** When every page that was walked is orderly, the items stay in strictly
    increasing order. *)
Lemma listLoop_sorted (fuel : nat) (c : Client) (bucket startAt : string)
  (maxKeys : Z) :
  forall t items marker t' tr items',
    sortedInv startAt items marker ->
    listLoop fuel c bucket startAt maxKeys t items marker
    = Some (t', tr, Returned (items', None)) ->
    (forall its mk bres, In (EvWalk its mk bres) tr -> orderlyPage startAt its mk bres) ->
    strictlyIncreasing items'.
Proof.
  induction fuel as [|fuel IH]; intros t items marker t' tr items' Inv Hrun Hpages;
    apply listLoop_cases in Hrun
      as [(_ & _ & _ & Hout)|(_ & fuel' & t1 & ev & r & Hf & _ & Hr)];
    try (injection Hout as <-; apply Inv); try discriminate.
  injection Hf as <-. destruct r as [bres|err|e0].
  - destruct (walk startAt (Contents bres) items marker) as [items1 marker1|e1] eqn:Hw.
    + assert (Inv1 : sortedInv startAt items1 marker1).
      { assert (Hin : In (EvWalk items marker bres) tr).
        { destruct (IsTruncated bres).
          - destruct Hr as (ev2 & _ & ->). apply in_or_app. left.
            apply in_or_app. right. now left.
          - destruct Hr as (_ & -> & _). apply in_or_app. right. now left. }
        destruct (Hpages _ _ _ Hin) as (Hs & Hge & Hst).
        eapply walk_sortedInv; eauto. }
      destruct (IsTruncated bres).
      * destruct Hr as (ev2 & Hrec & ->). eapply IH; eauto.
        intros its mk b Hin. apply Hpages. apply in_or_app. now right.
      * destruct Hr as (_ & _ & [= <-]). apply Inv1.
    + destruct Hr as (_ & _ & [=]).
  - destruct Hr as (_ & _ & [=]).
  - destruct Hr as (_ & _ & [=]).
Qed.

(** A walked page that holds a key below the start key ends the call at
    once, with the integrity error and without items. *)
Lemma listLoop_key_below (fuel : nat) (c : Client) (bucket startAt : string)
  (maxKeys : Z) :
  forall t items marker t' tr out its mk bres,
    listInv startAt items marker ->
    listLoop fuel c bucket startAt maxKeys t items marker = Some (t', tr, out) ->
    In (EvWalk its mk bres) tr ->
    Exists (fun it => String.ltb (Key it) startAt = true) (Contents bres) ->
    (exists k, out = Returned ([], Some (UnexpectedKey k startAt))
               /\ String.ltb k startAt = true)
    /\ exists pre, tr = pre ++ [EvWalk its mk bres].
Proof.
  induction fuel as [|fuel IH];
    intros t items marker t' tr out its mk bres Inv Hrun Hin Hbad;
    apply listLoop_cases in Hrun
      as [(_ & _ & -> & _)|(_ & fuel' & t1 & ev & r & Hf & Htry & Hr)];
    try (now inversion Hin); try discriminate.
  injection Hf as <-.
  apply tryLoop_fetchEvents in Htry.
  pose proof (fetchEvents_no_walk _ _ its mk bres Htry) as Hnot.
  assert (Hdone : forall items1 marker1,
             walk startAt (Contents bres) items marker = WalkDone items1 marker1 ->
             False).
  { intros items1 marker1 Hw.
    apply walk_done_no_key_below in Hw; [|apply Inv].
    apply Exists_exists in Hbad as (x & Hx & Hlt).
    rewrite Forall_forall in Hw.
    specialize (Hw x Hx). simpl in Hw. congruence. }
  destruct r as [bres0|err|e0].
  - destruct (walk startAt (Contents bres0) items marker) as [items1 marker1|e1] eqn:Hw.
    + pose proof (walk_listInv _ _ _ _ _ _ Inv Hw) as Inv1.
      destruct (IsTruncated bres0).
      * destruct Hr as (ev2 & Hrec & ->).
        apply in_app_or in Hin as [Hin|Hin].
        -- apply in_app_or in Hin as [Hin|[Heq|[]]]; [contradiction|].
           injection Heq as <- <- <-. exfalso. eapply Hdone; eauto.
        -- destruct (IH _ _ _ _ _ _ _ _ _ Inv1 Hrec Hin Hbad) as (Hout & pre & ->).
           split; [exact Hout|]. exists ((ev ++ [EvWalk items marker bres0]) ++ pre).
           now rewrite app_assoc.
      * destruct Hr as (_ & -> & _).
        apply in_app_or in Hin as [Hin|[Heq|[]]]; [contradiction|].
        injection Heq as <- <- <-. exfalso. eapply Hdone; eauto.
    + destruct Hr as (_ & -> & ->).
      apply in_app_or in Hin as [Hin|[Heq|[]]]; [contradiction|].
      injection Heq as <- <- <-. split; [|now exists ev].
      apply walk_fail in Hw as (k & -> & Hk). eauto.
  - destruct Hr as (_ & -> & _). contradiction.
  - destruct Hr as (_ & -> & _). contradiction.
Qed.

(** The requests of a listing are page requests. *)
Lemma listLoop_requests (fuel : nat) (c : Client) (bucket startAt : string)
  (maxKeys : Z) :
  forall t items marker t' tr out,
    listLoop fuel c bucket startAt maxKeys t items marker = Some (t', tr, out) ->
    Forall (pageRequest c bucket) (requestsOf tr).
Proof.
  induction fuel as [|fuel IH]; intros t items marker t' tr out Hrun;
    apply listLoop_cases in Hrun
      as [(_ & _ & -> & _)|(Hlt & fuel' & t1 & ev & r & Hf & Htry & Hr)];
    try constructor; try discriminate.
  injection Hf as <-.
  apply tryLoop_fetchEvents, requestsOf_fetch in Htry.
  assert (Hev : Forall (pageRequest c bucket) (requestsOf ev)).
  { eapply Forall_impl; [exact Htry|]. intros req ->.
    exists marker, (fetchCount maxKeys items). split; [reflexivity|].
    now apply fetchCount_range. }
  assert (Hevw : forall bres,
             Forall (pageRequest c bucket)
               (requestsOf (ev ++ [EvWalk items marker bres]))).
  { intros bres. rewrite requestsOf_app. cbn. now rewrite app_nil_r. }
  destruct r as [bres|err|e0].
  - destruct (walk startAt (Contents bres) items marker) as [items1 marker1|e1].
    + destruct (IsTruncated bres).
      * destruct Hr as (ev2 & Hrec & ->). rewrite requestsOf_app.
        apply Forall_app. split; [apply Hevw|]. eapply IH; eauto.
      * destruct Hr as (_ & -> & _). apply Hevw.
    + destruct Hr as (_ & -> & _). apply Hevw.
  - destruct Hr as (_ & -> & _). exact Hev.
  - destruct Hr as (_ & -> & _). exact Hev.
Qed.

(** Every request of a listing asks for a page of the bucket with between 1
    and [MAX_OBJECT_LIST] keys. *)
Lemma GetBucket_requests (fuel : nat) (c : Client) (t t' : T)
  (bucket startAt : string) (maxKeys : Z) (tr : list event)
  (out : outcome (list Item * option error)) :
  GetBucket fuel c t bucket startAt maxKeys = Some (t', tr, out) ->
  Forall (pageRequest c bucket) (requestsOf tr).
Proof.
  unfold GetBucket. destruct (maxKeys <? 0).
  - intros [= _ <- _]. constructor.
  - apply listLoop_requests.
Qed.

(** Without an answer of status 500 or more, every page a listing walks has
    passed the echo check against the request it answers. *)
Lemma listLoop_walks_checked (fuel : nat) (c : Client) (bucket startAt : string)
  (maxKeys : Z) :
  (forall t0 req t1 res, RoundTrip t0 req = (t1, RTOk res) -> StatusCode res < 500) ->
  forall t items marker t' tr out its mk bres,
    listLoop fuel c bucket startAt maxKeys t items marker = Some (t', tr, out) ->
    In (EvWalk its mk bres) tr ->
    echoMismatch bres (fetchCount maxKeys its) bucket mk = false.
Proof.
  intros Hno.
  induction fuel as [|fuel IH]; intros t items marker t' tr out its mk bres Hrun Hin;
    apply listLoop_cases in Hrun
      as [(_ & _ & -> & _)|(_ & fuel' & t1 & ev & r & Hf & Htry & Hr)];
    try (now inversion Hin); try discriminate.
  injection Hf as <-.
  pose proof (tryLoop_fetchEvents _ _ _ _ _ _ _ _ _ _ _ Htry) as Hev.
  pose proof (fetchEvents_no_walk _ _ its mk bres Hev) as Hnot.
  assert (Hhere : forall bres0,
             r = FetchBreak bres0 ->
             EvWalk items marker bres0 = EvWalk its mk bres ->
             echoMismatch bres (fetchCount maxKeys its) bucket mk = false).
  { intros bres0 -> [= <- <- <-].
    change (Z.to_nat maxTries) with 5%nat in Htry.
    exact (tryLoop_break_checked 4 _ _ _ _ Hno 1 _ _ _ _ _ eq_refl Htry). }
  destruct r as [bres0|err|e0].
  - destruct (walk startAt (Contents bres0) items marker) as [items1 marker1|e1].
    + destruct (IsTruncated bres0).
      * destruct Hr as (ev2 & Hrec & ->).
        apply in_app_or in Hin as [Hin|Hin]; [|eapply IH; eauto].
        apply in_app_or in Hin as [Hin|[Heq|[]]]; [contradiction|eauto].
      * destruct Hr as (_ & -> & _).
        apply in_app_or in Hin as [Hin|[Heq|[]]]; [contradiction|eauto].
    + destruct Hr as (_ & -> & _).
      apply in_app_or in Hin as [Hin|[Heq|[]]]; [contradiction|eauto].
  - destruct Hr as (_ & -> & _). contradiction.
  - destruct Hr as (_ & -> & _). contradiction.
Qed.

Lemma GetBucket_walks_checked (fuel : nat) (c : Client) (t t' : T)
  (bucket startAt : string) (maxKeys : Z) (tr : list event)
  (out : outcome (list Item * option error)) (items : list Item) (marker : string)
  (bres : listBucketResults) :
  (forall t0 req t1 res, RoundTrip t0 req = (t1, RTOk res) -> StatusCode res < 500) ->
  GetBucket fuel c t bucket startAt maxKeys = Some (t', tr, out) ->
  In (EvWalk items marker bres) tr ->
  echoMismatch bres (fetchCount maxKeys items) bucket marker = false.
Proof.
  intros Hno. unfold GetBucket. destruct (maxKeys <? 0).
  - intros [= _ <- _] [].
  - intros Hrun. eapply listLoop_walks_checked; eauto.
Qed.

End ListingLoop.

(** ** The claims about the client *)

Section Claims.

Context {Body T : Type} {P : Platform Body} {RT : RoundTripper Body T}.

(** [int64] arithmetic is exact on results that are [int64]. *)
Lemma wrap64_small (z : Z) : in_int64 z -> wrap64 z = z.
Proof.
  unfold in_int64, wrap64. intros Hz.
  rewrite Z.mod_small by lia. lia.
Qed.

(** C6: [GetBucket] with a negative [maxKeys] and [GetPartial] with a
    negative [offset] return their input-validation error at once: the
    transport state is unchanged and no effect, hence no round trip, took
    place.  The first holds for every amount of fuel. *)
Theorem negative_arguments_rejected_before_io (fuel : nat) (c : Client) (t : T)
  (bucket startAt key : string) (maxKeys offset length : Z) :
  maxKeys < 0 ->
  offset < 0 ->
  GetBucket fuel c t bucket startAt maxKeys
  = Some (t, [], Returned ([], Some (errorString "invalid negative maxKeys")))
  /\ GetPartial c t bucket key offset length
     = (t, [], Returned (None, Some (errorString "invalid negative length"))).
Proof.
  intros Hm Ho. unfold GetBucket, GetPartial.
  destruct (Z.ltb_spec maxKeys 0); [|lia].
  destruct (Z.ltb_spec offset 0); [|lia].
  split; reflexivity.
Qed.

(** C8: the outcome of [Stat] as a function of the status of the answer.
    404 gives size 0 with [os.ErrNotExist]; 200 gives what [strconv.ParseInt]
    makes of the [Content-Length] header, which is the size itself when the
    header is the decimal form of a size; every other status gives size 0
    with an error that is not [os.ErrNotExist] and whose text carries the
    status code. *)
Theorem Stat_status_mapping (c : Client) (t t' : T) (key bucket : string)
  (req : Request) (res : Response Body) :
  newReq (keyURL c bucket key) = inl req ->
  RoundTrip t (set_Method req "HEAD") = (t', RTOk res) ->
  exists r,
    Stat c t key bucket = (t', [EvRequest (set_Method req "HEAD")], Returned r)
    /\ (StatusCode res = 404 -> r = (0, Some ErrNotExist))
    /\ (StatusCode res = 200 ->
        r = strconv.ParseInt (Header_Get (Header res) "Content-Length")
        /\ forall n, 0 <= n < 2 ^ 63 ->
             Header_Get (Header res) "Content-Length" = itoa n -> r = (n, None))
    /\ (StatusCode res <> 404 -> StatusCode res <> 200 ->
        exists e,
          r = (0, Some e) /\ e <> ErrNotExist
          /\ e = errorString ("minio: Unexpected status code "
                              +:+ itoa (StatusCode res) +:+ " statting object " +:+ key)).
Proof.
  intros Hreq Hrt. unfold Stat. rewrite Hreq, Hrt.
  eexists. split; [reflexivity|].
  destruct (Z.eqb_spec (StatusCode res) 404) as [E4|E4];
    destruct (Z.eqb_spec (StatusCode res) 200) as [E2|E2];
    repeat split; intros; try congruence; try lia.
  - match goal with H : Header_Get _ _ = _ |- _ => rewrite H end.
    now apply ParseInt_itoa.
  - eexists. repeat split. discriminate.
Qed.

(** C9, as amended: for [offset >= 0] the one request of [GetPartial] is a
    [GET] for the URL of the key that carries the bounded range when
    [length >= 0] and [offset+length-1] is an [int64], and the open range
    when [length < 0]; whatever the transport makes of that request, the
    call ends with it: an error of the transport is returned as it is, and
    an answer is mapped to its body for 200 and 206, to [os.ErrNotExist] for
    404 and to a fatal error for the rest. *)
Theorem GetPartial_range_and_status (c : Client) (t : T) (bucket key : string)
  (offset length : Z) :
  0 <= offset ->
  NewRequestErr (keyURL c bucket key) = None ->
  exists req,
    Method req = "GET" /\ URL req = keyURL c bucket key
    /\ (0 <= length -> offset + length - 1 < 2 ^ 63 ->
        ReqHeader req !! "Range"
        = Some ["bytes=" +:+ itoa offset +:+ "-" +:+ itoa (offset + length - 1)])
    /\ (length < 0 ->
        ReqHeader req !! "Range" = Some ["bytes=" +:+ itoa offset +:+ "-"])
    /\ forall t' ans,
        RoundTrip t req = (t', ans) ->
        exists r,
          GetPartial c t bucket key offset length = (t', [EvRequest req], Returned r)
          /\ (forall err, ans = RTErr err -> r = (None, Some err))
          /\ forall res, ans = RTOk res ->
               (StatusCode res = 200 \/ StatusCode res = 206 ->
                r = (Some (RespBody res), None))
               /\ (StatusCode res = 404 -> r = (None, Some ErrNotExist))
               /\ (StatusCode res <> 200 -> StatusCode res <> 206 ->
                   StatusCode res <> 404 ->
                   r = (None, Some (errorString ("Minio HTTP error on GET: "
                                                 +:+ itoa (StatusCode res))))).
Proof.
  intros Ho Hreq. unfold GetPartial.
  destruct (Z.ltb_spec offset 0); [lia|]. rewrite (newReq_ok _ Hreq).
  match goal with |- context [RoundTrip t ?r] => exists r end.
  split; [destruct (0 <=? length); reflexivity|].
  split; [destruct (0 <=? length); reflexivity|].
  split.
  { intros Hl Hfit. destruct (Z.leb_spec 0 length); [|lia].
    rewrite wrap64_small by (unfold in_int64; lia).
    unfold Header_Set. cbn [ReqHeader].
    change (textproto.CanonicalMIMEHeaderKey "Range") with "Range".
    now rewrite lookup_insert_eq. }
  split.
  { intros Hl. destruct (Z.leb_spec 0 length); [lia|].
    unfold Header_Set. cbn [ReqHeader].
    change (textproto.CanonicalMIMEHeaderKey "Range") with "Range".
    now rewrite lookup_insert_eq. }
  intros t' ans ->. destruct ans as [res|err].
  - eexists. split; [reflexivity|]. split; [discriminate|].
    intros res0 [= <-].
    destruct (Z.eqb_spec (StatusCode res) 200) as [E2|E2];
      destruct (Z.eqb_spec (StatusCode res) 206) as [E6|E6];
      destruct (Z.eqb_spec (StatusCode res) 404) as [E4|E4];
      cbn [orb]; repeat split; intros; try congruence; try lia;
      repeat match goal with H : _ \/ _ |- _ => destruct H end; congruence.
  - eexists. split; [reflexivity|]. split; [now intros err0 [= <-]|discriminate].
Qed.

(** C5: with start key "a", a first page with the keys "a" and "b" and the
    truncation flag set, and a second page with the keys "b" and "c" (the
    last page: not truncated, or [maxKeys] is reached), the call asks twice
    and returns the items with keys "a", "b", "c".  An item is skipped
    exactly when its key equals the marker and differs from the start key. *)
Theorem two_pages_boundary_duplicate_skipped (fuel : nat) (c : Client) (t0 t1 t2 : T)
  (bucket : string) (maxKeys : Z) (ma mb mb' mc : string) (sa sb sb' sc : Z)
  (truncated2 : bool) :
  3 <= maxKeys ->
  truncated2 = false \/ maxKeys = 3 ->
  NewRequestErr (listURL c bucket "a" (fetchCount maxKeys [])) = None ->
  NewRequestErr
    (listURL c bucket "b" (fetchCount maxKeys [mkItem "a" ma sa; mkItem "b" mb sb]))
  = None ->
  answersPage t0 (getRequest (listURL c bucket "a" (fetchCount maxKeys []))) t1
    (mkListBucketResults [mkItem "a" ma sa; mkItem "b" mb sb] true
       (fetchCount maxKeys []) bucket "a") ->
  answersPage t1
    (getRequest
       (listURL c bucket "b" (fetchCount maxKeys [mkItem "a" ma sa; mkItem "b" mb sb])))
    t2
    (mkListBucketResults [mkItem "b" mb' sb'; mkItem "c" mc sc] truncated2
       (fetchCount maxKeys [mkItem "a" ma sa; mkItem "b" mb sb]) bucket "b") ->
  (exists tr,
      GetBucket (S (S fuel)) c t0 bucket "a" maxKeys
      = Some (t2, tr,
              Returned ([mkItem "a" ma sa; mkItem "b" mb sb; mkItem "c" mc sc], None))
      /\ requestsOf tr
         = [getRequest (listURL c bucket "a" (fetchCount maxKeys []));
            getRequest
              (listURL c bucket "b"
                 (fetchCount maxKeys [mkItem "a" ma sa; mkItem "b" mb sb]))])
  /\ forall startAt marker it,
      walkItem startAt marker it = Skip <-> (Key it = marker /\ Key it <> startAt).
Proof.
  intros Hmax Hlast Hreq1 Hreq2 H1 H2. split; [|apply walkItem_Skip].
  assert (Hw1 : walk "a" [mkItem "a" ma sa; mkItem "b" mb sb] [] "a"
                = WalkDone [mkItem "a" ma sa; mkItem "b" mb sb] "b") by reflexivity.
  assert (Hw2 : walk "a" [mkItem "b" mb' sb'; mkItem "c" mc sc]
                  [mkItem "a" ma sa; mkItem "b" mb sb] "b"
                = WalkDone [mkItem "a" ma sa; mkItem "b" mb sb; mkItem "c" mc sc] "c")
    by reflexivity.
  unfold GetBucket. destruct (Z.ltb_spec maxKeys 0); [lia|].
  cbn [listLoop]. change (Z.of_nat (length (@nil Item))) with 0.
  destruct (Z.ltb_spec 0 maxKeys); [|lia].
  change (Z.to_nat maxTries) with 5%nat. cbn [tryLoop].
  rewrite (attempt_good _ _ _ _ 1 _ _ _ _ Hreq1 H1)
    by (repeat split; reflexivity).
  cbn [Contents IsTruncated negb]. rewrite Hw1.
  change (Z.of_nat (length [mkItem "a" ma sa; mkItem "b" mb sb])) with 2.
  destruct (Z.ltb_spec 2 maxKeys); [|lia].
  cbn [tryLoop].
  rewrite (attempt_good _ _ _ _ 1 _ _ _ _ Hreq2 H2)
    by (repeat split; reflexivity).
  cbn [Contents IsTruncated]. rewrite Hw2.
  destruct Hlast as [-> | ->].
  - cbn [negb]. eexists. split; reflexivity.
  - destruct truncated2; cbn [negb].
    + destruct fuel; cbn [listLoop];
        change (Z.of_nat (length [mkItem "a" ma sa; mkItem "b" mb sb; mkItem "c" mc sc]))
          with 3; change (3 <? 3) with false; cbn iota;
        eexists; (split; reflexivity).
    + eexists. split; reflexivity.
Qed.

(** C2, as amended: in a listing that succeeds no key is below the start
    key and two neighbours share a key only if it is the start key; the
    sequence is strictly increasing by key when every page the call walked is
    orderly: keys strictly increasing, none below the marker of the request,
    and the start key not repeated once items have been collected. *)
Theorem GetBucket_key_order (fuel : nat) (c : Client) (t t' : T)
  (bucket startAt : string) (maxKeys : Z) (tr : list event) (items : list Item) :
  GetBucket fuel c t bucket startAt maxKeys = Some (t', tr, Returned (items, None)) ->
  Forall (fun it => String.ltb (Key it) startAt = false) items
  /\ repeatsOnlyStart startAt items
  /\ ((forall its mk bres,
          In (EvWalk its mk bres) tr -> orderlyPage startAt its mk bres) ->
      strictlyIncreasing items).
Proof.
  unfold GetBucket. destruct (maxKeys <? 0); [discriminate|]. intros Hrun.
  destruct (listLoop_listInv _ _ _ _ _ _ _ _ _ _ _ (listInv_init startAt) Hrun)
    as (marker' & Hall & Hrep & _).
  repeat split; [exact Hall|exact Hrep|].
  intros Hpages. eapply listLoop_sorted; [|exact Hrun|exact Hpages].
  repeat split; [constructor|constructor|apply ltb_irrefl].
Qed.

(** C7: when a page the call walks holds a key below the start key, the
    call returns the integrity error and no items, and walking that page is
    the last thing it did: the page is not asked for again.  In particular a
    first page that passes the echo check and holds such a key makes the call
    return that error after its one request, whatever the fuel. *)
Theorem key_below_start_fails_at_once (fuel : nat) (c : Client) (t t' t1 : T)
  (bucket startAt : string) (maxKeys : Z) (tr : list event)
  (out : outcome (list Item * option error)) (items : list Item) (marker : string)
  (bres page : listBucketResults) :
  (GetBucket fuel c t bucket startAt maxKeys = Some (t', tr, out) ->
   In (EvWalk items marker bres) tr ->
   Exists (fun it => String.ltb (Key it) startAt = true) (Contents bres) ->
   (exists k, out = Returned ([], Some (UnexpectedKey k startAt))
              /\ String.ltb k startAt = true)
   /\ exists pre, tr = pre ++ [EvWalk items marker bres])
  /\ (0 < maxKeys ->
      NewRequestErr (listURL c bucket startAt (fetchCount maxKeys [])) = None ->
      answersPage t (getRequest (listURL c bucket startAt (fetchCount maxKeys []))) t1 page ->
      goodPage page None (fetchCount maxKeys []) bucket startAt ->
      Exists (fun it => String.ltb (Key it) startAt = true) (Contents page) ->
      exists k,
        GetBucket (S fuel) c t bucket startAt maxKeys
        = Some (t1,
                [EvSleep 0;
                 EvRequest (getRequest (listURL c bucket startAt (fetchCount maxKeys [])));
                 EvWalk [] startAt page],
                Returned ([], Some (UnexpectedKey k startAt)))
        /\ String.ltb k startAt = true).
Proof.
  split.
  - unfold GetBucket. destruct (maxKeys <? 0).
    + intros [= _ <- _] [].
    + intros Hrun. eapply listLoop_key_below; [apply listInv_init|exact Hrun].
  - intros Hmax Hreq Hans Hgood Hbad.
    destruct (walk_key_below startAt (Contents page) [] startAt
                (ltb_irrefl startAt) Hbad) as (k & Hw & Hk).
    exists k. split; [|exact Hk].
    unfold GetBucket. destruct (Z.ltb_spec maxKeys 0); [lia|].
    cbn [listLoop]. change (Z.of_nat (length (@nil Item))) with 0.
    destruct (Z.ltb_spec 0 maxKeys); [|lia].
    change (Z.to_nat maxTries) with 5%nat. cbn [tryLoop].
    rewrite (attempt_good _ _ _ _ 1 _ _ _ _ Hreq Hans Hgood).
    now rewrite Hw.
Qed.

End Claims.

(** C10, as amended: the URL of every request an operation sends, that is
    the string the operation hands to [http.NewRequest].  With [h] the
    configured host name, or [localhost] when none is configured, [Buckets]
    asks for [http://h/], [PutBucket] for [http://h/<bucket>/], [Stat],
    [Put], [Get] and [GetPartial] for [http://h/<bucket>/<key>], and every
    page request of [GetBucket] for [http://h/<bucket>/] followed by the
    query with the escaped marker and the number of keys; bucket and key are
    copied into the string as they are.  [BucketLocation] differs: it asks
    the host it is given, without a fallback, and escapes the bucket.  Every
    call that [http.NewRequest] lets pass sends such a request, [GetPartial]
    for an offset that is not negative. *)
Theorem client_urls {Body T R : Type} {P : Platform Body} {RT : RoundTripper Body T}
  {D : Documents Body} {U : Uploader Body R T} (c : Client) (t : T)
  (bucket key host : string) :
  let h := if String.eqb (Hostname c) "" then "localhost" else Hostname c in
  let sends (url_ : string) (tr : list event) : Prop :=
    Forall (fun req => URL req = url_) (requestsOf tr)
    /\ (NewRequestErr url_ = None -> length (requestsOf tr) = 1%nat) in
  (forall t' tr out, Buckets c t = (t', tr, out) -> sends ("http://" +:+ h +:+ "/") tr)
  /\ (forall t' tr out, PutBucket c t bucket = (t', tr, out) ->
        sends ("http://" +:+ h +:+ "/" +:+ bucket +:+ "/") tr)
  /\ (forall t' tr out, Stat c t key bucket = (t', tr, out) ->
        sends ("http://" +:+ h +:+ "/" +:+ bucket +:+ "/" +:+ key) tr)
  /\ (forall md5 size (body : R) t' tr out,
        Put c t bucket key md5 size body = (t', tr, out) ->
        sends ("http://" +:+ h +:+ "/" +:+ bucket +:+ "/" +:+ key) tr)
  /\ (forall t' tr out, Get c t bucket key = (t', tr, out) ->
        sends ("http://" +:+ h +:+ "/" +:+ bucket +:+ "/" +:+ key) tr)
  /\ (forall offset length t' tr out,
        0 <= offset ->
        GetPartial c t bucket key offset length = (t', tr, out) ->
        sends ("http://" +:+ h +:+ "/" +:+ bucket +:+ "/" +:+ key) tr)
  /\ (forall fuel startAt maxKeys t' tr out,
        GetBucket fuel c t bucket startAt maxKeys = Some (t', tr, out) ->
        Forall (fun req =>
                  exists marker fetchN,
                    URL req = "http://" +:+ h +:+ "/" +:+ bucket +:+ "/"
                                +:+ "?marker=" +:+ url.QueryEscape marker
                                +:+ "&max-keys=" +:+ itoa fetchN)
          (requestsOf tr))
  /\ (forall t' tr out, BucketLocation c t bucket host = (t', tr, out) ->
        sends ("http://" +:+ host +:+ "/" +:+ url.QueryEscape bucket +:+ "/?location") tr).
Proof.
  intros h sends.
  assert (Hh : hostname c = h)
    by (unfold hostname, h; now destruct (String.eqb (Hostname c) "")).
  assert (Hb : bucketURL c bucket = "http://" +:+ h +:+ "/" +:+ bucket +:+ "/")
    by (unfold bucketURL; now rewrite Hh).
  assert (Hk : keyURL c bucket key = "http://" +:+ h +:+ "/" +:+ bucket +:+ "/" +:+ key)
    by (unfold keyURL; now rewrite Hb, !append_assoc).
  assert (Hone : forall url_ req tr,
             URL req = url_ -> tr = [EvRequest req] -> sends url_ tr).
  { intros url_ req tr Hu ->. split; [now repeat constructor|reflexivity]. }
  assert (Hnone : forall url_ e tr,
             NewRequestErr url_ = Some e -> tr = @nil event -> sends url_ tr).
  { intros url_ e tr He ->. split; [constructor|]. rewrite He. discriminate. }
  split; [|split; [|split; [|split; [|split; [|split; [|split]]]]]].
  - intros t' tr out. unfold Buckets, newReq. rewrite Hh.
    destruct (NewRequestErr ("http://" +:+ h +:+ "/")) as [e|] eqn:He.
    + intros [= _ <- _]. now apply (Hnone _ e).
    + destruct (RoundTrip t _) as [t1 [res|err]]; intros [= _ <- _];
        (eapply Hone; [|reflexivity]); reflexivity.
  - intros t' tr out. unfold PutBucket, newReq. rewrite Hb.
    destruct (NewRequestErr ("http://" +:+ h +:+ "/" +:+ bucket +:+ "/")) as [e|] eqn:He.
    + intros [= _ <- _]. now apply (Hnone _ e).
    + cbn zeta. destruct (RoundTrip t _) as [t1 [res|err]]; intros [= _ <- _];
        (eapply Hone; [|reflexivity]); reflexivity.
  - intros t' tr out. unfold Stat, newReq. rewrite Hk.
    destruct (NewRequestErr _) as [e|] eqn:He.
    + intros [= _ <- _]. now apply (Hnone _ e).
    + cbn zeta. destruct (RoundTrip t _) as [t1 [res|err]]; intros [= _ <- _];
        (eapply Hone; [|reflexivity]); reflexivity.
  - intros md5 size body t' tr out. unfold Put, newReq. rewrite Hk.
    destruct (NewRequestErr _) as [e|] eqn:He.
    + intros [= _ <- _]. now apply (Hnone _ e).
    + cbn zeta. destruct (RoundTripUpload t _) as [t1 [res|err]]; intros [= _ <- _];
        (eapply Hone; [|reflexivity]); now destruct md5.
  - intros t' tr out. unfold Get, newReq. rewrite Hk.
    destruct (NewRequestErr _) as [e|] eqn:He.
    + intros [= _ <- _]. now apply (Hnone _ e).
    + destruct (RoundTrip t _) as [t1 [res|err]]; intros [= _ <- _];
        (eapply Hone; [|reflexivity]); reflexivity.
  - intros offset length t' tr out Ho. unfold GetPartial, newReq. rewrite Hk.
    destruct (Z.ltb_spec offset 0); [lia|].
    destruct (NewRequestErr _) as [e|] eqn:He.
    + intros [= _ <- _]. now apply (Hnone _ e).
    + cbn zeta. destruct (RoundTrip t _) as [t1 [res|err]]; intros [= _ <- _];
        (eapply Hone; [|reflexivity]); now destruct (0 <=? length).
  - intros fuel startAt maxKeys t' tr out Hrun.
    apply GetBucket_requests in Hrun.
    eapply Forall_impl; [exact Hrun|].
    intros req (marker & fetchN & -> & _). exists marker, fetchN.
    unfold listURL, getRequest. cbn [URL]. now rewrite Hb, !append_assoc.
  - intros t' tr out. unfold BucketLocation, newReq, bucketLocationURL.
    destruct (NewRequestErr _) as [e|] eqn:He.
    + intros [= _ <- _]. now apply (Hnone _ e).
    + destruct (RoundTrip t _) as [t1 [res|err]].
      * destruct (decodeLocationConstraint (RespBody res)) as [loc derr].
        intros [= _ <- _]. (eapply Hone; [|reflexivity]); reflexivity.
      * intros [= _ <- _]. (eapply Hone; [|reflexivity]); reflexivity.
Qed.

(** ** Runs against the scripted transport *)

(** C1: the code at a page that is answered 503, 503 and then well.  The
    first 503 ends the retry loop through its [break] with the zero page, so
    the call has asked once, returns no item and no error and leaves the two
    other answers unread, whereas the same page served at once yields its
    item. *)
Theorem server_error_ends_listing_without_retry :
  (exists tr,
      GetBucket 1 Scripted.client
        [Scripted.status 503 ∅; Scripted.status 503 ∅;
         Scripted.page ["k"] false 1 "bk" ""] "bk" "" 1
      = Some ([Scripted.status 503 ∅; Scripted.page ["k"] false 1 "bk" ""], tr,
              Returned ([], None))
      /\ length (requestsOf tr) = 1%nat)
  /\ exists tr,
      GetBucket 1 Scripted.client [Scripted.page ["k"] false 1 "bk" ""] "bk" "" 1
      = Some ([], tr, Returned ([Scripted.item "k"], None))
      /\ length (requestsOf tr) = 1%nat.
Proof. split; eexists; split; reflexivity. Qed.

(** C3: the code at two listings that meet a 503.  In the first the answer
    before the 503 echoes a wrong marker: it is rejected by the echo check and
    retried, the 503 then leaves the retry loop with the rejected page still
    in [bres], and its item is returned without an error.  In the second the
    first page is good and truncated and the second page is answered 503: the
    items of the first page are returned without an error, as if the listing
    were complete. *)
Theorem rejected_page_is_returned_after_server_error :
  (echoMismatch (mkListBucketResults [Scripted.item "x"] false 1 "bk" "elsewhere") 1 "bk" ""
   = true
   /\ exists tr,
       GetBucket 1 Scripted.client
         [Scripted.page ["x"] false 1 "bk" "elsewhere"; Scripted.status 503 ∅] "bk" "" 1
       = Some ([], tr, Returned ([Scripted.item "x"], None))
       /\ length (requestsOf tr) = 2%nat)
  /\ exists tr,
      GetBucket 2 Scripted.client
        [Scripted.page ["a"; "b"] true 5 "bk" ""; Scripted.status 503 ∅] "bk" "" 5
      = Some ([], tr, Returned ([Scripted.item "a"; Scripted.item "b"], None))
      /\ length (requestsOf tr) = 2%nat.
Proof.
  split; [split; [reflexivity|]|]; eexists; split; reflexivity.
Qed.

(** C4: the code at a page that is answered badly in the fourth pass.  A
    page that echoes a wrong marker is retried in the first pass: the
    second answer is used.  In the fourth pass it ends the call, after
    three failures of the transport as after three bad pages: the call has
    asked four times, returns the error of that page and no item, and
    leaves the good answer unread, although the loop has a fifth pass,
    which a listing whose first four requests fail in the transport does
    make. *)
Theorem bad_page_in_the_fourth_pass_ends_the_listing :
  echoMismatch (mkListBucketResults [Scripted.item "k"] false 1 "bk" "elsewhere") 1 "bk" ""
  = true
  /\ (exists tr,
        GetBucket 1 Scripted.client
          [Scripted.page ["k"] false 1 "bk" "elsewhere"; Scripted.page ["k"] false 1 "bk" ""]
          "bk" "" 1
        = Some ([], tr, Returned ([Scripted.item "k"], None))
        /\ length (requestsOf tr) = 2%nat)
  /\ (exists tr,
        GetBucket 1 Scripted.client
          [RTErr (errorString "reset"); RTErr (errorString "reset");
           RTErr (errorString "reset"); Scripted.page ["k"] false 1 "bk" "elsewhere";
           Scripted.page ["k"] false 1 "bk" ""] "bk" "" 1
        = Some ([Scripted.page ["k"] false 1 "bk" ""], tr,
                Returned ([], Some (UnexpectedParse
                   (mkListBucketResults [Scripted.item "k"] false 1 "bk" "elsewhere"))))
        /\ length (requestsOf tr) = 4%nat)
  /\ (exists tr,
        GetBucket 1 Scripted.client
          [Scripted.page ["k"] false 1 "bk" "elsewhere";
           Scripted.page ["k"] false 1 "bk" "elsewhere";
           Scripted.page ["k"] false 1 "bk" "elsewhere";
           Scripted.page ["k"] false 1 "bk" "elsewhere";
           Scripted.page ["k"] false 1 "bk" ""] "bk" "" 1
        = Some ([Scripted.page ["k"] false 1 "bk" ""], tr,
                Returned ([], Some (UnexpectedParse
                   (mkListBucketResults [Scripted.item "k"] false 1 "bk" "elsewhere"))))
        /\ length (requestsOf tr) = 4%nat)
  /\ exists tr,
      GetBucket 1 Scripted.client
        [RTErr (errorString "reset"); RTErr (errorString "reset");
         RTErr (errorString "reset"); RTErr (errorString "reset");
         Scripted.page ["k"] false 1 "bk" ""] "bk" "" 1
      = Some ([], tr, Returned ([Scripted.item "k"], None))
      /\ length (requestsOf tr) = 5%nat.
Proof.
  split; [reflexivity|].
  repeat split; eexists; split; reflexivity.
Qed.

(** C2 fails as stated: a page that passes the echo check with its keys out
    of order is returned as it is. *)
Lemma unordered_page_is_returned_as_is :
  exists tr,
    GetBucket 1 Scripted.client [Scripted.page ["b"; "a"] false 2 "bk" ""] "bk" "" 2
    = Some ([], tr, Returned ([Scripted.item "b"; Scripted.item "a"], None))
    /\ ~ strictlyIncreasing [Scripted.item "b"; Scripted.item "a"].
Proof.
  eexists. split; [reflexivity|].
  intros Hs. apply StronglySorted_cons in Hs as [Hhd _].
  apply Forall_cons in Hhd as [Hlt _]. discriminate Hlt.
Qed.

(** C9 fails as stated: [offset+length-1] is computed in [int64], so for the
    greatest offset and length 2 the end of the range is the least [int64]
    and not the number the claim names. *)
Lemma GetPartial_range_end_wraps :
  exists t' req r,
    GetPartial Scripted.client [Scripted.status 206 ∅] "bk" "k" (2 ^ 63 - 1) 2
    = (t', [EvRequest req], Returned r)
    /\ ReqHeader req !! "Range"
       = Some ["bytes=9223372036854775807--9223372036854775808"]
    /\ ReqHeader req !! "Range"
       <> Some ["bytes=" +:+ itoa (2 ^ 63 - 1) +:+ "-" +:+ itoa (2 ^ 63 - 1 + 2 - 1)].
Proof.
  do 3 eexists. split; [reflexivity|]. split; [reflexivity|].
  vm_compute. discriminate.
Qed.

(** C10 fails as stated: [BucketLocation] asks the host it is given, which
    need not be the host of the client, and escapes the bucket, so its URL
    is neither the URL of the bucket nor a URL under it; and the URL of
    [Buckets] holds no bucket at all. *)
Lemma BucketLocation_escapes_bucket :
  (exists t' req r,
      BucketLocation Scripted.client [Staged.answer 200 0 [] ""] "a b" "example.com"
      = (t', [EvRequest req], Returned r)
      /\ URL req = "http://example.com/a+b/?location"
      /\ forall rest, URL req <> bucketURL Scripted.client "a b" +:+ rest)
  /\ exists t' req r,
      Buckets Scripted.client [Staged.answer 200 0 [] ""] = (t', [EvRequest req], Returned r)
      /\ URL req = "http://localhost/".
Proof.
  split; do 3 eexists; (split; [reflexivity|]); [|reflexivity].
  split; [reflexivity|]. intros rest H. vm_compute in H. discriminate H.
Qed.

(** The listing loop has no bound of its own: against [Endless.emptyPages] no
    amount of fuel is enough. *)
Lemma GetBucket_may_not_terminate (fuel : nat) :
  GetBucket fuel Scripted.client tt "bk" "" 1 = None.
Proof.
  unfold GetBucket. change (1 <? 0) with false. cbv iota.
  induction fuel as [|fuel IH]; [reflexivity|].
  cbn [listLoop]. change (Z.of_nat (length (@nil Item)) <? 1) with true. cbv iota.
  change (tryLoop (Z.to_nat maxTries)
            (listURL Scripted.client "bk" "" (fetchCount 1 [])) "bk" ""
            (fetchCount 1 []) 1 tt zeroListBucketResults)
    with (tt, [EvSleep 0; EvRequest (getRequest (listURL Scripted.client "bk" "" 1))],
          FetchBreak (mkListBucketResults [] true 1 "bk" "")).
  cbn [Contents IsTruncated walk negb]. now rewrite IH.
Qed.

(** ** The theorems at concrete inputs *)

Lemma negative_arguments_rejected_before_io_witness :
  -1 < 0
  /\ GetBucket 0 Scripted.client ([] : list (RTResult Scripted.body)) "bk" "" (-1)
     = Some ([], [], Returned ([], Some (errorString "invalid negative maxKeys")))
  /\ GetPartial Scripted.client ([] : list (RTResult Scripted.body)) "bk" "k" (-1) 10
     = ([], [], Returned (None, Some (errorString "invalid negative length"))).
Proof.
  split; [lia|].
  apply (negative_arguments_rejected_before_io (P := Scripted.platform) (RT := Scripted.transport) 0 Scripted.client
           ([] : list (RTResult Scripted.body)) "bk" "" "k" (-1) (-1) 10); lia.
Defined.

Lemma Stat_status_mapping_witness :
  newReq (keyURL Scripted.client "bk" "k")
  = inl (getRequest "http://localhost/bk/k")
  /\ exists r,
      Stat Scripted.client
        [Scripted.status 200 {["Content-Length" := ["1234"]]}] "k" "bk"
      = ([], [EvRequest (set_Method (getRequest "http://localhost/bk/k") "HEAD")],
         Returned r)
      /\ r = (1234, None).
Proof.
  split; [reflexivity|].
  destruct (Stat_status_mapping (P := Scripted.platform) (RT := Scripted.transport) Scripted.client
              [Scripted.status 200 {["Content-Length" := ["1234"]]}] [] "k" "bk"
              (getRequest "http://localhost/bk/k")
              (mkResponse 200 {["Content-Length" := ["1234"]]}
                 (Scripted.mkBody "" zeroListBucketResults None) 0)
              ltac:(reflexivity) ltac:(reflexivity)) as (r & Hrun & _ & H200 & _).
  exists r. split; [exact Hrun|]. exact (proj1 (H200 eq_refl)).
Defined.

Lemma GetPartial_range_and_status_witness :
  exists req r,
    GetPartial Scripted.client [Scripted.status 206 ∅] "bk" "k" 10 5
    = ([], [EvRequest req], Returned r)
    /\ URL req = "http://localhost/bk/k"
    /\ ReqHeader req !! "Range" = Some ["bytes=10-14"]
    /\ r = (Some (Scripted.mkBody "" zeroListBucketResults None), None).
Proof.
  destruct (GetPartial_range_and_status (P := Scripted.platform)
              (RT := Scripted.transport) Scripted.client [Scripted.status 206 ∅]
              "bk" "k" 10 5 ltac:(lia) ltac:(reflexivity))
    as (req & _ & Hurl & Hrange & _ & Hrun).
  destruct (Hrun [] (Scripted.status 206 ∅) eq_refl) as (r & Hcall & _ & Hok).
  exists req, r. split; [exact Hcall|]. split; [exact Hurl|].
  split; [exact (Hrange ltac:(lia) ltac:(lia))|].
  apply (Hok _ eq_refl). right. reflexivity.
Defined.

Lemma two_pages_boundary_duplicate_skipped_witness :
  exists tr,
    GetBucket 2 Scripted.client
      [Scripted.page ["a"; "b"] true 3 "bk" "a"; Scripted.page ["b"; "c"] false 1 "bk" "b"]
      "bk" "a" 3
    = Some ([], tr,
            Returned ([Scripted.item "a"; Scripted.item "b"; Scripted.item "c"], None))
    /\ length (requestsOf tr) = 2%nat.
Proof.
  destruct (two_pages_boundary_duplicate_skipped (P := Scripted.platform) (RT := Scripted.transport) 0 Scripted.client
              [Scripted.page ["a"; "b"] true 3 "bk" "a";
               Scripted.page ["b"; "c"] false 1 "bk" "b"]
              [Scripted.page ["b"; "c"] false 1 "bk" "b"] [] "bk" 3
              "2015-01-01T00:00:00.000Z" "2015-01-01T00:00:00.000Z"
              "2015-01-01T00:00:00.000Z" "2015-01-01T00:00:00.000Z" 1 1 1 1 false
              ltac:(lia) ltac:(left; reflexivity) ltac:(reflexivity) ltac:(reflexivity)
              ltac:(eexists; repeat split; reflexivity)
              ltac:(eexists; repeat split; reflexivity))
    as ((tr & Hrun & Hreqs) & _).
  exists tr. split; [exact Hrun|]. now rewrite Hreqs.
Defined.

Lemma GetBucket_key_order_witness :
  exists tr,
    GetBucket 2 Scripted.client
      [Scripted.page ["a"; "b"] true 3 "bk" "a"; Scripted.page ["b"; "c"] false 1 "bk" "b"]
      "bk" "a" 3
    = Some ([], tr,
            Returned ([Scripted.item "a"; Scripted.item "b"; Scripted.item "c"], None))
    /\ (forall its mk bres, In (EvWalk its mk bres) tr -> orderlyPage "a" its mk bres)
    /\ strictlyIncreasing [Scripted.item "a"; Scripted.item "b"; Scripted.item "c"].
Proof.
  eexists. split; [reflexivity|].
  assert (Hpages : forall its mk bres,
             In (EvWalk its mk bres)
               [EvSleep 0;
                EvRequest (getRequest (listURL Scripted.client "bk" "a" 3));
                EvWalk [] "a"
                  (mkListBucketResults [Scripted.item "a"; Scripted.item "b"] true 3 "bk" "a");
                EvSleep 0;
                EvRequest (getRequest (listURL Scripted.client "bk" "b" 1));
                EvWalk [Scripted.item "a"; Scripted.item "b"] "b"
                  (mkListBucketResults [Scripted.item "b"; Scripted.item "c"] false 1 "bk" "b")] ->
             orderlyPage "a" its mk bres).
  { intros its mk bres Hin. simpl in Hin.
    destruct Hin as [H|[H|[H|[H|[H|[H|[]]]]]]]; try discriminate H;
      injection H as <- <- <-; (split; [|split]);
      [ repeat constructor | repeat constructor | intros Hne; now destruct Hne
      | repeat constructor | repeat constructor
      | intros _; repeat constructor; discriminate ]. }
  split; [exact Hpages|].
  exact (proj2 (proj2 (GetBucket_key_order (P := Scripted.platform) (RT := Scripted.transport) 2 Scripted.client
           [Scripted.page ["a"; "b"] true 3 "bk" "a";
            Scripted.page ["b"; "c"] false 1 "bk" "b"] [] "bk" "a" 3 _ _ ltac:(reflexivity))) Hpages).
Defined.

Lemma key_below_start_fails_at_once_witness :
  exists tr,
    GetBucket 1 Scripted.client [Scripted.page ["a"] true 5 "bk" "b"] "bk" "b" 5
    = Some ([], tr, Returned ([], Some (UnexpectedKey "a" "b")))
    /\ length (requestsOf tr) = 1%nat
    /\ exists pre,
        tr = pre ++ [EvWalk [] "b"
                       (mkListBucketResults [Scripted.item "a"] true 5 "bk" "b")].
Proof.
  eexists. split; [reflexivity|]. split; [reflexivity|].
  refine (proj2 (proj1 (key_below_start_fails_at_once
            (P := Scripted.platform) (RT := Scripted.transport) 1 Scripted.client
            [Scripted.page ["a"] true 5 "bk" "b"] [] [] "bk" "b" 5 _ _ [] "b"
            (mkListBucketResults [Scripted.item "a"] true 5 "bk" "b")
            zeroListBucketResults) ltac:(reflexivity) _ _)).
  - simpl. right. right. left. reflexivity.
  - constructor. reflexivity.
Defined.

(** ** More about the retry loop *)

Section RetryMore.

Context {Body T : Type} {P : Platform Body} {RT : RoundTripper Body T}.

Lemma sleepsOf_app (tr1 tr2 : list event) :
  sleepsOf (tr1 ++ tr2) = sleepsOf tr1 ++ sleepsOf tr2.
Proof. apply omap_app. Qed.

(** Failures of the transport are passed over as long as a pass is left:
    the loop goes on from the state they lead to, [k] passes later. *)
Lemma tryLoop_transport_fails (url_ bucket marker : string) (fetchN : Z) (k : nat)
  (t t' : T) :
  NewRequestErr url_ = None ->
  transportFails (getRequest url_) k t t' ->
  forall (n : nat) (try : Z) (bres : listBucketResults) (t2 : T) (ev2 : list event)
         (r2 : fetchResult),
    try + Z.of_nat k <= maxTries ->
    tryLoop n url_ bucket marker fetchN (try + Z.of_nat k) t' bres = (t2, ev2, r2) ->
    exists ev1,
      tryLoop (k + n) url_ bucket marker fetchN try t bres = (t2, ev1 ++ ev2, r2)
      /\ requestsOf ev1 = replicate k (getRequest url_)
      /\ sleepsOf ev1 = map (fun i => (try + Z.of_nat i - 1) * 100) (seq 0 k).
Proof.
  intros Hreq Hfails. induction Hfails as [t|k t t1 t' err Hrt _ IH];
    intros n try bres t2 ev2 r2 Hle Hloop.
  - exists []. change (Z.of_nat 0) with 0 in Hloop. rewrite Z.add_0_r in Hloop.
    change (0 + n)%nat with n. rewrite Hloop. repeat split.
  - destruct (IH n (try + 1) bres t2 ev2 r2 ltac:(lia)) as (ev1 & Hrun & Hrq & Hsl).
    { rewrite <- Hloop. f_equal. lia. }
    exists ([EvSleep ((try - 1) * 100); EvRequest (getRequest url_)] ++ ev1).
    split; [|split].
    + change (S k + n)%nat with (S (k + n)). cbn [tryLoop].
      rewrite (attempt_transport_error _ _ _ _ _ _ _ _ _ Hreq Hrt).
      destruct (Z.ltb_spec try maxTries); [|lia].
      rewrite Hrun. now rewrite <- app_assoc.
    + rewrite requestsOf_app, Hrq. reflexivity.
    + rewrite sleepsOf_app, Hsl. cbn [sleepsOf omap seq map app].
      rewrite <- seq_shift, map_map. cbn. f_equal; [f_equal; lia|].
      apply map_ext. intros i. f_equal. lia.
Qed.

(** The first bytes of a string are at most as many as asked for. *)
Lemma take_bytes_length (n : Z) (s : string) :
  Z.of_nat (String.length (take_bytes n s)) <= Z.max 0 n.
Proof.
  revert n. induction s as [|c s IH]; intros n; cbn [take_bytes].
  - cbn. lia.
  - destruct (Z.leb_spec n 0); cbn [String.length]; [lia|].
    specialize (IH (n - 1)). lia.
Qed.


End RetryMore.

(** ** More about whole listings *)

Section ListingMore.

Context {Body T : Type} {P : Platform Body} {RT : RoundTripper Body T}.

(** One iteration of the listing loop, spelled out. *)
Lemma listLoop_S (fuel : nat) (c : Client) (bucket startAt : string) (maxKeys : Z)
  (t : T) (items : list Item) (marker : string) :
  listLoop (S fuel) c bucket startAt maxKeys t items marker
  = if Z.of_nat (length items) <? maxKeys then
      let '(t1, ev, r) :=
        tryLoop (Z.to_nat maxTries)
          (listURL c bucket marker (fetchCount maxKeys items)) bucket marker
          (fetchCount maxKeys items) 1 t zeroListBucketResults in
      match r with
      | FetchReturn err => Some (t1, ev, Returned ([], Some err))
      | FetchPanic e => Some (t1, ev, Panicked e)
      | FetchBreak bres =>
          match walk startAt (Contents bres) items marker with
          | WalkFail e =>
              Some (t1, ev ++ [EvWalk items marker bres], Returned ([], Some e))
          | WalkDone items1 marker1 =>
              if negb (IsTruncated bres) then
                Some (t1, ev ++ [EvWalk items marker bres], Returned (items1, None))
              else
                match listLoop fuel c bucket startAt maxKeys t1 items1 marker1 with
                | Some (t2, ev2, out) =>
                    Some (t2, (ev ++ [EvWalk items marker bres]) ++ ev2, out)
                | None => None
                end
          end
      end
    else Some (t, [], Returned (items, None)).
Proof. reflexivity. Qed.

(** Two fetches of the same page that end alike, in the same transport
    state, are followed by the same rest of the listing. *)
Lemma listLoop_after_fetch (fuel : nat) (c : Client) (bucket startAt : string)
  (maxKeys : Z) (ta tb t1 : T) (items : list Item) (marker : string)
  (evA evB : list event) (r : fetchResult) :
  tryLoop (Z.to_nat maxTries) (listURL c bucket marker (fetchCount maxKeys items))
    bucket marker (fetchCount maxKeys items) 1 ta zeroListBucketResults = (t1, evA, r) ->
  tryLoop (Z.to_nat maxTries) (listURL c bucket marker (fetchCount maxKeys items))
    bucket marker (fetchCount maxKeys items) 1 tb zeroListBucketResults = (t1, evB, r) ->
  match listLoop fuel c bucket startAt maxKeys tb items marker with
  | Some (tf, tr, out) =>
      Z.of_nat (length items) < maxKeys ->
      exists rest,
        tr = evB ++ rest
        /\ listLoop fuel c bucket startAt maxKeys ta items marker
           = Some (tf, evA ++ rest, out)
  | None => listLoop fuel c bucket startAt maxKeys ta items marker = None
  end.
Proof.
  intros Ha Hb. destruct fuel as [|fuel].
  - cbn [listLoop]. destruct (Z.ltb_spec (Z.of_nat (length items)) maxKeys);
      [reflexivity|]. intros; lia.
  - rewrite !listLoop_S, Ha, Hb.
    destruct (Z.ltb_spec (Z.of_nat (length items)) maxKeys); [|intros; lia].
    destruct r as [bres|err|e].
    + destruct (walk startAt (Contents bres) items marker) as [items1 marker1|e].
      * destruct (negb (IsTruncated bres)).
        -- intros _. eexists. split; reflexivity.
        -- destruct (listLoop fuel c bucket startAt maxKeys t1 items1 marker1)
             as [[[t2 ev2] out]|]; [|reflexivity].
           intros _. exists ([EvWalk items marker bres] ++ ev2).
           now rewrite !app_assoc.
      * intros _. eexists. split; reflexivity.
    + intros _. exists []. now rewrite !app_nil_r.
    + intros _. exists []. now rewrite !app_nil_r.
Qed.

(** X1: up to four failures of the transport at the first page are retried
    and leave no mark on the result: when the answer after them is a page
    that passes the echo check, the call ends in the same transport state
    with the same items and error as a call that meets that answer at once,
    having asked [k] times more. *)
Theorem transport_failures_are_retried (fuel k : nat) (c : Client)
  (bucket startAt : string) (maxKeys : Z) (t0 tk t1 : T) (page : listBucketResults) :
  (k <= 4)%nat ->
  0 < maxKeys ->
  NewRequestErr (listURL c bucket startAt (fetchCount maxKeys [])) = None ->
  transportFails (getRequest (listURL c bucket startAt (fetchCount maxKeys []))) k t0 tk ->
  answersPage tk (getRequest (listURL c bucket startAt (fetchCount maxKeys []))) t1 page ->
  goodPage page None (fetchCount maxKeys []) bucket startAt ->
  match GetBucket fuel c tk bucket startAt maxKeys with
  | Some (tf, tr, out) =>
      exists tr',
        GetBucket fuel c t0 bucket startAt maxKeys = Some (tf, tr', out)
        /\ requestsOf tr'
           = replicate k (getRequest (listURL c bucket startAt (fetchCount maxKeys [])))
             ++ requestsOf tr
  | None => GetBucket fuel c t0 bucket startAt maxKeys = None
  end.
Proof.
  intros Hk Hmax Hreq Hfails Hans Hgood. unfold GetBucket.
  destruct (Z.ltb_spec maxKeys 0); [lia|].
  pose proof (attempt_good _ _ _ _ 1 _ _ zeroListBucketResults _ Hreq Hans Hgood) as H1.
  assert (Hb : tryLoop (Z.to_nat maxTries)
                 (listURL c bucket startAt (fetchCount maxKeys [])) bucket startAt
                 (fetchCount maxKeys []) 1 tk zeroListBucketResults
               = (t1, [EvSleep 0;
                       EvRequest (getRequest (listURL c bucket startAt (fetchCount maxKeys [])))],
                  FetchBreak page)).
  { change (Z.to_nat maxTries) with 5%nat. cbn [tryLoop]. now rewrite H1. }
  pose proof (attempt_good _ _ _ _ (1 + Z.of_nat k) _ _ zeroListBucketResults _
                Hreq Hans Hgood) as Hk1.
  assert (Hlast : tryLoop (5 - k) (listURL c bucket startAt (fetchCount maxKeys []))
                    bucket startAt (fetchCount maxKeys []) (1 + Z.of_nat k) tk
                    zeroListBucketResults
                  = (t1, [EvSleep ((1 + Z.of_nat k - 1) * 100);
                          EvRequest (getRequest
                                       (listURL c bucket startAt (fetchCount maxKeys [])))],
                     FetchBreak page)).
  { destruct (5 - k)%nat as [|m] eqn:Hm; [lia|]. cbn [tryLoop]. now rewrite Hk1. }
  destruct (tryLoop_transport_fails _ bucket startAt (fetchCount maxKeys []) _ _ _
              Hreq Hfails (5 - k) 1 zeroListBucketResults _ _ _
              ltac:(unfold maxTries; lia) Hlast) as (ev1 & Ha & Hrq & _).
  replace (k + (5 - k))%nat with (Z.to_nat maxTries) in Ha
    by (change (Z.to_nat maxTries) with 5%nat; lia).
  pose proof (listLoop_after_fetch fuel c bucket startAt maxKeys t0 tk t1 [] startAt
                _ _ _ Ha Hb) as Hsame.
  destruct (listLoop fuel c bucket startAt maxKeys tk [] startAt)
    as [[[tf tr] out]|]; [|exact Hsame].
  destruct (Hsame ltac:(cbn; lia)) as (rest & -> & Hrun).
  eexists. split; [exact Hrun|].
  rewrite !requestsOf_app, Hrq, <- app_assoc. reflexivity.
Qed.

(** X2: five failures of the transport in a row at the first page end the
    call: it has asked five times, has slept 0, 100, 200, 300 and 400
    milliseconds before the passes, and returns the fifth error and no
    items. *)
Theorem fifth_transport_failure_is_returned (fuel : nat) (c : Client)
  (bucket startAt : string) (maxKeys : Z) (t0 t4 t5 : T) (err : error) :
  0 < maxKeys ->
  NewRequestErr (listURL c bucket startAt (fetchCount maxKeys [])) = None ->
  transportFails (getRequest (listURL c bucket startAt (fetchCount maxKeys []))) 4 t0 t4 ->
  RoundTrip t4 (getRequest (listURL c bucket startAt (fetchCount maxKeys [])))
  = (t5, RTErr err) ->
  exists tr,
    GetBucket (S fuel) c t0 bucket startAt maxKeys = Some (t5, tr, Returned ([], Some err))
    /\ requestsOf tr
       = replicate 5 (getRequest (listURL c bucket startAt (fetchCount maxKeys [])))
    /\ sleepsOf tr = [0; 100; 200; 300; 400].
Proof.
  intros Hmax Hreq Hfails Hrt. unfold GetBucket.
  destruct (Z.ltb_spec maxKeys 0); [lia|]. rewrite listLoop_S.
  destruct (Z.ltb_spec (Z.of_nat (length (@nil Item))) maxKeys); [|cbn in *; lia].
  assert (Hlast : tryLoop 1 (listURL c bucket startAt (fetchCount maxKeys []))
                    bucket startAt (fetchCount maxKeys []) (1 + Z.of_nat 4) t4
                    zeroListBucketResults
                  = (t5, [EvSleep 400;
                          EvRequest (getRequest
                                       (listURL c bucket startAt (fetchCount maxKeys [])))],
                     FetchReturn err)).
  { cbn [tryLoop]. now rewrite (attempt_transport_error _ _ _ _ _ _ _ _ _ Hreq Hrt). }
  destruct (tryLoop_transport_fails _ bucket startAt (fetchCount maxKeys []) _ _ _
              Hreq Hfails 1 1 zeroListBucketResults _ _ _
              ltac:(unfold maxTries; lia) Hlast) as (ev1 & Ha & Hrq & Hsl).
  change (4 + 1)%nat with (Z.to_nat maxTries) in Ha. rewrite Ha.
  eexists. split; [reflexivity|]. split.
  - rewrite requestsOf_app, Hrq. reflexivity.
  - rewrite sleepsOf_app, Hsl. reflexivity.
Qed.

(** X3: an answer with a status other than 200 and below 500 ends the call
    in whatever pass it arrives: the error is the [*Error] of the operation
    [ListBucket] with that status, the headers of the answer and at most the
    first 2^20 bytes of its body; its provider code is the decoded one, and
    it names an endpoint only for a temporary redirect.  At the first pass
    of the first page the call has asked once and returns no items. *)
Theorem client_error_is_permanent (fuel : nat) (c : Client) (bucket startAt : string)
  (maxKeys try : Z) (t0 t1 : T) (bres : listBucketResults) (res : Response Body) :
  0 < maxKeys ->
  NewRequestErr (listURL c bucket startAt (fetchCount maxKeys [])) = None ->
  RoundTrip t0 (getRequest (listURL c bucket startAt (fetchCount maxKeys [])))
  = (t1, RTOk res) ->
  StatusCode res <> 200 ->
  StatusCode res < 500 ->
  exists e,
    attempt (listURL c bucket startAt (fetchCount maxKeys [])) bucket startAt
      (fetchCount maxKeys []) try t0 bres
    = (t1, [EvSleep ((try - 1) * 100);
            EvRequest (getRequest (listURL c bucket startAt (fetchCount maxKeys [])))],
       TryReturn (MinioError e))
    /\ GetBucket (S fuel) c t0 bucket startAt maxKeys
       = Some (t1, [EvSleep 0;
                    EvRequest (getRequest (listURL c bucket startAt (fetchCount maxKeys [])))],
               Returned ([], Some (MinioError e)))
    /\ Op e = "ListBucket" /\ Code e = StatusCode res /\ ErrHeader e = Header res
    /\ ErrBody e = take_bytes (2 ^ 20) (readAll (RespBody res))
    /\ Z.of_nat (String.length (ErrBody e)) <= 2 ^ 20
    /\ MinioCode e = xCode (decodeXmlError (ErrBody e))
    /\ (UseEndpoint e <> "" ->
        MinioCode e = "TemporaryRedirect"
        /\ UseEndpoint e = xEndpoint (decodeXmlError (ErrBody e))).
Proof.
  intros Hmax Hreq Hrt H200 H500.
  assert (Hatt : forall try' bres',
             attempt (listURL c bucket startAt (fetchCount maxKeys [])) bucket startAt
               (fetchCount maxKeys []) try' t0 bres'
             = (t1, [EvSleep ((try' - 1) * 100);
                     EvRequest (getRequest
                                  (listURL c bucket startAt (fetchCount maxKeys [])))],
                TryReturn (MinioError
                   (parseXML (mkError "ListBucket" (StatusCode res)
                                (take_bytes (2 ^ 20) (readAll (RespBody res)))
                                (Header res) "" ""))))).
  { intros try' bres'. unfold attempt. rewrite (newReq_ok _ Hreq), Hrt.
    destruct (Z.eqb_spec (StatusCode res) 200); [contradiction|]. cbn [negb].
    destruct (Z.ltb_spec (StatusCode res) 500); [reflexivity|lia]. }
  eexists. split; [apply Hatt|]. split.
  { unfold GetBucket. destruct (Z.ltb_spec maxKeys 0); [lia|]. rewrite listLoop_S.
    destruct (Z.ltb_spec (Z.of_nat (length (@nil Item))) maxKeys); [|cbn in *; lia].
    change (Z.to_nat maxTries) with 5%nat. cbn [tryLoop]. now rewrite Hatt. }
  unfold parseXML. cbn [Op Code ErrHeader ErrBody MinioCode UseEndpoint].
  do 4 (split; [reflexivity|]). split; [|split; [reflexivity|]].
  - pose proof (take_bytes_length (2 ^ 20) (readAll (RespBody res))). lia.
  - intros Hne.
    destruct (String.eqb_spec
                (xCode (decodeXmlError (take_bytes (2 ^ 20) (readAll (RespBody res)))))
                "TemporaryRedirect") as [E|E]; [split; [exact E|reflexivity]|].
    now destruct Hne.
Qed.

End ListingMore.

(** ** What a listing asks for and what it returns *)

Section ListingTraces.

Context {Body T : Type} {P : Platform Body} {RT : RoundTripper Body T}.

Lemma walkedContents_app (tr1 tr2 : list event) :
  walkedContents (tr1 ++ tr2) = walkedContents tr1 ++ walkedContents tr2.
Proof. unfold walkedContents. now rewrite omap_app, join_app. Qed.

Lemma walkedContents_fetch (url_ : string) (ev : list event) :
  Forall (fetchEvent url_) ev -> walkedContents ev = [].
Proof.
  induction 1 as [|e ev He _ IH]; [reflexivity|].
  destruct e as [ms|req|its mk bres]; [exact IH|exact IH|destruct He].
Qed.

(** The walk appends to the items, in their order, some of the items of the
    page. *)
Lemma walk_appends_sublist (startAt : string) (contents : list Item) :
  forall items marker items' marker',
    walk startAt contents items marker = WalkDone items' marker' ->
    exists kept, items' = items ++ kept /\ kept `sublist_of` contents.
Proof.
  induction contents as [|it rest IH]; intros items marker items' marker' Hw;
    cbn [walk] in Hw.
  - injection Hw as <- _. exists []. split; [now rewrite app_nil_r|constructor].
  - destruct (walkItem startAt marker it).
    + destruct (IH _ _ _ _ Hw) as (kept & -> & Hsub).
      exists kept. split; [reflexivity|now apply sublist_cons].
    + discriminate.
    + destruct (IH _ _ _ _ Hw) as (kept & -> & Hsub).
      exists (it :: kept). split; [now rewrite <- app_assoc|now apply sublist_skip].
Qed.

(** The marker stays the key of the last item. *)
Lemma walk_resumeMarker (startAt : string) (contents : list Item) :
  forall items marker items' marker',
    marker = resumeMarker startAt items ->
    walk startAt contents items marker = WalkDone items' marker' ->
    marker' = resumeMarker startAt items'.
Proof.
  induction contents as [|it rest IH]; intros items marker items' marker' Hm Hw;
    cbn [walk] in Hw.
  - now injection Hw as <- <-.
  - destruct (walkItem startAt marker it).
    + eapply IH; eauto.
    + discriminate.
    + eapply IH; [|exact Hw]. unfold resumeMarker. now rewrite last_snoc.
Qed.

(** A retry loop that does not end in a panic has asked at least once. *)
Lemma tryLoop_asks (n : nat) (url_ bucket marker : string) (fetchN try : Z) (t t' : T)
  (bres : listBucketResults) (ev : list event) (r : fetchResult) :
  tryLoop (S n) url_ bucket marker fetchN try t bres = (t', ev, r) ->
  (forall e, r <> FetchPanic e) ->
  In (EvRequest (getRequest url_)) ev.
Proof.
  cbn [tryLoop]. unfold attempt at 1.
  destruct (NewRequestErr url_) as [e|] eqn:Hreq.
  - unfold newReq. rewrite Hreq. intros [= _ _ <-] Hno. now destruct (Hno e).
  - rewrite (newReq_ok _ Hreq).
    destruct (RoundTrip t (getRequest url_)) as [t1 [res|err]].
    + assert (Hin : forall ev2,
                 In (EvRequest (getRequest url_))
                   ([EvSleep ((try - 1) * 100); EvRequest (getRequest url_)] ++ ev2))
        by (intros; right; now left).
      destruct (negb (StatusCode res =? 200)).
      * destruct (StatusCode res <? 500); intros [= _ <- _] _; apply (Hin []).
      * destruct (decodeListBucket (RespBody res)) as [page derr].
        destruct (pageError page derr fetchN bucket marker).
        -- destruct (try <? maxTries - 1).
           ++ destruct (tryLoop n url_ bucket marker fetchN (try + 1) t1 page)
                as [[t2 ev2] r2].
              intros [= _ <- _] _. apply Hin.
           ++ intros [= _ <- _] _. apply (Hin []).
        -- intros [= _ <- _] _. apply (Hin []).
    + destruct (try <? maxTries).
      * destruct (tryLoop n url_ bucket marker fetchN (try + 1) t1 bres)
          as [[t2 ev2] r2].
        intros [= _ <- _] _. right. now left.
      * intros [= _ <- _] _. right. now left.
Qed.

(** The items of a listing that succeeds are the items it started from,
    followed by a subsequence of the pages it walked. *)
Lemma listLoop_result_app (fuel : nat) (c : Client) (bucket startAt : string)
  (maxKeys : Z) :
  forall t items marker t' tr final,
    listLoop fuel c bucket startAt maxKeys t items marker
    = Some (t', tr, Returned (final, None)) ->
    exists kept, final = items ++ kept /\ kept `sublist_of` walkedContents tr.
Proof.
  induction fuel as [|fuel IH]; intros t items marker t' tr final Hrun;
    apply listLoop_cases in Hrun
      as [(_ & _ & -> & Hout)|(_ & fuel' & t1 & ev & r & Hf & Htry & Hr)];
    try (injection Hout as <-; exists []; split; [now rewrite app_nil_r|constructor]);
    try discriminate.
  injection Hf as <-.
  pose proof (walkedContents_fetch _ _ (tryLoop_fetchEvents _ _ _ _ _ _ _ _ _ _ _ Htry))
    as Hev.
  destruct r as [bres|err|e0].
  - destruct (walk startAt (Contents bres) items marker) as [items1 marker1|e1] eqn:Hw.
    + destruct (walk_appends_sublist _ _ _ _ _ _ Hw) as (kept1 & -> & Hsub1).
      assert (Hwc : walkedContents (ev ++ [EvWalk items marker bres]) = Contents bres).
      { rewrite walkedContents_app, Hev. cbn. now rewrite app_nil_r. }
      destruct (IsTruncated bres).
      * destruct Hr as (ev2 & Hrec & ->).
        destruct (IH _ _ _ _ _ _ Hrec) as (kept2 & -> & Hsub2).
        exists (kept1 ++ kept2). split; [now rewrite app_assoc|].
        rewrite walkedContents_app, Hwc. now apply sublist_app.
      * destruct Hr as (_ & -> & [= ->]). exists kept1. split; [reflexivity|].
        now rewrite Hwc.
    + destruct Hr as (_ & _ & [=]).
  - destruct Hr as (_ & _ & [=]).
  - destruct Hr as (_ & _ & [=]).
Qed.

(** Where an event of two traces put together lies. *)
Lemma split_at_event {A : Type} (e : A) (pre post : list A) :
  forall l1 l2,
    pre ++ e :: post = l1 ++ l2 ->
    (exists post', l1 = pre ++ e :: post' /\ post = post' ++ l2)
    \/ (exists pre', pre = l1 ++ pre' /\ l2 = pre' ++ e :: post).
Proof.
  induction pre as [|x pre IH]; intros [|y l1] l2 H; cbn in H.
  - right. now exists [].
  - injection H as <- ->. left. now exists l1.
  - right. exists (x :: pre). now split.
  - injection H as <- H. destruct (IH _ _ H) as [(post' & -> & ->)|(pre' & -> & ->)].
    + left. now exists post'.
    + right. now exists pre'.
Qed.

Lemma collected_app (startAt : string) (tr1 tr2 : list event) :
  forall items marker,
    collected startAt (tr1 ++ tr2) items marker
    = collected startAt tr2 (collected startAt tr1 items marker).1
        (collected startAt tr1 items marker).2.
Proof.
  induction tr1 as [|e tr1 IH]; intros items marker; [reflexivity|].
  destruct e as [ms|req|its mk bres]; cbn [app collected]; try apply IH.
  destruct (walk startAt (Contents bres) items marker); apply IH.
Qed.

(** Fetching a page leaves the collected state alone. *)
Lemma collected_fetch (startAt url_ : string) (ev : list event) (items : list Item)
  (marker : string) :
  Forall (fetchEvent url_) ev -> collected startAt ev items marker = (items, marker).
Proof.
  induction 1 as [|e ev He _ IH]; [reflexivity|].
  destruct e as [ms|req|its mk bres]; [exact IH|exact IH|destruct He].
Qed.

Lemma listLoop_states (fuel : nat) (c : Client) (bucket startAt : string)
  (maxKeys : Z) :
  forall t items marker t' tr out pre e post,
    marker = resumeMarker startAt items ->
    listLoop fuel c bucket startAt maxKeys t items marker = Some (t', tr, out) ->
    tr = pre ++ e :: post ->
    exists its,
      collected startAt pre items marker = (its, resumeMarker startAt its)
      /\ eventFits c bucket startAt maxKeys e its (resumeMarker startAt its)
      /\ forall final, out = Returned (final, None) -> its `prefix_of` final.
Proof.
  induction fuel as [|fuel IH]; intros t items marker t' tr out pre e post Hm Hrun Htr;
    pose proof Hrun as Hrun0;
    apply listLoop_cases in Hrun
      as [(_ & _ & -> & _)|(Hlt & fuel' & t1 & ev & r & Hf & Htry & Hr)];
    try (now destruct pre); try discriminate.
  injection Hf as <-.
  pose proof (tryLoop_fetchEvents _ _ _ _ _ _ _ _ _ _ _ Htry) as Hev.
  assert (Hpre : forall final, out = Returned (final, None) -> items `prefix_of` final).
  { intros final ->. destruct (listLoop_result_app _ _ _ _ _ _ _ _ _ _ _ Hrun0)
      as (kept & -> & _). now exists kept. }
  assert (Hfetch : forall post', ev = pre ++ e :: post' ->
            exists its,
              collected startAt pre items marker = (its, resumeMarker startAt its)
              /\ eventFits c bucket startAt maxKeys e its (resumeMarker startAt its)
              /\ forall final, out = Returned (final, None) -> its `prefix_of` final).
  { intros post' Heq. exists items. rewrite Heq in Hev.
    apply Forall_app in Hev as [Hpre0 Hev]. apply Forall_cons in Hev as [He _].
    rewrite (collected_fetch _ _ _ _ _ Hpre0), <- Hm. split; [reflexivity|].
    split; [|exact Hpre].
    destruct e as [ms|req|its mk bres]; [exact I|split; [exact Hlt|exact He]|destruct He]. }
  assert (Hwalk : forall bres post', ev ++ [EvWalk items marker bres] = pre ++ e :: post' ->
            exists its,
              collected startAt pre items marker = (its, resumeMarker startAt its)
              /\ eventFits c bucket startAt maxKeys e its (resumeMarker startAt its)
              /\ forall final, out = Returned (final, None) -> its `prefix_of` final).
  { intros bres post' Heq. symmetry in Heq.
    apply split_at_event in Heq as [(post'' & Heq & _)|(pre' & -> & Heq)];
      [now apply (Hfetch post'')|].
    destruct pre' as [|x pre']; [|now destruct pre'].
    injection Heq as <- _. exists items.
    rewrite app_nil_r, (collected_fetch _ _ _ _ _ Hev), <- Hm.
    split; [reflexivity|]. split; [now split|exact Hpre]. }
  destruct r as [bres|err|e0].
  - destruct (walk startAt (Contents bres) items marker) as [items1 marker1|e1] eqn:Hw.
    + destruct (IsTruncated bres).
      * destruct Hr as (ev2 & Hrec & ->). symmetry in Htr.
        apply split_at_event in Htr as [(post' & Heq & _)|(pre' & -> & Heq)];
          [now apply (Hwalk bres post')|].
        destruct (IH _ _ _ _ _ _ _ _ _ (walk_resumeMarker _ _ _ _ _ _ Hm Hw) Hrec Heq)
          as (its & Hcol & Hfit & Hfin).
        exists its. split; [|split; [exact Hfit|exact Hfin]].
        rewrite !collected_app, (collected_fetch _ _ _ _ _ Hev). cbn [fst snd collected].
        now rewrite Hw.
      * destruct Hr as (_ & -> & _). symmetry in Htr. now apply (Hwalk bres post).
    + destruct Hr as (_ & -> & _). symmetry in Htr. now apply (Hwalk bres post).
  - destruct Hr as (_ & -> & _). now apply (Hfetch post).
  - destruct Hr as (_ & -> & _). now apply (Hfetch post).
Qed.

(** X4: every request of a listing is the [GET] of the page that resumes
    after the items collected from the pages walked before it: its marker
    is the key of the last of them (the start key while there is none), and
    it asks for as many keys as are still wanted, at most
    [MAX_OBJECT_LIST] and at least one.  The state the pages walked before
    an event leave is the state the loop is in: every walk starts from it.
    When the call succeeds the items collected before a request are the
    beginning of what it returns. *)
Theorem page_requests_resume_after_last_key (fuel : nat) (c : Client) (t t' : T)
  (bucket startAt : string) (maxKeys : Z) (tr : list event)
  (out : outcome (list Item * option error)) :
  GetBucket fuel c t bucket startAt maxKeys = Some (t', tr, out) ->
  (forall pre req post,
      tr = pre ++ EvRequest req :: post ->
      let items := (collected startAt pre [] startAt).1 in
      (collected startAt pre [] startAt).2 = resumeMarker startAt items
      /\ req = mkRequest "GET"
                 (listURL c bucket (resumeMarker startAt items) (fetchCount maxKeys items))
                 {["User-Agent" := ["minio"]]}
      /\ 1 <= fetchCount maxKeys items <= MAX_OBJECT_LIST
      /\ fetchCount maxKeys items <= maxKeys - Z.of_nat (length items)
      /\ forall final, out = Returned (final, None) -> items `prefix_of` final)
  /\ forall pre its mk bres post,
      tr = pre ++ EvWalk its mk bres :: post ->
      collected startAt pre [] startAt = (its, mk).
Proof.
  unfold GetBucket. destruct (maxKeys <? 0).
  { intros [= _ <- _]. split; intros pre; intros; now destruct pre. }
  intros Hrun. split.
  - intros pre req post Htr.
    destruct (listLoop_states _ _ _ _ _ _ _ _ _ _ _ _ _ _ eq_refl Hrun Htr)
      as (its & Hcol & (Hlt & ->) & Hfinal).
    change (resumeMarker startAt []) with startAt in Hcol.
    rewrite Hcol. cbn [fst snd]. split; [reflexivity|]. split; [reflexivity|].
    split; [now apply fetchCount_range|]. split; [|exact Hfinal].
    unfold fetchCount, MAX_OBJECT_LIST.
    destruct (Z.ltb_spec 1000 (maxKeys - Z.of_nat (length its))); lia.
  - intros pre its mk bres post Htr.
    destruct (listLoop_states _ _ _ _ _ _ _ _ _ _ _ _ _ _ eq_refl Hrun Htr)
      as (its0 & Hcol & (-> & ->) & _).
    exact Hcol.
Qed.

(** X5: the items a listing returns are items of the pages it walked, in
    the order of the pages and of the items in them: the client drops items
    (those that repeat the marker) and never adds, repeats or reorders any. *)
Theorem listed_items_come_from_the_pages (fuel : nat) (c : Client) (t t' : T)
  (bucket startAt : string) (maxKeys : Z) (tr : list event) (items : list Item) :
  GetBucket fuel c t bucket startAt maxKeys = Some (t', tr, Returned (items, None)) ->
  items `sublist_of` walkedContents tr
  /\ (length items <= length (walkedContents tr))%nat.
Proof.
  unfold GetBucket. destruct (maxKeys <? 0); [discriminate|]. intros Hrun.
  destruct (listLoop_result_app _ _ _ _ _ _ _ _ _ _ _ Hrun) as (kept & -> & Hsub).
  split; [exact Hsub|]. now apply sublist_length.
Qed.



(** A page is walked only while items are still wanted. *)
Lemma listLoop_walks_wanted (fuel : nat) (c : Client) (bucket startAt : string)
  (maxKeys : Z) :
  forall t items marker t' tr out its mk bres,
    listLoop fuel c bucket startAt maxKeys t items marker = Some (t', tr, out) ->
    In (EvWalk its mk bres) tr ->
    Z.of_nat (length its) < maxKeys.
Proof.
  induction fuel as [|fuel IH]; intros t items marker t' tr out its mk bres Hrun Hin;
    apply listLoop_cases in Hrun
      as [(_ & _ & -> & _)|(Hlt & fuel' & t1 & ev & r & Hf & Htry & Hr)];
    try (now inversion Hin); try discriminate.
  injection Hf as <-.
  pose proof (tryLoop_fetchEvents _ _ _ _ _ _ _ _ _ _ _ Htry) as Hev.
  pose proof (fetchEvents_no_walk _ _ its mk bres Hev) as Hnot.
  assert (Hhere : forall bres0,
             EvWalk items marker bres0 = EvWalk its mk bres ->
             Z.of_nat (length its) < maxKeys) by (now intros bres0 [= <- _ _]).
  destruct r as [bres0|err|e0].
  - destruct (walk startAt (Contents bres0) items marker) as [items1 marker1|e1].
    + destruct (IsTruncated bres0).
      * destruct Hr as (ev2 & Hrec & ->).
        apply in_app_or in Hin as [Hin|Hin]; [|eapply IH; eauto].
        apply in_app_or in Hin as [Hin|[Heq|[]]]; [contradiction|eauto].
      * destruct Hr as (_ & -> & _).
        apply in_app_or in Hin as [Hin|[Heq|[]]]; [contradiction|eauto].
    + destruct Hr as (_ & -> & _).
      apply in_app_or in Hin as [Hin|[Heq|[]]]; [contradiction|eauto].
  - destruct Hr as (_ & -> & _). contradiction.
  - destruct Hr as (_ & -> & _). contradiction.
Qed.

(** X8: against a service that never answers with a status of 500 or more,
    every page a listing walks has passed the echo check against the request
    it answers: it names the bucket, repeats the marker the request carried
    and the number of keys asked for. *)
Theorem walked_pages_echo_their_request (fuel : nat) (c : Client) (t t' : T)
  (bucket startAt : string) (maxKeys : Z) (tr : list event)
  (out : outcome (list Item * option error)) (items : list Item) (marker : string)
  (bres : listBucketResults) :
  (forall t0 req t1 res, RoundTrip t0 req = (t1, RTOk res) -> StatusCode res < 500) ->
  GetBucket fuel c t bucket startAt maxKeys = Some (t', tr, out) ->
  In (EvWalk items marker bres) tr ->
  Name bres = bucket /\ Marker bres = marker
  /\ MaxKeys bres = fetchCount maxKeys items
  /\ 1 <= MaxKeys bres <= MAX_OBJECT_LIST.
Proof.
  intros Hno. unfold GetBucket. destruct (maxKeys <? 0); [intros [= _ <- _] []|].
  intros Hrun Hin.
  pose proof (listLoop_walks_checked _ _ _ _ _ Hno _ _ _ _ _ _ _ _ _ Hrun Hin) as Hecho.
  unfold echoMismatch in Hecho.
  apply orb_false_elim in Hecho as [Hecho Hmk].
  apply orb_false_elim in Hecho as [Hmax Hname].
  apply negb_false_iff, Z.eqb_eq in Hmax.
  apply negb_false_iff, String.eqb_eq in Hname, Hmk.
  split; [exact Hname|]. split; [exact Hmk|]. split; [exact Hmax|].
  rewrite Hmax. apply fetchCount_range.
  exact (listLoop_walks_wanted _ _ _ _ _ _ _ _ _ _ _ _ _ _ Hrun Hin).
Qed.

(** X7: a listing that ends in an error returns no items, whatever it had
    collected from earlier pages.  For a negative [maxKeys] the error comes
    before any effect; otherwise the first page at least was asked for. *)
Theorem error_result_has_no_items (fuel : nat) (c : Client) (t t' : T)
  (bucket startAt : string) (maxKeys : Z) (tr : list event) (items : list Item)
  (e : error) :
  GetBucket fuel c t bucket startAt maxKeys = Some (t', tr, Returned (items, Some e)) ->
  items = []
  /\ if maxKeys <? 0 then tr = [] /\ t' = t
     else In (EvRequest (getRequest (listURL c bucket startAt (fetchCount maxKeys []))))
            tr.
Proof.
  intros Hrun. split; [exact (GetBucket_error_no_items _ _ _ _ _ _ _ _ _ _ Hrun)|].
  unfold GetBucket in Hrun. destruct (maxKeys <? 0); [now injection Hrun as <- <-|].
  apply listLoop_cases in Hrun
    as [(_ & _ & _ & [=])|(_ & fuel' & t1 & ev & r & _ & Htry & Hr)].
  change (Z.to_nat maxTries) with 5%nat in Htry.
  assert (Hev : (forall e0, r <> FetchPanic e0) ->
                In (EvRequest (getRequest (listURL c bucket startAt
                                             (fetchCount maxKeys [])))) ev)
    by exact (tryLoop_asks _ _ _ _ _ _ _ _ _ _ _ Htry).
  destruct r as [bres|err|e0].
  - specialize (Hev ltac:(discriminate)).
    destruct (walk startAt (Contents bres) [] startAt) as [items1 marker1|e1].
    + destruct (IsTruncated bres).
      * destruct Hr as (ev2 & _ & ->). now rewrite <- app_assoc; apply in_or_app; left.
      * destruct Hr as (_ & -> & _). now apply in_or_app; left.
    + destruct Hr as (_ & -> & _). now apply in_or_app; left.
  - destruct Hr as (_ & -> & _). apply Hev. discriminate.
  - destruct Hr as (_ & _ & [=]).
Qed.

Lemma tryLoop_good_at_once (n : nat) (url_ bucket marker : string) (fetchN try : Z)
  (t t' : T) (bres page : listBucketResults) :
  NewRequestErr url_ = None ->
  answersPage t (getRequest url_) t' page ->
  goodPage page None fetchN bucket marker ->
  tryLoop (S n) url_ bucket marker fetchN try t bres
  = (t', [EvSleep ((try - 1) * 100); EvRequest (getRequest url_)], FetchBreak page).
Proof.
  intros Hreq Hans Hgood. cbn [tryLoop].
  now rewrite (attempt_good _ _ _ _ _ _ _ _ _ Hreq Hans Hgood).
Qed.

(** X9: the listing loop has no bound of its own.  Against a service that
    answers the request for the first page, in every state, with an empty
    page that passes the echo check and says it is truncated, the loop asks
    for the same page for ever: no amount of fuel brings a result. *)
Theorem empty_truncated_pages_are_asked_for_ever (c : Client) (bucket startAt : string)
  (maxKeys : Z) :
  0 < maxKeys ->
  NewRequestErr (listURL c bucket startAt (fetchCount maxKeys [])) = None ->
  (forall t, exists t' page,
      answersPage t (getRequest (listURL c bucket startAt (fetchCount maxKeys []))) t' page
      /\ goodPage page None (fetchCount maxKeys []) bucket startAt
      /\ Contents page = [] /\ IsTruncated page = true) ->
  forall fuel t, GetBucket fuel c t bucket startAt maxKeys = None.
Proof.
  intros Hpos Hreq Hsrv fuel. unfold GetBucket.
  destruct (Z.ltb_spec maxKeys 0); [lia|].
  induction fuel as [|fuel IH]; intros t.
  - cbn [listLoop]. destruct (Z.ltb_spec (Z.of_nat (length (@nil Item))) maxKeys);
      [reflexivity|cbn in *; lia].
  - destruct (Hsrv t) as (t' & page & Hans & Hgood & Hcont & Htrunc).
    rewrite listLoop_S.
    destruct (Z.ltb_spec (Z.of_nat (length (@nil Item))) maxKeys); [|cbn in *; lia].
    change (Z.to_nat maxTries) with 5%nat.
    rewrite (tryLoop_good_at_once _ _ _ _ _ _ _ _ _ _ Hreq Hans Hgood).
    rewrite Hcont, Htrunc. cbn [walk negb]. now rewrite IH.
Qed.

End ListingTraces.

(** ** The operations on one object or one bucket *)

Lemma digit_range (c : ascii) (d : Z) : strconv.digit c = Some d -> 0 <= d <= 9.
Proof.
  unfold strconv.digit.
  destruct (Z.leb_spec 48 (Z.of_N (N_of_ascii c)));
    destruct (Z.leb_spec (Z.of_N (N_of_ascii c)) 57); cbn; intros [= <-]; lia.
Qed.

Lemma parseUintLoop_nonneg (s : string) :
  forall n, 0 <= n -> 0 <= fst (strconv.parseUintLoop s n).
Proof.
  induction s as [|c s IH]; intros n Hn; cbn [strconv.parseUintLoop]; [exact Hn|].
  destruct (strconv.digit c) as [d|] eqn:Hd; [|cbn; lia].
  apply digit_range in Hd.
  destruct (strconv.cutoff <=? n); [cbn; unfold strconv.maxUint64; lia|].
  destruct (strconv.maxUint64 <? n * 10 + d); [cbn; unfold strconv.maxUint64; lia|].
  apply IH. lia.
Qed.

(** What [ParseInt] returns without an error is an [int64], and was read
    from a string that is not empty. *)
Lemma ParseInt_in_int64 (s : string) (n : Z) :
  strconv.ParseInt s = (n, None) -> in_int64 n /\ s <> "".
Proof.
  destruct s as [|c rest]; [discriminate|]. intros H. split; [|discriminate].
  unfold strconv.ParseInt in H.
  destruct (if Ascii.eqb c "+" then (false, rest)
            else if Ascii.eqb c "-" then (true, rest) else (false, String c rest))
    as [neg s].
  assert (Hnn : 0 <= fst (strconv.ParseUint s)).
  { unfold strconv.ParseUint. destruct s; [cbn; lia|].
    apply parseUintLoop_nonneg. lia. }
  destruct (strconv.ParseUint s) as [un [[]|]]; cbn [fst] in Hnn; try discriminate H.
  - destruct neg; cbn [negb andb] in H.
    + destruct (Z.ltb_spec (2 ^ 63) un); [discriminate H|].
      injection H as <-. unfold in_int64. lia.
    + destruct (Z.leb_spec (2 ^ 63) un); [discriminate H|].
      injection H as <-. unfold in_int64. lia.
  - destruct neg; cbn [negb andb] in H.
    + destruct (Z.ltb_spec (2 ^ 63) un); [discriminate H|].
      injection H as <-. unfold in_int64. lia.
    + destruct (Z.leb_spec (2 ^ 63) un); [discriminate H|].
      injection H as <-. unfold in_int64. lia.
Qed.

Section ObjectOperations.

Context {Body T : Type} {P : Platform Body} {RT : RoundTripper Body T}
  {D : Documents Body}.

(** X12: [Stat] reports a size without an error only when the answer to its
    one [HEAD] request has status 200 and carries a [Content-Length] header
    that [strconv.ParseInt] accepts; the size is then that number, an
    [int64] that may be negative.  A 200 answer without the header is an
    error, not a size of 0. *)
Theorem Stat_size_comes_from_Content_Length (c : Client) (t t' : T)
  (key bucket : string) (tr : list event) (size : Z) :
  Stat c t key bucket = (t', tr, Returned (size, None)) ->
  exists res,
    tr = [EvRequest (mkRequest "HEAD" (keyURL c bucket key) {["User-Agent" := ["minio"]]})]
    /\ RoundTrip t (mkRequest "HEAD" (keyURL c bucket key) {["User-Agent" := ["minio"]]})
       = (t', RTOk res)
    /\ StatusCode res = 200
    /\ (exists v rest, Header res !! "Content-Length" = Some (v :: rest)
                       /\ v <> "" /\ strconv.ParseInt v = (size, None))
    /\ in_int64 size.
Proof.
  unfold Stat, newReq. destruct (NewRequestErr (keyURL c bucket key)); [discriminate|].
  cbn [set_Method URL ReqHeader].
  destruct (RoundTrip t _) as [t1 [res|err]] eqn:Hrt; [|discriminate].
  intros [= <- <- Hr]. exists res. split; [reflexivity|]. split; [reflexivity|].
  destruct (Z.eqb_spec (StatusCode res) 404); [discriminate|].
  destruct (Z.eqb_spec (StatusCode res) 200) as [E2|]; [|discriminate].
  split; [exact E2|].
  destruct (ParseInt_in_int64 _ _ Hr) as [Hrange Hne]. split; [|exact Hrange].
  unfold Header_Get in Hr, Hne.
  destruct (Header res !! "Content-Length") as [[|v rest]|]; try (now destruct Hne).
  now exists v, rest.
Qed.

(** The one request of [GetPartial] and what the call makes of its
    outcome. *)
Lemma GetPartial_run (c : Client) (t : T) (bucket key : string) (offset length : Z) :
  0 <= offset ->
  NewRequestErr (keyURL c bucket key) = None ->
  exists req',
    URL req' = keyURL c bucket key
    /\ ReqHeader req' !! "Range" <> None
    /\ forall t2 ans,
        RoundTrip t req' = (t2, ans) ->
        GetPartial c t bucket key offset length
        = (t2, [EvRequest req'],
           Returned
             match ans with
             | RTErr err => (None, Some err)
             | RTOk res =>
                 if (StatusCode res =? 200) || (StatusCode res =? 206)
                 then (Some (RespBody res), None)
                 else if StatusCode res =? 404 then (None, Some ErrNotExist)
                 else (None, Some (errorString ("Minio HTTP error on GET: "
                                                +:+ itoa (StatusCode res))))
             end).
Proof.
  intros Ho Hreq. unfold GetPartial.
  destruct (Z.ltb_spec offset 0); [lia|]. rewrite (newReq_ok _ Hreq).
  match goal with |- context [RoundTrip t ?r] => exists r end.
  split; [destruct (0 <=? length); reflexivity|].
  split.
  { unfold Header_Set. change (textproto.CanonicalMIMEHeaderKey "Range") with "Range".
    destruct (0 <=? length); cbn [ReqHeader]; now rewrite lookup_insert_eq. }
  intros t2 ans ->. now destruct ans.
Qed.

(** X13: [Get] hands out a body only for status 200, with the
    [ContentLength] of the answer as the size; every other status gives no
    body, size 0 and an error, [os.ErrNotExist] exactly for 404.  When the
    request of [GetPartial], which differs by its [Range] header, draws the
    same answer, [GetPartial] returns the same body and error, except at
    status 206, which it accepts and [Get] rejects. *)
Theorem Get_and_GetPartial_differ_only_at_206 (c : Client) (t t1 : T)
  (bucket key : string) (offset length : Z) (res : Response Body) :
  0 <= offset ->
  NewRequestErr (keyURL c bucket key) = None ->
  RoundTrip t (getRequest (keyURL c bucket key)) = (t1, RTOk res) ->
  exists body size err,
    Get c t bucket key
    = (t1, [EvRequest (getRequest (keyURL c bucket key))], Returned (body, size, err))
    /\ (err = None <-> StatusCode res = 200)
    /\ (err = None -> body = Some (RespBody res) /\ size = ContentLength res)
    /\ (err <> None -> body = None /\ size = 0)
    /\ (err = Some ErrNotExist <-> StatusCode res = 404)
    /\ exists req',
        URL req' = keyURL c bucket key
        /\ ReqHeader req' !! "Range" <> None
        /\ forall t2 ans,
            RoundTrip t req' = (t2, ans) ->
            exists r,
              GetPartial c t bucket key offset length
              = (t2, [EvRequest req'], Returned r)
              /\ (ans = RTOk res ->
                  r = if StatusCode res =? 206 then (Some (RespBody res), None)
                      else (body, err)).
Proof.
  intros Ho Hreq Hrt.
  destruct (GetPartial_run c t bucket key offset length Ho Hreq)
    as (req' & Hurl & Hrange & Hrun).
  unfold Get. rewrite (newReq_ok _ Hreq), Hrt.
  destruct (Z.eqb_spec (StatusCode res) 200) as [E2|E2];
    destruct (Z.eqb_spec (StatusCode res) 206) as [E6|E6];
    destruct (Z.eqb_spec (StatusCode res) 404) as [E4|E4];
    do 3 eexists; (split; [reflexivity|]);
    (split; [split; intros; try congruence; try lia|]);
    (split; [intros; split; try congruence; try reflexivity|]);
    (split; [intros; split; try congruence; try reflexivity|]);
    (split; [split; intros; try congruence; try lia|]);
    exists req'; (split; [exact Hurl|]); (split; [exact Hrange|]);
    intros t2 ans Hans; eexists; (split; [exact (Hrun _ _ Hans)|]);
    intros ->; cbn beta iota;
    repeat match goal with
           | |- context [StatusCode res =? ?n] =>
               destruct (Z.eqb_spec (StatusCode res) n); try lia; try congruence
           end; reflexivity.
Qed.

(** X16: [Buckets] asks once for the root of the host and returns buckets
    only when the answer has status 200 and the decoder was content; any
    error comes with no bucket, also when the decoder had read some. *)
Theorem Buckets_come_from_a_decoded_200 (c : Client) (t t' : T) (tr : list event)
  (bs : list Bucket) (err : option error) :
  Buckets c t = (t', tr, Returned (bs, err)) ->
  tr = [EvRequest (getRequest ("http://" +:+ hostname c +:+ "/"))]
  /\ (err <> None -> bs = [])
  /\ (err = None ->
      exists res,
        RoundTrip t (getRequest ("http://" +:+ hostname c +:+ "/")) = (t', RTOk res)
        /\ StatusCode res = 200
        /\ decodeAllMyBuckets (RespBody res) = (bs, None)).
Proof.
  unfold Buckets, newReq.
  destruct (NewRequestErr ("http://" +:+ hostname c +:+ "/")); [discriminate|].
  fold (getRequest ("http://" +:+ hostname c +:+ "/")).
  destruct (RoundTrip t _) as [t1 [res|e]] eqn:Hrt.
  - destruct (Z.eqb_spec (StatusCode res) 200) as [E2|E2]; cbn [negb].
    + unfold parseListAllMyBuckets.
      destruct (decodeAllMyBuckets (RespBody res)) as [bs0 [e0|]] eqn:Hdec;
        intros [= <- <- <- <-]; (split; [reflexivity|]); split; try congruence.
      intros _. now exists res.
    + intros [= <- <- <- <-]. split; [reflexivity|]. split; congruence.
  - intros [= <- <- <- <-]. split; [reflexivity|]. split; congruence.
Qed.

(** X14: [PutBucket] sends one [PUT] to the URL of the bucket and returns no
    error exactly when the transport answers with status 200; an answer
    with another status of success, such as 201 or 204, is an error. *)
Theorem PutBucket_succeeds_only_on_200 (c : Client) (t t' : T) (bucket : string)
  (tr : list event) (err : option error) :
  PutBucket c t bucket = (t', tr, Returned err) ->
  exists r,
    tr = [EvRequest (mkRequest "PUT" (bucketURL c bucket) {["User-Agent" := ["minio"]]})]
    /\ RoundTrip t (mkRequest "PUT" (bucketURL c bucket) {["User-Agent" := ["minio"]]})
       = (t', r)
    /\ (err = None <-> exists res, r = RTOk res /\ StatusCode res = 200)
    /\ forall res, r = RTOk res -> StatusCode res <> 200 ->
         err = Some (errorString ("Got response code " +:+ itoa (StatusCode res)
                                  +:+ " from minio")).
Proof.
  unfold PutBucket, newReq.
  destruct (NewRequestErr (bucketURL c bucket)); [discriminate|].
  cbn [set_Method URL ReqHeader].
  destruct (RoundTrip t _) as [t1 [res|e]] eqn:Hrt; intros [= <- <- <-];
    eexists; (split; [reflexivity|]); (split; [reflexivity|]).
  - destruct (Z.eqb_spec (StatusCode res) 200) as [E2|E2]; cbn [negb]; split.
    + split; [intros _; now exists res|reflexivity].
    + intros res0 [= <-] Hne. now destruct Hne.
    + split; [discriminate|]. intros (res0 & [= <-] & E). now destruct E2.
    + now intros res0 [= <-] _.
  - split; [split; [discriminate|now intros (res0 & [=] & _)]|]. intros res0 [=].
Qed.

End ObjectOperations.

(** ** The [Content-MD5] header of [Put] *)

Lemma EncodeToString_three (a b c : ascii) (rest : string) :
  base64.EncodeToString (String a (String b (String c rest)))
  = let val := (N_of_ascii a * 65536 + N_of_ascii b * 256 + N_of_ascii c)%N in
    String (base64.encodeChar (val / 262144 mod 64))
      (String (base64.encodeChar (val / 4096 mod 64))
         (String (base64.encodeChar (val / 64 mod 64))
            (String (base64.encodeChar (val mod 64)) (base64.EncodeToString rest)))).
Proof. reflexivity. Qed.

(** Three bytes give four characters, and the rest is padded to four. *)
Lemma EncodeToString_length (src : string) :
  String.length (base64.EncodeToString src) = (4 * ((String.length src + 2) / 3))%nat.
Proof.
  assert (H : forall s,
             String.length (base64.EncodeToString s)
             = (4 * ((String.length s + 2) / 3))%nat
             /\ (forall a, String.length (base64.EncodeToString (String a s))
                           = (4 * ((String.length (String a s) + 2) / 3))%nat)
             /\ (forall a b, String.length (base64.EncodeToString (String a (String b s)))
                             = (4 * ((String.length (String a (String b s)) + 2) / 3))%nat)).
  { induction s as [|c s (IH0 & IH1 & IH2)].
    - repeat split.
    - split; [apply IH1|]. split; [intros a; apply IH2|]. intros a b.
      rewrite EncodeToString_three. cbv zeta. cbn [String.length]. rewrite IH0.
      replace (S (S (S (String.length s))) + 2)%nat
        with ((String.length s + 2) + 1 * 3)%nat by lia.
      rewrite Nat.div_add by lia. lia. }
  apply H.
Qed.

Section Uploads.

Context {Body R T : Type} {P : Platform Body} {RT : RoundTripper Body T}
  {U : Uploader Body R T}.

(** X15: [Put] sends one [PUT] to the URL of the key, with the size and the
    body it was given, and returns no error exactly when the transport
    answers with status 200.  [Header.Set] files the digest under the
    canonical form of [Content-MD5], which is [Content-Md5]: the request
    carries that header exactly when a hash was given, with the padded
    base64 form of its sum, of [4 * ceil(n/3)] characters for a sum of [n]
    bytes, and has nothing under the key [Content-MD5] as the source spells
    it. *)
Theorem Put_sends_the_digest_and_succeeds_only_on_200 (c : Client) (t t' : T)
  (bucket key : string) (md5 : option string) (size : Z) (body : R)
  (tr : list event) (err : option error) :
  Put c t bucket key md5 size body = (t', tr, Returned err) ->
  exists req r,
    tr = [EvRequest req]
    /\ Method req = "PUT" /\ URL req = keyURL c bucket key
    /\ ReqHeader req !! "User-Agent" = Some ["minio"]
    /\ ReqHeader req !! "Content-Md5"
       = (fun sum => [base64.EncodeToString sum]) <$> md5
    /\ ReqHeader req !! "Content-MD5" = None
    /\ (forall sum, md5 = Some sum ->
          String.length (base64.EncodeToString sum)
          = (4 * ((String.length sum + 2) / 3))%nat)
    /\ RoundTripUpload t (mkUpload req size body) = (t', r)
    /\ (err = None <-> exists res, r = RTOk res /\ StatusCode res = 200).
Proof.
  unfold Put, newReq.
  destruct (NewRequestErr (keyURL c bucket key)); [discriminate|].
  cbn [set_Method URL ReqHeader].
  match goal with |- context [RoundTripUpload t (mkUpload ?r _ _)] =>
    set (req := r) end.
  destruct (RoundTripUpload t (mkUpload req size body)) as [t1 r] eqn:Hrt.
  intros Hrun. exists req, r.
  assert (Hreq : Method req = "PUT" /\ URL req = keyURL c bucket key
                 /\ ReqHeader req !! "User-Agent" = Some ["minio"]
                 /\ ReqHeader req !! "Content-Md5"
                    = (fun sum => [base64.EncodeToString sum]) <$> md5
                 /\ ReqHeader req !! "Content-MD5" = None).
  { subst req. unfold Header_Set.
    change (textproto.CanonicalMIMEHeaderKey "Content-MD5") with "Content-Md5".
    destruct md5 as [sum|]; cbn [Method URL ReqHeader fmap option_fmap option_map];
      repeat split; reflexivity. }
  destruct Hreq as (Hm & Hu & Hua & Hmd & Hraw).
  assert (Hlen : forall sum, md5 = Some sum ->
            String.length (base64.EncodeToString sum)
            = (4 * ((String.length sum + 2) / 3))%nat)
    by (intros sum _; apply EncodeToString_length).
  destruct r as [res|e]; injection Hrun as <- <- <-;
    (split; [reflexivity|]); repeat (split; [assumption|]).
  - destruct (Z.eqb_spec (StatusCode res) 200) as [E2|E2]; cbn [negb].
    + split; [intros _; now exists res|reflexivity].
    + split; [discriminate|]. intros (res0 & [= <-] & E). now destruct E2.
  - split; [discriminate|now intros (res0 & [=] & _)].
Qed.

End Uploads.

(** ** URLs that [http.NewRequest] rejects *)

Section RejectedURLs.

Context {Body R T : Type} {P : Platform Body} {RT : RoundTripper Body T}
  {D : Documents Body} {U : Uploader Body R T}.


End RejectedURLs.

(** ** The location of a bucket *)

Lemma append_cons (x : ascii) (a b : string) : String x a +:+ b = String x (a +:+ b).
Proof. reflexivity. Qed.

Lemma append_inv_head (a b d : string) : a +:+ b = a +:+ d -> b = d.
Proof.
  induction a as [|x a IH]; [now intros H|].
  rewrite !append_cons. intros [= H]. now apply IH.
Qed.

Lemma append_inv_tail (a b d : string) : a +:+ d = b +:+ d -> a = b.
Proof.
  assert (Hlen : forall u v, String.length (u +:+ v)
                             = (String.length u + String.length v)%nat).
  { intros u v. induction u as [|x u IH]; [reflexivity|].
    rewrite append_cons. cbn [String.length]. now rewrite IH. }
  revert b. induction a as [|x a IH]; intros [|y b] H.
  - reflexivity.
  - apply (f_equal String.length) in H. rewrite !Hlen in H.
    cbn [String.length] in H. lia.
  - apply (f_equal String.length) in H. rewrite !Hlen in H.
    cbn [String.length] in H. lia.
  - rewrite !append_cons in H. injection H as -> H. f_equal. now apply IH.
Qed.

(** X17: [BucketLocation] looks at the body of the answer only.  Two
    answers with the same body give the same result whatever their status
    and headers, and whatever host the client is configured with; a result
    without an error is never the empty string, and the host it names
    determines the location the service sent. *)
Theorem BucketLocation_looks_only_at_the_body {Body T : Type} {P : Platform Body}
  {D : Documents Body} (RT1 RT2 : RoundTripper Body T) (c1 c2 : Client) (t t1 t2 : T)
  (bucket host : string) (res1 res2 : Response Body) :
  NewRequestErr (bucketLocationURL bucket host) = None ->
  @RoundTrip _ _ RT1 t (getRequest (bucketLocationURL bucket host)) = (t1, RTOk res1) ->
  @RoundTrip _ _ RT2 t (getRequest (bucketLocationURL bucket host)) = (t2, RTOk res2) ->
  RespBody res1 = RespBody res2 ->
  exists location err,
    BucketLocation (RT := RT1) c1 t bucket host
    = (t1, [EvRequest (getRequest (bucketLocationURL bucket host))],
       Returned (location, err))
    /\ BucketLocation (RT := RT2) c2 t bucket host
       = (t2, [EvRequest (getRequest (bucketLocationURL bucket host))],
          Returned (location, err))
    /\ (err = None -> location <> "")
    /\ (err <> None -> location = "")
    /\ forall loc, decodeLocationConstraint (RespBody res1) = (loc, None) ->
         (loc = "" -> location = "localhost")
         /\ (loc <> "" -> location = "minio-" +:+ loc +:+ "." +:+ host)
         /\ forall loc', "minio-" +:+ loc' +:+ "." +:+ host = location -> loc' = loc.
Proof.
  intros Hreq H1 H2 Hbody. unfold BucketLocation.
  rewrite (newReq_ok _ Hreq), H1, H2, <- Hbody.
  destruct (decodeLocationConstraint (RespBody res1)) as [loc [e|]].
  - exists "", (Some e). repeat split; try congruence.
  - destruct (String.eqb_spec loc "") as [->|Hne].
    + exists "localhost", None. repeat split; try congruence; try discriminate.
      all: intros loc [= <-]; try discriminate.
    + exists ("minio-" +:+ loc +:+ "." +:+ host), None.
      repeat split; try congruence; try discriminate.
      injection H as <-. intros loc' H. apply append_inv_head in H.
      rewrite <- !append_assoc in H. apply append_inv_tail in H.
      now apply append_inv_tail in H.
Qed.

(** ** The text of an [Error] *)

Lemma prefix_spec (s b : string) :
  String.prefix s b = true <-> exists post, b = s +:+ post.
Proof.
  revert b. induction s as [|x s IH]; intros b.
  - split; [intros _; now exists b|now destruct b].
  - destruct b as [|y b]; cbn [String.prefix].
    + split; [discriminate|]. now intros (post & [=]).
    + destruct (ascii_dec x y) as [->|Hne].
      * rewrite IH. split; intros (post & H); exists post.
        -- now rewrite append_cons, H.
        -- rewrite append_cons in H. now injection H.
      * split; [discriminate|]. intros (post & H).
        rewrite append_cons in H. injection H as H _. now destruct Hne.
Qed.

(** [bytesContains] finds the slice wherever it lies. *)
Lemma bytesContains_spec (b s : string) :
  bytesContains b s = true <-> exists pre post, b = pre +:+ s +:+ post.
Proof.
  induction b as [|y b IH]; cbn [bytesContains]; rewrite orb_true_iff, prefix_spec.
  - split.
    + intros [(post & H)|H]; [|discriminate H]. now exists "", post.
    + intros (pre & post & H). left. destruct pre as [|x pre]; [|discriminate H].
      now exists post.
  - rewrite IH. split.
    + intros [(post & H)|(pre & post & H)]; [now exists "", post|].
      exists (String y pre), post. now rewrite append_cons, H.
    + intros (pre & post & H). destruct pre as [|x pre].
      * left. now exists post.
      * right. rewrite append_cons in H. injection H as _ H. now exists pre, post.
Qed.

(** X18: the text of an [Error] is [minio.<Op>: status <Code>], followed by
    the body of the answer exactly when the body holds the tag [<Error>]
    somewhere; a body without the tag is never shown. *)
Theorem Error_text_shows_only_a_tagged_body (e : Error) :
  exists rest,
    Error_Error e = "minio." +:+ Op e +:+ ": status " +:+ itoa (Code e) +:+ rest
    /\ ((exists pre post, ErrBody e = pre +:+ "<Error>" +:+ post) ->
        rest = ": " +:+ ErrBody e)
    /\ ((forall pre post, ErrBody e <> pre +:+ "<Error>" +:+ post) -> rest = "").
Proof.
  unfold Error_Error.
  destruct (bytesContains (ErrBody e) "<Error>") eqn:Hc.
  - exists (": " +:+ ErrBody e). split; [reflexivity|]. split; [reflexivity|].
    intros Hno. apply bytesContains_spec in Hc as (pre & post & H).
    now destruct (Hno pre post).
  - exists "". split; [now rewrite append_nil_r|]. split; [|reflexivity].
    intros Hex. apply bytesContains_spec in Hex. congruence.
Qed.

(** ** The URLs of keys *)

(** X19: bucket and key go into the URL as they are, so the URL of a key
    determines the key once the bucket is known, but not where the bucket
    ends: a slash in the bucket name moves the border.  The empty key has
    the URL of the bucket itself, and a client made without a host name asks
    [localhost]. *)
Theorem keyURL_does_not_separate_bucket_and_key (c : Client) (b k1 k2 : string) :
  (forall k k', keyURL c b k = keyURL c b k' -> k = k')
  /\ keyURL c (b +:+ "/" +:+ k1) k2 = keyURL c b (k1 +:+ "/" +:+ k2)
  /\ keyURL c b "" = bucketURL c b
  /\ keyURL (NewMinioClient "") b k1 = keyURL (NewMinioClient "localhost") b k1.
Proof.
  split; [|split; [|split]].
  - unfold keyURL. intros k k' H. now apply append_inv_head in H.
  - unfold keyURL, bucketURL. now rewrite !append_assoc.
  - unfold keyURL. apply append_nil_r.
  - reflexivity.
Qed.

(** ** The target path of the put command *)

(** X21: [getUrlWithSeparator] returns a path that starts with a slash: the
    path itself when it starts with one, else the path behind one slash; it
    changes nothing when applied again. *)
Theorem getUrlWithSeparator_leads_with_one_slash (v : string) :
  String.prefix "/" (cmd.getUrlWithSeparator v) = true
  /\ cmd.getUrlWithSeparator (cmd.getUrlWithSeparator v) = cmd.getUrlWithSeparator v
  /\ (cmd.getUrlWithSeparator v = v <-> String.prefix "/" v = true)
  /\ (cmd.getUrlWithSeparator v = v \/ cmd.getUrlWithSeparator v = "/" +:+ v).
Proof.
  unfold cmd.getUrlWithSeparator.
  destruct (String.prefix "/" v) eqn:Hp; cbn [negb].
  - rewrite Hp. cbn [negb]. repeat split; auto.
  - change (String.prefix "/" ("/" +:+ v)) with (String.prefix "" v).
    replace (String.prefix "" v) with true by (now destruct v). cbn [negb].
    repeat split; auto; try discriminate.
    intros H. apply (f_equal String.length) in H.
    change (String.length ("/" +:+ v)) with (S (String.length v)) in H. lia.
Qed.

(** X22: the full path is the alias, the bucket and the base path of the
    session followed by the path behind exactly one added or kept leading
    slash; the paths [.], the empty path and [/] all name the base itself,
    and a leading slash on the path makes no difference. *)
Theorem getFullPath_of_relative_and_absolute_paths (auth : cmd.AuthData) (path : string) :
  cmd.getFullPath auth "." = cmd.getFullPath auth "/"
  /\ cmd.getFullPath auth "" = cmd.getFullPath auth "/"
  /\ cmd.getFullPath auth "/"
     = "gpumall/" +:+ cmd.Bucket auth +:+ cmd.BasePath auth +:+ "/"
  /\ (String.prefix "/" path = false -> path <> "." ->
      cmd.getFullPath auth ("/" +:+ path) = cmd.getFullPath auth path
      /\ cmd.getFullPath auth path
         = "gpumall/" +:+ cmd.Bucket auth +:+ cmd.BasePath auth +:+ "/" +:+ path).
Proof.
  assert (Hpre : forall s, cmd.getPrefix auth +:+ s
                           = "gpumall/" +:+ cmd.Bucket auth +:+ cmd.BasePath auth +:+ s).
  { intros s. unfold cmd.getPrefix, cmd.AuthAlias. now rewrite !append_assoc. }
  split; [reflexivity|]. split; [reflexivity|]. split; [apply Hpre|].
  intros Hp Hne. unfold cmd.getFullPath.
  destruct (String.eqb_spec path ".") as [E|_]; [now destruct Hne|].
  destruct (String.eqb_spec ("/" +:+ path) ".") as [E|_]; [discriminate E|].
  unfold cmd.getUrlWithSeparator. rewrite Hp.
  change (String.prefix "/" ("/" +:+ path)) with (String.prefix "" path).
  replace (String.prefix "" path) with true by (now destruct path). cbn [negb].
  split; [reflexivity|apply Hpre].
Qed.

(** ** What the URL of a page says about the request *)

Lemma hexValue_upperhex (n : N) : (n < 16)%N -> hexValue (url.upperhex n) = n.
Proof.
  intros Hn. destruct n as [|p]; [reflexivity|].
  do 4 (try (destruct p as [p|p|]; try reflexivity)); lia.
Qed.

(** The two digits of an escape determine the byte. *)
Lemma escape_digits_inj (c d : ascii) :
  url.upperhex (N_of_ascii c / 16) = url.upperhex (N_of_ascii d / 16) ->
  url.upperhex (N_of_ascii c mod 16) = url.upperhex (N_of_ascii d mod 16) ->
  c = d.
Proof.
  intros Hhi Hlo.
  pose proof (N_ascii_bounded c) as Hc. pose proof (N_ascii_bounded d) as Hd.
  apply (f_equal hexValue) in Hhi, Hlo.
  rewrite !hexValue_upperhex in Hhi, Hlo
    by (try (apply N.mod_lt; lia); apply N.Div0.div_lt_upper_bound; assumption).
  rewrite <- (ascii_N_embedding c), <- (ascii_N_embedding d). f_equal.
  rewrite (N.div_mod (N_of_ascii c) 16), (N.div_mod (N_of_ascii d) 16) by lia.
  now rewrite Hhi, Hlo.
Qed.

(** [url.QueryEscape] loses nothing: the escape determines the string. *)
Lemma QueryEscape_inj (s s' : string) :
  url.QueryEscape s = url.QueryEscape s' -> s = s'.
Proof.
  revert s'. induction s as [|c s IH]; intros [|d s']; cbn [url.QueryEscape].
  - reflexivity.
  - destruct (url.shouldEscape d); [destruct (Ascii.eqb d " ")|]; discriminate.
  - destruct (url.shouldEscape c); [destruct (Ascii.eqb c " ")|]; discriminate.
  - destruct (url.shouldEscape c) eqn:Hc; destruct (url.shouldEscape d) eqn:Hd.
    + destruct (Ascii.eqb_spec c " ") as [->|Hcs];
        destruct (Ascii.eqb_spec d " ") as [->|Hds]; try discriminate.
      * intros [= H]. f_equal. now apply IH.
      * intros [= Hhi Hlo H]. f_equal; [now apply escape_digits_inj|now apply IH].
    + destruct (Ascii.eqb_spec c " ") as [->|Hcs].
      * intros [= <- _]. discriminate Hd.
      * intros [= <- _]. discriminate Hd.
    + destruct (Ascii.eqb_spec d " ") as [->|Hds].
      * intros [= -> _]. discriminate Hc.
      * intros [= -> _]. discriminate Hc.
    + intros [= -> H]. f_equal. now apply IH.
Qed.

(** Two strings without [&] that are followed by [&] end at the same place. *)
Lemma split_at_ampersand (a b x y : string) :
  allChars querySafe a = true -> allChars querySafe b = true ->
  a +:+ String "&" x = b +:+ String "&" y -> a = b /\ x = y.
Proof.
  revert b. induction a as [|c a IH]; intros [|d b]; cbn [allChars];
    rewrite ?append_cons.
  - now intros _ _ [= ->].
  - intros _ [Hd _]%andb_prop [= <- _]. discriminate Hd.
  - intros [Hc _]%andb_prop _ [= -> _]. discriminate Hc.
  - intros [_ Ha]%andb_prop [_ Hb]%andb_prop [= -> H].
    destruct (IH _ Ha Hb H) as [-> ->]. now split.
Qed.

(** X20: the URL of a page tells the marker and the number of keys asked
    for: for one bucket, two page URLs are the same only for the same marker
    and the same number.  The escape keeps a marker with [&], [=] or a space
    in it from running into the rest of the query. *)
Theorem page_URL_determines_marker_and_count (c : Client) (bucket marker marker' : string)
  (fetchN fetchN' : Z) :
  listURL c bucket marker fetchN = listURL c bucket marker' fetchN' ->
  marker = marker' /\ fetchN = fetchN'.
Proof.
  unfold listURL. intros H.
  apply append_inv_head, append_inv_head in H.
  change ("&max-keys=" +:+ itoa fetchN) with (String "&" ("max-keys=" +:+ itoa fetchN)) in H.
  change ("&max-keys=" +:+ itoa fetchN') with (String "&" ("max-keys=" +:+ itoa fetchN')) in H.
  apply split_at_ampersand in H as [Hm Hn]; try apply QueryEscape_safe.
  split; [now apply QueryEscape_inj|].
  apply append_inv_head in Hn. unfold itoa in Hn. now apply (inj pretty) in Hn.
Qed.

(** ** When a listing ends *)

Section ListingEnds.

Context {Body T : Type} {P : Platform Body} {RT : RoundTripper Body T}.

Lemma attempt_break_served (url_ bucket marker : string) (fetchN try : Z) (t t' : T)
  (bres bres' : listBucketResults) (ev : list event) :
  (forall t0 req t1 res, RoundTrip t0 req = (t1, RTOk res) -> StatusCode res < 500) ->
  attempt url_ bucket marker fetchN try t bres = (t', ev, TryBreak bres') ->
  servedPage bres'.
Proof.
  intros Hno. unfold attempt.
  destruct (newReq url_) as [req|e]; [|discriminate].
  destruct (RoundTrip t req) as [t1 [res|err]] eqn:Hrt.
  - pose proof (Hno _ _ _ _ Hrt) as Hlt.
    destruct (Z.eqb_spec (StatusCode res) 200) as [E2|E2]; cbn [negb].
    + destruct (decodeListBucket (RespBody res)) as [page derr] eqn:Hdec.
      unfold pageError. destruct derr as [e|].
      * destruct (try <? maxTries - 1); discriminate.
      * destruct (echoMismatch page fetchN bucket marker).
        -- destruct (try <? maxTries - 1); discriminate.
        -- intros [= _ _ <-]. now exists t, req, t1, res.
    + destruct (Z.ltb_spec (StatusCode res) 500); [discriminate|lia].
  - destruct (try <? maxTries); discriminate.
Qed.

Lemma tryLoop_break_served (n : nat) (url_ bucket marker : string) (fetchN : Z) :
  (forall t0 req t1 res, RoundTrip t0 req = (t1, RTOk res) -> StatusCode res < 500) ->
  forall try t bres t' ev bres',
    Z.of_nat n = maxTries - try ->
    tryLoop (S n) url_ bucket marker fetchN try t bres = (t', ev, FetchBreak bres') ->
    servedPage bres'.
Proof.
  intros Hno. induction n as [|n IH]; intros try t bres t' ev bres' Hn.
  - cbn [tryLoop].
    destruct (attempt url_ bucket marker fetchN try t bres) as [[t1 ev1] r1] eqn:Ha.
    destruct r1 as [bres1|bres1|err|e]; try discriminate.
    + exfalso. eapply attempt_last_pass; [|exact Ha]. lia.
    + intros [= _ _ <-]. eapply attempt_break_served; eauto.
  - remember (S n) as m eqn:Hm. cbn [tryLoop].
    destruct (attempt url_ bucket marker fetchN try t bres) as [[t1 ev1] r1] eqn:Ha.
    destruct r1 as [bres1|bres1|err|e]; try discriminate.
    + destruct (tryLoop m url_ bucket marker fetchN (try + 1) t1 bres1)
        as [[t2 ev2] r2] eqn:Hl.
      intros [= _ _ ->]. subst m. eapply IH; [|exact Hl]. lia.
    + intros [= _ _ <-]. eapply attempt_break_served; eauto.
Qed.

(** A page with a key other than the marker makes the walk fail or add an
    item. *)
Lemma walk_progress (startAt : string) (contents : list Item) :
  forall items marker items' marker',
    (exists it, In it contents /\ Key it <> marker) ->
    walk startAt contents items marker = WalkDone items' marker' ->
    (length items < length items')%nat.
Proof.
  induction contents as [|it rest IH]; intros items marker items' marker'
    (x & Hin & Hne) Hw; [destruct Hin|].
  cbn [walk] in Hw. destruct (walkItem startAt marker it) eqn:Hstep.
  - apply walkItem_Skip in Hstep as [Hk _].
    destruct Hin as [<-|Hin]; [now destruct Hne|].
    eapply IH; [|exact Hw]. now exists x.
  - discriminate.
  - destruct (walk_appends_sublist _ _ _ _ _ _ Hw) as (kept & -> & _).
    rewrite !length_app. cbn. lia.
Qed.

Lemma listLoop_ends (c : Client) (bucket startAt : string) (maxKeys : Z) :
  (forall t0 req t1 res, RoundTrip t0 req = (t1, RTOk res) -> StatusCode res < 500) ->
  (forall page, servedPage page -> IsTruncated page = true ->
     exists it, In it (Contents page) /\ Key it <> Marker page) ->
  forall fuel t items marker,
    maxKeys - Z.of_nat (length items) <= Z.of_nat fuel ->
    exists t' tr out,
      listLoop fuel c bucket startAt maxKeys t items marker = Some (t', tr, out).
Proof.
  intros Hno Hnew. induction fuel as [|fuel IH]; intros t items marker Hfuel.
  - cbn [listLoop]. destruct (Z.ltb_spec (Z.of_nat (length items)) maxKeys); [lia|].
    now eexists _, _, _.
  - rewrite listLoop_S.
    destruct (Z.ltb_spec (Z.of_nat (length items)) maxKeys); [|now eexists _, _, _].
    destruct (tryLoop (Z.to_nat maxTries)
                (listURL c bucket marker (fetchCount maxKeys items)) bucket marker
                (fetchCount maxKeys items) 1 t zeroListBucketResults)
      as [[t1 ev] r] eqn:Htry.
    destruct r as [bres|err|e]; try (now eexists _, _, _).
    change (Z.to_nat maxTries) with 5%nat in Htry.
    pose proof (tryLoop_break_served 4 _ _ _ _ Hno 1 _ _ _ _ _ eq_refl Htry) as Hserved.
    pose proof (tryLoop_break_checked 4 _ _ _ _ Hno 1 _ _ _ _ _ eq_refl Htry) as Hecho.
    destruct (walk startAt (Contents bres) items marker) as [items1 marker1|e1] eqn:Hw;
      [|now eexists _, _, _].
    destruct (IsTruncated bres) eqn:Htrunc; cbn [negb]; [|now eexists _, _, _].
    assert (Hmk : Marker bres = marker).
    { unfold echoMismatch in Hecho. apply orb_false_elim in Hecho as [_ Hmk].
      now apply negb_false_iff, String.eqb_eq in Hmk. }
    specialize (Hnew _ Hserved Htrunc). rewrite Hmk in Hnew.
    pose proof (walk_progress _ _ _ _ _ _ Hnew Hw) as Hgrow.
    destruct (IH t1 items1 marker1 ltac:(lia)) as (t' & tr & out & ->).
    now eexists _, _, _.
Qed.

(** X11: against a service that never answers with a status of 500 or more
    and whose truncated pages each hold a key other than the marker they
    repeat, a listing comes to an end: [maxKeys] pages at most are walked,
    so that much fuel, or more, gives a result. *)
Theorem listing_ends_when_pages_bring_new_keys (fuel : nat) (c : Client) (t : T)
  (bucket startAt : string) (maxKeys : Z) :
  (forall t0 req t1 res, RoundTrip t0 req = (t1, RTOk res) -> StatusCode res < 500) ->
  (forall page, servedPage page -> IsTruncated page = true ->
     exists it, In it (Contents page) /\ Key it <> Marker page) ->
  maxKeys <= Z.of_nat fuel ->
  exists t' tr out, GetBucket fuel c t bucket startAt maxKeys = Some (t', tr, out).
Proof.
  intros Hno Hnew Hfuel. unfold GetBucket.
  destruct (maxKeys <? 0); [now eexists _, _, _|].
  apply listLoop_ends; [exact Hno|exact Hnew|cbn; lia].
Qed.

End ListingEnds.

(** ** The cost of a listing *)

Section ListingCost.

Context {Body T : Type} {P : Platform Body} {RT : RoundTripper Body T}.

Lemma pagesWalked_app (tr1 tr2 : list event) :
  pagesWalked (tr1 ++ tr2) = (pagesWalked tr1 + pagesWalked tr2)%nat.
Proof. unfold pagesWalked. now rewrite omap_app, length_app. Qed.

Lemma pagesWalked_fetch (url_ : string) (ev : list event) :
  Forall (fetchEvent url_) ev -> pagesWalked ev = 0%nat.
Proof.
  induction 1 as [|e ev He _ IH]; [reflexivity|].
  destruct e as [ms|req|its mk bres]; [exact IH|exact IH|destruct He].
Qed.

(** One pass sleeps once and asks at most once. *)
Lemma attempt_events (url_ bucket marker : string) (fetchN try : Z) (t t' : T)
  (bres : listBucketResults) (ev : list event) (r : attemptResult) :
  attempt url_ bucket marker fetchN try t bres = (t', ev, r) ->
  sleepsOf ev = [(try - 1) * 100] /\ (length (requestsOf ev) <= 1)%nat.
Proof.
  unfold attempt. destruct (newReq url_) as [req|e].
  - destruct (RoundTrip t req) as [t1 [res|err]].
    + destruct (negb (StatusCode res =? 200)).
      * destruct (StatusCode res <? 500); intros [= <- <- <-]; now split.
      * destruct (decodeListBucket (RespBody res)) as [bres' derr].
        destruct (pageError bres' derr fetchN bucket marker);
          intros [= <- <- <-]; now split.
    + intros [= <- <- <-]; now split.
  - intros [= <- <- <-]. split; [reflexivity|cbn; lia].
Qed.

(** [n] passes from pass [try] on ask at most [n] times, and sleep
    [(try-1)*100] milliseconds, then 100 more before every further pass. *)
Lemma tryLoop_bounded (n : nat) (url_ bucket marker : string) (fetchN : Z) :
  forall try t bres t' ev r,
    tryLoop n url_ bucket marker fetchN try t bres = (t', ev, r) ->
    (length (requestsOf ev) <= n)%nat
    /\ exists k, (k <= n)%nat
         /\ sleepsOf ev = map (fun i => (try + Z.of_nat i - 1) * 100) (seq 0 k).
Proof.
  induction n as [|n IH]; intros try t bres t' ev r; cbn [tryLoop].
  - intros [= <- <- <-]. split; [reflexivity|]. now exists 0%nat.
  - destruct (attempt url_ bucket marker fetchN try t bres) as [[t1 ev1] r1] eqn:Ha.
    destruct (attempt_events _ _ _ _ _ _ _ _ _ _ Ha) as [Hs1 Hr1].
    assert (Hone : forall r2 : fetchResult, (t1, ev1, r2) = (t', ev, r) ->
              (length (requestsOf ev) <= S n)%nat
              /\ exists k, (k <= S n)%nat
                   /\ sleepsOf ev
                      = map (fun i => (try + Z.of_nat i - 1) * 100) (seq 0 k)).
    { intros r2 [= <- <- <-]. split; [lia|]. exists 1%nat. split; [lia|].
      rewrite Hs1. cbn. do 2 f_equal. lia. }
    destruct r1 as [bres1|bres1|err|e]; try (now apply Hone).
    destruct (tryLoop n url_ bucket marker fetchN (try + 1) t1 bres1)
      as [[t2 ev2] r2] eqn:Hl.
    destruct (IH _ _ _ _ _ _ Hl) as (Hr2 & k & Hk & Hs2).
    intros [= <- <- <-]. rewrite requestsOf_app, sleepsOf_app, length_app. split; [lia|].
    exists (S k). split; [lia|]. rewrite Hs1, Hs2. cbn [seq map app].
    f_equal; [f_equal; lia|].
    rewrite <- seq_shift, map_map. apply map_ext. intros i. f_equal. lia.
Qed.

Lemma listLoop_cost (fuel : nat) (c : Client) (bucket startAt : string) (maxKeys : Z) :
  forall t items marker t' tr out,
    listLoop fuel c bucket startAt maxKeys t items marker = Some (t', tr, out) ->
    (length (requestsOf tr) <= 5 * S (pagesWalked tr))%nat
    /\ (forall final, out = Returned (final, None) ->
          (length (requestsOf tr) <= 5 * pagesWalked tr)%nat)
    /\ Forall (fun ms => In ms [0; 100; 200; 300; 400]) (sleepsOf tr).
Proof.
  induction fuel as [|fuel IH]; intros t items marker t' tr out Hrun;
    apply listLoop_cases in Hrun
      as [(_ & _ & -> & _)|(_ & fuel' & t1 & ev & r & Hf & Htry & Hr)];
    try (now repeat split; cbn; try lia; constructor); try discriminate.
  injection Hf as <-.
  pose proof (pagesWalked_fetch _ _ (tryLoop_fetchEvents _ _ _ _ _ _ _ _ _ _ _ Htry))
    as Hw0.
  change (Z.to_nat maxTries) with 5%nat in Htry.
  destruct (tryLoop_bounded _ _ _ _ _ _ _ _ _ _ _ Htry) as (Hreqs & k & Hk & Hsl).
  assert (Hsleeps : Forall (fun ms => In ms [0; 100; 200; 300; 400]) (sleepsOf ev)).
  { rewrite Hsl. apply Forall_forall. intros ms Hin.
    apply list_elem_of_In, in_map_iff in Hin as (i & <- & Hi).
    apply in_seq in Hi.
    do 5 (destruct i as [|i]; [cbn; tauto|]). lia. }
  assert (Hwalk : forall bres,
            length (requestsOf (ev ++ [EvWalk items marker bres])) = length (requestsOf ev)
            /\ pagesWalked (ev ++ [EvWalk items marker bres]) = 1%nat
            /\ sleepsOf (ev ++ [EvWalk items marker bres]) = sleepsOf ev).
  { intros bres. rewrite requestsOf_app, pagesWalked_app, sleepsOf_app, Hw0, length_app.
    cbn. rewrite app_nil_r. repeat split; lia. }
  destruct r as [bres|err|e0].
  - destruct (Hwalk bres) as (Hq & Hp & Hs).
    destruct (walk startAt (Contents bres) items marker) as [items1 marker1|e1].
    + destruct (IsTruncated bres).
      * destruct Hr as (ev2 & Hrec & ->).
        destruct (IH _ _ _ _ _ _ Hrec) as (Hall & Hok & Hsl2).
        rewrite requestsOf_app, pagesWalked_app, sleepsOf_app, length_app, Hq, Hp, Hs.
        split; [lia|]. split; [|now apply Forall_app].
        intros final Hout. specialize (Hok final Hout). lia.
      * destruct Hr as (_ & -> & _). rewrite Hq, Hp, Hs.
        split; [lia|]. split; [intros; lia|exact Hsleeps].
    + destruct Hr as (_ & -> & _). rewrite Hq, Hp, Hs.
      split; [lia|]. split; [intros; lia|exact Hsleeps].
  - destruct Hr as (_ & -> & ->). rewrite Hw0.
    split; [lia|]. split; [discriminate|exact Hsleeps].
  - destruct Hr as (_ & -> & ->). rewrite Hw0.
    split; [lia|]. split; [discriminate|exact Hsleeps].
Qed.

(** X23: a listing sends at most five requests for a page: in all, at most
    five times the number of pages it walked when it succeeds, and five
    more at most when it ends in an error or a panic.  Before every pass it
    sleeps 0, 100, 200, 300 or 400 milliseconds, nothing else. *)
Theorem at_most_five_requests_a_page (fuel : nat) (c : Client) (t t' : T)
  (bucket startAt : string) (maxKeys : Z) (tr : list event)
  (out : outcome (list Item * option error)) :
  GetBucket fuel c t bucket startAt maxKeys = Some (t', tr, out) ->
  (length (requestsOf tr) <= 5 * S (pagesWalked tr))%nat
  /\ (forall items, out = Returned (items, None) ->
        (length (requestsOf tr) <= 5 * pagesWalked tr)%nat)
  /\ Forall (fun ms => In ms [0; 100; 200; 300; 400]) (sleepsOf tr).
Proof.
  unfold GetBucket. destruct (maxKeys <? 0).
  - intros [= _ <- <-]. split; [cbn; lia|]. split; [discriminate|constructor].
  - apply listLoop_cost.
Qed.

(** X24: a listing for no keys sends nothing: for [maxKeys <= 0] the call
    returns at once, whatever the fuel, with no item and with an error only
    for a negative [maxKeys]; for [maxKeys > 0] a call that returns has sent
    a request. *)
Theorem nothing_is_sent_exactly_when_nothing_is_asked (fuel : nat) (c : Client) (t : T)
  (bucket startAt : string) (maxKeys : Z) :
  (maxKeys <= 0 ->
   GetBucket fuel c t bucket startAt maxKeys
   = Some (t, [], Returned ([], if maxKeys <? 0
                                then Some (errorString "invalid negative maxKeys")
                                else None)))
  /\ (0 < maxKeys -> forall t' tr r,
        GetBucket fuel c t bucket startAt maxKeys = Some (t', tr, Returned r) ->
        requestsOf tr <> []).
Proof.
  unfold GetBucket. split.
  - intros Hle. destruct (Z.ltb_spec maxKeys 0); [reflexivity|].
    destruct fuel; cbn [listLoop];
      destruct (Z.ltb_spec (Z.of_nat (length (@nil Item))) maxKeys);
      try reflexivity; cbn in *; lia.
  - intros Hpos t' tr r. destruct (Z.ltb_spec maxKeys 0); [lia|]. intros Hrun.
    apply listLoop_cases in Hrun
      as [(Hle & _)|(_ & fuel' & t1 & ev & r0 & _ & Htry & Hr)]; [cbn in Hle; lia|].
    change (Z.to_nat maxTries) with 5%nat in Htry.
    assert (Hev : (forall e0, r0 <> FetchPanic e0) -> requestsOf ev <> []).
    { intros Hno Hnil.
      pose proof (tryLoop_asks _ _ _ _ _ _ _ _ _ _ _ Htry Hno) as Hin.
      apply in_split in Hin as (l1 & l2 & ->).
      rewrite requestsOf_app in Hnil. now apply app_eq_nil in Hnil as [_ Hnil]. }
    assert (Hmore : forall rest, requestsOf ev <> [] -> requestsOf (ev ++ rest) <> []).
    { intros rest Hne Hnil. rewrite requestsOf_app in Hnil.
      now apply app_eq_nil in Hnil as [Hnil _]. }
    destruct r0 as [bres|err|e0].
    + specialize (Hev ltac:(discriminate)).
      destruct (walk startAt (Contents bres) [] startAt) as [items1 marker1|e1].
      * destruct (IsTruncated bres).
        -- destruct Hr as (ev2 & _ & ->). rewrite <- app_assoc. now apply Hmore.
        -- destruct Hr as (_ & -> & _). now apply Hmore.
      * destruct Hr as (_ & -> & _). now apply Hmore.
    + destruct Hr as (_ & -> & _). apply Hev. discriminate.
    + destruct Hr as (_ & _ & [=]).
Qed.

End ListingCost.

(** ** The further theorems at concrete inputs *)

Lemma transport_failures_are_retried_witness :
  exists tr,
    GetBucket 1 Scripted.client
      [RTErr (errorString "reset"); RTErr (errorString "reset");
       Scripted.page ["k"] false 1 "bk" ""] "bk" "" 1
    = Some ([], tr, Returned ([Scripted.item "k"], None))
    /\ length (requestsOf tr) = 3%nat.
Proof.
  assert (Hfails : transportFails (RT := Scripted.transport)
                     (getRequest (listURL Scripted.client "bk" "" (fetchCount 1 []))) 2
                     [RTErr (errorString "reset"); RTErr (errorString "reset");
                      Scripted.page ["k"] false 1 "bk" ""]
                     [Scripted.page ["k"] false 1 "bk" ""]).
  { eapply fails_again; [reflexivity|]. eapply fails_again; [reflexivity|].
    apply fails_none. }
  assert (Hans : answersPage (P := Scripted.platform) (RT := Scripted.transport)
                   [Scripted.page ["k"] false 1 "bk" ""]
                   (getRequest (listURL Scripted.client "bk" "" (fetchCount 1 []))) []
                   (mkListBucketResults [Scripted.item "k"] false 1 "bk" "")).
  { eexists. repeat split. }
  pose proof (transport_failures_are_retried (P := Scripted.platform)
                (RT := Scripted.transport) 1 2 Scripted.client "bk" "" 1 _ _ _ _
                ltac:(lia) ltac:(lia) ltac:(reflexivity) Hfails Hans
                ltac:(repeat split)) as H.
  assert (Htk : GetBucket 1 Scripted.client [Scripted.page ["k"] false 1 "bk" ""] "bk" "" 1
                = Some ([], [EvSleep 0;
                             EvRequest (getRequest (listURL Scripted.client "bk" "" 1));
                             EvWalk [] ""
                               (mkListBucketResults [Scripted.item "k"] false 1 "bk" "")],
                        Returned ([Scripted.item "k"], None))) by reflexivity.
  rewrite Htk in H. destruct H as (tr & Hrun & Hreqs).
  exists tr. split; [exact Hrun|]. now rewrite Hreqs.
Defined.

Lemma fifth_transport_failure_is_returned_witness :
  exists tr,
    GetBucket 1 Scripted.client ([] : list (RTResult Scripted.body)) "bk" "" 1
    = Some ([], tr, Returned ([], Some (errorString "EOF")))
    /\ length (requestsOf tr) = 5%nat
    /\ sleepsOf tr = [0; 100; 200; 300; 400].
Proof.
  assert (Hfails : transportFails (RT := Scripted.transport)
                     (getRequest (listURL Scripted.client "bk" "" (fetchCount 1 []))) 4
                     [] []).
  { do 4 (eapply fails_again; [reflexivity|]). apply fails_none. }
  destruct (fifth_transport_failure_is_returned (P := Scripted.platform)
              (RT := Scripted.transport) 0 Scripted.client "bk" "" 1 [] [] []
              (errorString "EOF") ltac:(lia) ltac:(reflexivity) Hfails ltac:(reflexivity))
    as (tr & Hrun & Hreqs & Hsleeps).
  exists tr. split; [exact Hrun|]. split; [now rewrite Hreqs|exact Hsleeps].
Defined.

Lemma client_error_is_permanent_witness :
  exists e,
    GetBucket 1 Scripted.client [Scripted.status 403 ∅] "bk" "" 1
    = Some ([], [EvSleep 0; EvRequest (getRequest (listURL Scripted.client "bk" "" 1))],
            Returned ([], Some (MinioError e)))
    /\ Op e = "ListBucket" /\ Code e = 403.
Proof.
  destruct (client_error_is_permanent (P := Scripted.platform) (RT := Scripted.transport)
              0 Scripted.client "bk" "" 1 1 [Scripted.status 403 ∅] []
              zeroListBucketResults
              (mkResponse 403 ∅ (Scripted.mkBody "" zeroListBucketResults None) 0)
              ltac:(lia) ltac:(reflexivity) ltac:(reflexivity) ltac:(cbn; lia)
              ltac:(cbn; lia))
    as (e & _ & Hrun & Hop & Hcode & _).
  exists e. split; [exact Hrun|]. split; [exact Hop|exact Hcode].
Defined.

Lemma page_requests_resume_after_last_key_witness :
  "b" = resumeMarker "a" [Scripted.item "a"; Scripted.item "b"]
  /\ getRequest (listURL Scripted.client "bk" "b" 1)
     = mkRequest "GET"
         (listURL Scripted.client "bk"
            (resumeMarker "a" [Scripted.item "a"; Scripted.item "b"])
            (fetchCount 3 [Scripted.item "a"; Scripted.item "b"]))
         {["User-Agent" := ["minio"]]}
  /\ [Scripted.item "a"; Scripted.item "b"]
       `prefix_of` [Scripted.item "a"; Scripted.item "b"; Scripted.item "c"].
Proof.
  destruct (proj1 (page_requests_resume_after_last_key (P := Scripted.platform)
                     (RT := Scripted.transport) 2 Scripted.client
                     [Scripted.page ["a"; "b"] true 3 "bk" "a";
                      Scripted.page ["b"; "c"] false 1 "bk" "b"] [] "bk" "a" 3
                     [EvSleep 0;
                      EvRequest (getRequest (listURL Scripted.client "bk" "a" 3));
                      EvWalk [] "a"
                        (mkListBucketResults [Scripted.item "a"; Scripted.item "b"]
                           true 3 "bk" "a");
                      EvSleep 0;
                      EvRequest (getRequest (listURL Scripted.client "bk" "b" 1));
                      EvWalk [Scripted.item "a"; Scripted.item "b"] "b"
                        (mkListBucketResults [Scripted.item "b"; Scripted.item "c"]
                           false 1 "bk" "b")]
                     (Returned ([Scripted.item "a"; Scripted.item "b"; Scripted.item "c"],
                                None))
                     ltac:(reflexivity))
              [EvSleep 0;
               EvRequest (getRequest (listURL Scripted.client "bk" "a" 3));
               EvWalk [] "a"
                 (mkListBucketResults [Scripted.item "a"; Scripted.item "b"] true 3 "bk" "a");
               EvSleep 0]
              (getRequest (listURL Scripted.client "bk" "b" 1))
              [EvWalk [Scripted.item "a"; Scripted.item "b"] "b"
                 (mkListBucketResults [Scripted.item "b"; Scripted.item "c"] false 1 "bk" "b")]
              eq_refl)
    as (Hmk & Hreq & _ & _ & Hfinal).
  split; [exact Hmk|]. split; [exact Hreq|]. exact (Hfinal _ eq_refl).
Defined.

Lemma listed_items_come_from_the_pages_witness :
  [Scripted.item "a"; Scripted.item "b"; Scripted.item "c"]
    `sublist_of` [Scripted.item "a"; Scripted.item "b"; Scripted.item "b"; Scripted.item "c"].
Proof.
  exact (proj1 (listed_items_come_from_the_pages (P := Scripted.platform)
                  (RT := Scripted.transport) 2 Scripted.client
                  [Scripted.page ["a"; "b"] true 3 "bk" "a";
                   Scripted.page ["b"; "c"] false 1 "bk" "b"] _ "bk" "a" 3 _ _
                  ltac:(reflexivity))).
Defined.

Lemma error_result_has_no_items_witness :
  exists tr,
    GetBucket 2 Scripted.client
      [Scripted.page ["a"; "b"] true 3 "bk" "a"; Scripted.status 403 ∅] "bk" "a" 3
    = Some ([], tr, Returned ([], Some (MinioError
              (mkError "ListBucket" 403 "" ∅ "" ""))))
    /\ walkedContents tr = [Scripted.item "a"; Scripted.item "b"]
    /\ In (EvRequest (getRequest (listURL Scripted.client "bk" "a" (fetchCount 3 [])))) tr.
Proof.
  eexists. split; [reflexivity|]. split; [reflexivity|].
  exact (proj2 (error_result_has_no_items (P := Scripted.platform)
                  (RT := Scripted.transport) 2 Scripted.client
                  [Scripted.page ["a"; "b"] true 3 "bk" "a"; Scripted.status 403 ∅]
                  _ "bk" "a" 3 _ _ _ ltac:(reflexivity))).
Defined.

(** [Paged.twoPages] answers every request with status 200. *)
Lemma twoPages_status (s : Paged.stage) (req : Request) (s' : Paged.stage)
  (res : Response Scripted.body) :
  RoundTrip s req = (s', RTOk res) -> StatusCode res < 500.
Proof. destruct s; intros [= _ <-]; cbn; lia. Qed.


Lemma walked_pages_echo_their_request_witness :
  Name (mkListBucketResults [Scripted.item "b"] false 1 "bk" "a") = "bk"
  /\ Marker (mkListBucketResults [Scripted.item "b"] false 1 "bk" "a") = "a"
  /\ MaxKeys (mkListBucketResults [Scripted.item "b"] false 1 "bk" "a")
     = fetchCount 2 [Scripted.item "a"]
  /\ 1 <= MaxKeys (mkListBucketResults [Scripted.item "b"] false 1 "bk" "a")
     <= MAX_OBJECT_LIST.
Proof.
  apply (walked_pages_echo_their_request (P := Scripted.platform)
           (RT := Paged.twoPages) 2 Scripted.client Paged.First Paged.Second "bk" "" 2
           _ _ [Scripted.item "a"] "a" _ twoPages_status ltac:(reflexivity)).
  cbn. tauto.
Defined.

Lemma empty_truncated_pages_are_asked_for_ever_witness :
  GetBucket 1000 Scripted.client tt "bk" "" 1 = None.
Proof.
  apply (empty_truncated_pages_are_asked_for_ever (P := Scripted.platform)
           (RT := Endless.emptyPages) Scripted.client "bk" "" 1
           ltac:(lia) ltac:(reflexivity)).
  intros []. exists tt, (mkListBucketResults [] true 1 "bk" "").
  split; [eexists; repeat split|]. repeat split.
Defined.

Lemma client_urls_witness :
  Stat (NewMinioClient "") [Staged.answer 200 0 [] ""] "k" "bk"
  = ([], [EvRequest (mkRequest "HEAD" "http://localhost/bk/k"
                       {["User-Agent" := ["minio"]]})],
     Returned (0, Some (NumError "ParseInt" "" ErrSyntax)))
  /\ Forall (fun req => URL req = "http://localhost/bk/k")
       (requestsOf [EvRequest (mkRequest "HEAD" "http://localhost/bk/k"
                                 {["User-Agent" := ["minio"]]})]).
Proof.
  assert (Hrun : Stat (NewMinioClient "") [Staged.answer 200 0 [] ""] "k" "bk"
                 = ([], [EvRequest (mkRequest "HEAD" "http://localhost/bk/k"
                                      {["User-Agent" := ["minio"]]})],
                    Returned (0, Some (NumError "ParseInt" "" ErrSyntax))))
    by (vm_compute; reflexivity).
  split; [exact Hrun|].
  pose proof (client_urls (P := Staged.stagedPlatform) (RT := Staged.stagedTransport)
                (D := Staged.stagedDocuments) (U := Staged.stagedUploader)
                (NewMinioClient "") [Staged.answer 200 0 [] ""] "bk" "k" "example.com")
    as H.
  cbv zeta in H. destruct H as (_ & _ & HStat & _).
  exact (proj1 (HStat _ _ _ Hrun)).
Defined.


Lemma listing_ends_when_pages_bring_new_keys_witness :
  exists t' tr out,
    GetBucket 2 Scripted.client Paged.First "bk" "" 2 = Some (t', tr, out).
Proof.
  apply (listing_ends_when_pages_bring_new_keys (P := Scripted.platform)
           (RT := Paged.twoPages) 2 Scripted.client Paged.First "bk" "" 2
           twoPages_status); [|cbn; lia].
  intros page (s & req & s' & res & Hrt & _ & Hdec) Htrunc.
  destruct s; injection Hrt as _ <-; injection Hdec as <-; [|discriminate Htrunc].
  exists (Scripted.item "a"). split; [now left|discriminate].
Defined.

Lemma Stat_size_comes_from_Content_Length_witness :
  exists res,
    [EvRequest (mkRequest "HEAD" "http://localhost/bk/k" {["User-Agent" := ["minio"]]})]
    = [EvRequest (mkRequest "HEAD" (keyURL Scripted.client "bk" "k")
                    {["User-Agent" := ["minio"]]})]
    /\ RoundTrip [Scripted.status 200 {["Content-Length" := ["42"]]}]
         (mkRequest "HEAD" (keyURL Scripted.client "bk" "k") {["User-Agent" := ["minio"]]})
       = ([], RTOk res)
    /\ StatusCode res = 200
    /\ (exists v rest, Header res !! "Content-Length" = Some (v :: rest)
                       /\ v <> "" /\ strconv.ParseInt v = (42, None))
    /\ in_int64 42.
Proof.
  assert (Hrun : Stat Scripted.client [Scripted.status 200 {["Content-Length" := ["42"]]}]
                   "k" "bk"
                 = ([], [EvRequest (mkRequest "HEAD" "http://localhost/bk/k"
                                      {["User-Agent" := ["minio"]]})],
                    Returned (42, None))) by (vm_compute; reflexivity).
  exact (Stat_size_comes_from_Content_Length (P := Scripted.platform)
           (RT := Scripted.transport) Scripted.client _ _ "k" "bk" _ 42 Hrun).
Defined.

Lemma Get_and_GetPartial_differ_only_at_206_witness :
  exists body size err req',
    Get Scripted.client [Scripted.status 206 ∅] "bk" "k"
    = ([], [EvRequest (getRequest (keyURL Scripted.client "bk" "k"))],
       Returned (body, size, err))
    /\ err <> None /\ body = None /\ size = 0
    /\ GetPartial Scripted.client [Scripted.status 206 ∅] "bk" "k" 0 10
       = ([], [EvRequest req'],
          Returned (Some (Scripted.mkBody "" zeroListBucketResults None), None)).
Proof.
  destruct (Get_and_GetPartial_differ_only_at_206 (P := Scripted.platform)
              (RT := Scripted.transport) Scripted.client [Scripted.status 206 ∅] []
              "bk" "k" 0 10
              (mkResponse 206 ∅ (Scripted.mkBody "" zeroListBucketResults None) 0)
              ltac:(lia) ltac:(reflexivity) ltac:(reflexivity))
    as (body & size & err & Hget & Hiff & _ & Hbad & _ & req' & _ & _ & Hpartial).
  assert (Herr : err <> None) by (intros H; apply Hiff in H; discriminate H).
  destruct (Hpartial [] (Scripted.status 206 ∅) eq_refl) as (r & Hrun & Hr).
  exists body, size, err, req'. split; [exact Hget|]. split; [exact Herr|].
  split; [exact (proj1 (Hbad Herr))|]. split; [exact (proj2 (Hbad Herr))|].
  now rewrite Hrun, (Hr eq_refl).
Defined.

Lemma PutBucket_succeeds_only_on_200_witness :
  exists r,
    RoundTrip [Scripted.status 204 ∅]
      (mkRequest "PUT" (bucketURL Scripted.client "bk") {["User-Agent" := ["minio"]]})
    = ([], r)
    /\ forall res, r = RTOk res -> StatusCode res <> 200 ->
         Some (errorString "Got response code 204 from minio")
         = Some (errorString ("Got response code " +:+ itoa (StatusCode res)
                              +:+ " from minio")).
Proof.
  destruct (PutBucket_succeeds_only_on_200 (P := Scripted.platform)
              (RT := Scripted.transport) Scripted.client [Scripted.status 204 ∅] []
              "bk" _ (Some (errorString "Got response code 204 from minio"))
              ltac:(reflexivity))
    as (r & _ & Hrt & _ & Herr).
  exists r. split; [exact Hrt|exact Herr].
Defined.

Lemma Put_sends_the_digest_and_succeeds_only_on_200_witness :
  exists req r,
    Put Scripted.client [Staged.answer 200 0 [] ""] "bk" "k" (Some "0123456789abcdef") 3 "abc"
    = ([], [EvRequest req], Returned None)
    /\ ReqHeader req !! "Content-Md5" = Some ["MDEyMzQ1Njc4OWFiY2RlZg=="]
    /\ ReqHeader req !! "Content-MD5" = None
    /\ RoundTripUpload [Staged.answer 200 0 [] ""] (mkUpload req 3 "abc") = ([], r).
Proof.
  destruct (Put_sends_the_digest_and_succeeds_only_on_200 (P := Staged.stagedPlatform)
              (U := Staged.stagedUploader) Scripted.client
              [Staged.answer 200 0 [] ""] [] "bk" "k" (Some "0123456789abcdef") 3 "abc"
              _ None ltac:(reflexivity))
    as (req & r & Htr & _ & _ & _ & Hmd5 & Hraw & _ & Hrt & _).
  exists req, r. split; [|split; [exact Hmd5|split; [exact Hraw|exact Hrt]]].
  injection Htr as <-. reflexivity.
Defined.

Lemma Buckets_come_from_a_decoded_200_witness :
  exists res,
    RoundTrip [Staged.answer 200 0 [mkBucket "bk" "2015-01-01T00:00:00.000Z"] ""]
      (getRequest ("http://" +:+ hostname Scripted.client +:+ "/"))
    = ([], RTOk res)
    /\ StatusCode res = 200
    /\ decodeAllMyBuckets (RespBody res)
       = ([mkBucket "bk" "2015-01-01T00:00:00.000Z"], None).
Proof.
  exact (proj2 (proj2 (Buckets_come_from_a_decoded_200 (P := Staged.stagedPlatform)
           (RT := Staged.stagedTransport) (D := Staged.stagedDocuments) Scripted.client
           [Staged.answer 200 0 [mkBucket "bk" "2015-01-01T00:00:00.000Z"] ""] [] _
           [mkBucket "bk" "2015-01-01T00:00:00.000Z"] None ltac:(reflexivity)))
         eq_refl).
Defined.

Lemma BucketLocation_looks_only_at_the_body_witness :
  BucketLocation (RT := Staged.stagedTransport) Scripted.client
    [Staged.answer 200 0 [] "eu"] "bk" "example.com"
  = ([], [EvRequest (getRequest (bucketLocationURL "bk" "example.com"))],
     Returned ("minio-eu.example.com", None))
  /\ BucketLocation (RT := fun _ _ => ([], Staged.answer 404 7 [] "eu"))
       (NewMinioClient "other") [Staged.answer 200 0 [] "eu"] "bk" "example.com"
     = ([], [EvRequest (getRequest (bucketLocationURL "bk" "example.com"))],
        Returned ("minio-eu.example.com", None)).
Proof.
  destruct (BucketLocation_looks_only_at_the_body (P := Staged.stagedPlatform)
              (D := Staged.stagedDocuments) Staged.stagedTransport
              (fun _ _ => ([], Staged.answer 404 7 [] "eu"))
              Scripted.client (NewMinioClient "other")
              [Staged.answer 200 0 [] "eu"] [] [] "bk" "example.com" _ _
              ltac:(reflexivity) ltac:(reflexivity) ltac:(reflexivity) ltac:(reflexivity))
    as (location & err & H1 & H2 & _ & _ & Hloc).
  destruct (Hloc "eu" eq_refl) as (_ & Hval & _).
  assert (Hl : location = "minio-eu.example.com") by (apply Hval; discriminate).
  assert (He : err = None).
  { rewrite Hl in H1. cbv in H1. now injection H1. }
  subst. split; [exact H1|exact H2].
Defined.

Lemma page_URL_determines_marker_and_count_witness :
  "a&max-keys=1" = "a&max-keys=1" /\ 7 = 7.
Proof.
  exact (page_URL_determines_marker_and_count Scripted.client "bk"
           "a&max-keys=1" "a&max-keys=1" 7 7 eq_refl).
Defined.

Lemma at_most_five_requests_a_page_witness :
  exists tr,
    GetBucket 2 Scripted.client
      [RTErr (errorString "reset"); Scripted.page ["a"; "b"] true 3 "bk" "a";
       Scripted.page ["b"; "c"] false 1 "bk" "b"] "bk" "a" 3
    = Some ([], tr,
            Returned ([Scripted.item "a"; Scripted.item "b"; Scripted.item "c"], None))
    /\ pagesWalked tr = 2%nat
    /\ (length (requestsOf tr) <= 5 * pagesWalked tr)%nat
    /\ sleepsOf tr = [0; 100; 0].
Proof.
  eexists. split; [reflexivity|]. split; [reflexivity|]. split; [|reflexivity].
  refine (proj1 (proj2 (at_most_five_requests_a_page (P := Scripted.platform)
                          (RT := Scripted.transport) 2 Scripted.client
                          [RTErr (errorString "reset");
                           Scripted.page ["a"; "b"] true 3 "bk" "a";
                           Scripted.page ["b"; "c"] false 1 "bk" "b"] [] "bk" "a" 3 _ _
                          ltac:(reflexivity))) _ eq_refl).
Defined.
